(** * Availability monitor ([health_check.py]): embedding and properties

    The monitor probes HTTP endpoints grouped by domain, turns every cycle
    into a per-domain availability fraction and keeps a running average of
    these fractions.  This file embeds [parse_config], [load_config],
    [check_endpoint_status], [get_domain_availability],
    [update_domains_availability] and the loop of [main] as Rocq functions
    and proves the properties the specification states about them.

    Conventions of the embedding.
    - Python exceptions (subclasses of [Exception]) are values of [exn];
      code that can raise returns a [result].
    - Logging and sleeping are recorded in a trace of [event]s; the monad
      [M] threads the trace and the exceptions.
    - The network, the clock, the file system, the YAML and URL parsers
      and the formatting of a list of strings are inputs of the model
      (oracles or parameters).
    - [asyncio.gather] returns its results in the order of its tasks; the
      trace lists the events of the tasks in that order, which is one of
      the orders the concurrent probes can log in.
    - Numbers are Python numbers: an [int] is a [Z], a [float] is an element
      of an arithmetic [arith].  Two arithmetics are given: [binary64], the
      IEEE 754 double precision arithmetic CPython uses, and [exact], the
      rationals.  An [int] is converted to the nearest [float]; beyond the
      range of [float] that is an infinity here, where Python raises
      [OverflowError]. *)

From Stdlib Require Import ZArith QArith Qcanon Qround List String Ascii Bool Lia.
From Stdlib Require Import SpecFloat DecimalString Permutation Qpower.
Import ListNotations.

Set Implicit Arguments.

(** ** Exceptions and results *)

(** The subclasses of [Exception] the program meets.  [KeyboardInterrupt],
    [CancelledError] and [SystemExit] derive from [BaseException] only: no
    [except Exception] clause of the program catches them, and they are not
    values of this type ([SystemExit] is the [Exits] outcome below).
    [TimeoutError] stands for the class and its subclasses, which the
    clause [except TimeoutError] catches alike. *)
Inductive exn : Type :=
| KeyError (key : string)
| ZeroDivisionError
| TimeoutError
| ValueError (msg : string)
| OverflowError (msg : string)
| OtherException (msg : string).

(** [str(e)], as the f-strings of the program print an exception. *)
Definition exn_str (e : exn) : string :=
  match e with
  | KeyError key => ("'" ++ key ++ "'")%string
  | ZeroDivisionError => "division by zero"%string
  | TimeoutError => ""%string
  | ValueError msg => msg
  | OverflowError msg => msg
  | OtherException msg => msg
  end.

Inductive result (T : Type) : Type :=
| Ok (v : T)
| Raise (e : exn).
Arguments Ok {T} v.
Arguments Raise {T} e.

(** ** Python numbers *)

(** What the program needs of a floating-point arithmetic.  [to_Q] is the
    exact value of a finite number ([None] for an infinity or a NaN), and
    [is_nan] tells the two apart. *)
Record arith : Type := {
  num : Type;
  of_int : Z -> num;
  add : num -> num -> num;
  sub : num -> num -> num;
  mul : num -> num -> num;
  div : num -> num -> num;
  is_zero : num -> bool;
  gtb : num -> num -> bool;
  to_Q : num -> option Q;
  is_nan : num -> bool
}.

(** IEEE 754 binary64, from the reference implementation of the Standard
    Library ([prec = 53], [emax = 1024]). *)
Module B64.
Definition prec : Z := 53.
Definition emax : Z := 1024.
Definition of_int (z : Z) : spec_float := binary_normalize prec emax z 0 false.
Definition is_zero (x : spec_float) : bool :=
  match x with S754_zero _ => true | _ => false end.
Definition gtb (x y : spec_float) : bool := SFltb y x.
Definition is_nan (x : spec_float) : bool :=
  match x with S754_nan => true | _ => false end.
Definition is_finite (x : spec_float) : bool :=
  match x with S754_zero _ | S754_finite _ _ _ => true | _ => false end.
Definition to_Q (x : spec_float) : option Q :=
  match x with
  | S754_zero _ => Some 0%Q
  | S754_finite s m e =>
      let v := (inject_Z (Z.pos m) * Qpower 2 e)%Q in
      Some (if s then Qopp v else v)
  | S754_infinity _ | S754_nan => None
  end.

(** Equality of floats as data (signs of zeros included). *)
Definition same (x y : spec_float) : bool :=
  match x, y with
  | S754_zero a, S754_zero b => Bool.eqb a b
  | S754_infinity a, S754_infinity b => Bool.eqb a b
  | S754_nan, S754_nan => true
  | S754_finite s m e, S754_finite s' m' e' =>
      Bool.eqb s s' && Pos.eqb m m' && Z.eqb e e'
  | _, _ => false
  end.

(** The arithmetic mean of the exact values of a list of floats. *)
Fixpoint sum_Q (l : list spec_float) : option Q :=
  match l with
  | [] => Some 0%Q
  | x :: l' =>
      match to_Q x, sum_Q l' with
      | Some q, Some s => Some (q + s)%Q
      | _, _ => None
      end
  end.

Definition mean_Q (l : list spec_float) : option Q :=
  match sum_Q l with
  | Some s => Some (s / inject_Z (Z.of_nat (List.length l)))%Q
  | None => None
  end.
End B64.

Definition binary64 : arith := {|
  num := spec_float;
  of_int := B64.of_int;
  add := SFadd B64.prec B64.emax;
  sub := SFsub B64.prec B64.emax;
  mul := SFmul B64.prec B64.emax;
  div := SFdiv B64.prec B64.emax;
  is_zero := B64.is_zero;
  gtb := B64.gtb;
  to_Q := B64.to_Q;
  is_nan := B64.is_nan
|}.

(** Exact arithmetic on the rationals (in canonical form, so that equal
    numbers are equal terms). *)
Definition exact : arith := {|
  num := Qc;
  of_int := fun z => Q2Qc (inject_Z z);
  add := Qcplus;
  sub := Qcminus;
  mul := Qcmult;
  div := Qcdiv;
  is_zero := fun x => Qc_eq_bool x (Q2Qc 0);
  gtb := fun x y => if Qclt_le_dec y x then true else false;
  to_Q := fun x => Some (this x);
  is_nan := fun _ => false
|}.

(** [round(x)] of Python on the exact value of a float: to the nearest
    integer, ties to the even one. *)
Definition round_half_even (q : Q) : Z :=
  let f := Qfloor q in
  match Qcompare (q - inject_Z f) (1 # 2) with
  | Lt => f
  | Gt => (f + 1)%Z
  | Eq => if Z.even f then f else (f + 1)%Z
  end.

Section Numbers.
Variable A : arith.

(** A Python number: an [int] or a [float]. *)
Inductive pyval : Type :=
| PyInt (z : Z)
| PyFloat (x : num A).

(** Conversion of an operand to [float] in mixed arithmetic. *)
Definition to_float (v : pyval) : num A :=
  match v with
  | PyInt z => of_int A z
  | PyFloat x => x
  end.

Definition py_add (a b : pyval) : pyval :=
  match a, b with
  | PyInt x, PyInt y => PyInt (x + y)
  | _, _ => PyFloat (add A (to_float a) (to_float b))
  end.

Definition py_sub (a b : pyval) : pyval :=
  match a, b with
  | PyInt x, PyInt y => PyInt (x - y)
  | _, _ => PyFloat (sub A (to_float a) (to_float b))
  end.

Definition py_mul (a b : pyval) : pyval :=
  match a, b with
  | PyInt x, PyInt y => PyInt (x * y)
  | _, _ => PyFloat (mul A (to_float a) (to_float b))
  end.

Definition py_is_zero (v : pyval) : bool :=
  match v with
  | PyInt z => Z.eqb z 0
  | PyFloat x => is_zero A x
  end.

(** [a / b]: true division, always a [float]; [ZeroDivisionError] on a zero
    divisor.  Both operands are converted first, which is Python's
    correctly rounded quotient of two ints below [2^53] in magnitude. *)
Definition py_truediv (a b : pyval) : result pyval :=
  if py_is_zero b then Raise ZeroDivisionError
  else Ok (PyFloat (div A (to_float a) (to_float b))).

(** [max(a, b)]: the first argument unless the second is greater. *)
Definition py_max (a b : pyval) : pyval :=
  if gtb A (to_float b) (to_float a) then b else a.

(** [round(v)] with one argument: the nearest integer of a finite number;
    [ValueError] on a NaN and [OverflowError] on an infinity. *)
Definition py_round (v : pyval) : result Z :=
  match v with
  | PyInt z => Ok z
  | PyFloat x =>
      match to_Q A x with
      | Some q => Ok (round_half_even q)
      | None =>
          if is_nan A x
          then Raise (ValueError "cannot convert float NaN to integer")
          else Raise (OverflowError "cannot convert float infinity to integer")
      end
  end.
End Numbers.

Arguments PyInt {A} z.
Arguments PyFloat {A} x.

(** The two exceptions of [round]. *)
Definition round_error (e : exn) : Prop :=
  e = ValueError "cannot convert float NaN to integer"
  \/ e = OverflowError "cannot convert float infinity to integer".

(** ** Traces and the monad of effectful code *)

Inductive level : Type := INFO | ERROR.

(** What the program does to the outside: a [logging] call or an
    [asyncio.sleep]. *)
Inductive event (A : arith) : Type :=
| Log (lvl : level) (msg : string)
| Sleep (duration : pyval A).
Arguments Log {A} lvl msg.
Arguments Sleep {A} duration.

Section Monad.
Variable A : arith.

Definition M (T : Type) : Type := (list (event A) * result T)%type.

Definition ret {T} (v : T) : M T := ([], Ok v).
Definition raise {T} (e : exn) : M T := ([], Raise e).
Definition lift {T} (r : result T) : M T := ([], r).
Definition emit (ev : event A) : M unit := ([ev], Ok tt).

Definition bind {T U} (m : M T) (k : T -> M U) : M U :=
  match m with
  | (tr, Ok v) => let (tr', r) := k v in (tr ++ tr', r)
  | (tr, Raise e) => (tr, Raise e)
  end.

(** [try: body / except ...: handler]; every handler of the program
    dispatches on the exception itself. *)
Definition try_except {T} (body : M T) (handler : exn -> M T) : M T :=
  match body with
  | (tr, Ok v) => (tr, Ok v)
  | (tr, Raise e) => let (tr', r) := handler e in (tr ++ tr', r)
  end.

(** [await asyncio.gather] of the tasks: the results in the order of the
    tasks. *)
Fixpoint gather {T} (tasks : list (M T)) : M (list T) :=
  match tasks with
  | [] => ret []
  | t :: ts => bind t (fun v => bind (gather ts) (fun vs => ret (v :: vs)))
  end.
End Monad.

Arguments ret {A T} v.
Arguments raise {A T} e.
Arguments lift {A T} r.
Arguments emit {A} ev.
Arguments bind {A T U} m k.
Arguments try_except {A T} body handler.
Arguments gather {A T} tasks.

Notation "x <- m ;; k" := (bind m (fun x => k))
  (at level 61, m at next level, right associativity).
Notation "m ;;; k" := (bind m (fun _ => k))
  (at level 61, right associativity).

(** ** Dictionaries

    A Python [dict] keeps its keys in insertion order and the program
    depends on that order ([zip] of keys and results, report lines), so a
    dict is an association list whose keys are pairwise distinct. *)

Definition dict (V : Type) : Type := list (string * V).

Definition keys {V} (d : dict V) : list string := map fst d.
Definition values {V} (d : dict V) : list V := map snd d.

Fixpoint dict_get {V} (d : dict V) (k : string) : option V :=
  match d with
  | [] => None
  | (k', v) :: d' => if String.eqb k' k then Some v else dict_get d' k
  end.

(** [d[k]] as an expression. *)
Definition getitem {V} (d : dict V) (k : string) : result V :=
  match dict_get d k with
  | Some v => Ok v
  | None => Raise (KeyError k)
  end.

(** [d[k] = v]: in place for a key of [d], at the end for a new key. *)
Fixpoint setitem {V} (d : dict V) (k : string) (v : V) : dict V :=
  match d with
  | [] => [(k, v)]
  | (k', v') :: d' =>
      if String.eqb k' k then (k', v) :: d' else (k', v') :: setitem d' k v
  end.

(** [d[k].append(x)] on a [defaultdict(list)]: a missing key is first
    bound to the empty list. *)
Fixpoint dd_append {V} (d : dict (list V)) (k : string) (x : V) : dict (list V) :=
  match d with
  | [] => [(k, [x])]
  | (k', xs) :: d' =>
      if String.eqb k' k then (k', xs ++ [x]) :: d' else (k', xs) :: dd_append d' k x
  end.

Definition enumerate {T} (l : list T) : list (nat * T) :=
  combine (seq 0 (List.length l)) l.

(** ** Data model *)

Record request_parameters_t : Type := {
  url : string;
  method : string;
  headers : option (list (string * string));
  data : option string
}.

Record endpoint : Type := {
  name : string;
  request_parameters : request_parameters_t
}.

Definition monitored : Type := dict (list endpoint).

Record response : Type := { status : Z }.

(** ** Endpoint prober and domain aggregator *)

Definition DOWN_REQUEST_TIMEOUT : Q := 5 # 10.

Section Probing.
Variable A : arith.

(** [check_endpoint_status].  [request] is what
    [session.request] with the endpoint's parameters and the timeout
    [DOWN_REQUEST_TIMEOUT] does for
    this call: it yields a response or raises. *)
Definition check_endpoint_status (request : result response)
    (endpoint : request_parameters_t) : M A bool :=
  try_except
    (response <- lift request ;;
     let response := status response in
     ret ((200 <=? response)%Z && (response <? 300)%Z))
    (fun e =>
       match e with
       | TimeoutError => ret false
       | _ =>
           emit (Log ERROR ("Encountered problem fetching " ++ url endpoint
                            ++ ": " ++ exn_str e)%string) ;;;
           ret false
       end).

(** [sum] of a list of bools: [True] counts 1. *)
Definition sum_bool (l : list bool) : Z :=
  fold_left (fun acc b => (acc + Z.b2z b)%Z) l 0%Z.

(** [get_domain_availability]; [net i] is the outcome of the request to
    the [i]-th endpoint. *)
Definition get_domain_availability (net : nat -> result response)
    (endpoints : list endpoint) : M A (pyval A) :=
  let tasks :=
    map (fun '(i, endpoint) =>
           check_endpoint_status (net i) (request_parameters endpoint))
        (enumerate endpoints) in
  endpoints_status <- gather tasks ;;
  lift (py_truediv (PyInt (sum_bool endpoints_status))
                   (PyInt (Z.of_nat (List.length endpoints_status)))).
End Probing.

(** ** Availability tracker *)

Definition bind_result {T U} (r : result T) (k : T -> result U) : result U :=
  match r with
  | Ok v => k v
  | Raise e => Raise e
  end.

Notation "x <-- r ;; k" := (bind_result r (fun x => k))
  (at level 61, r at next level, right associativity).

Section Tracker.
Variable A : arith.

(** One iteration of the assignment loop of [update_domains_availability]:
    the right-hand side is evaluated (it reads the previous average, a
    [KeyError] for an unknown domain), then stored under [domain]. *)
Definition update_average (monitoring_cycle : Z)
    (domain_availability_averages : dict (pyval A))
    (item : string * pyval A) : result (dict (pyval A)) :=
  let (domain, availability_pct) := item in
  previous <-- getitem domain_availability_averages domain ;;
  average <-- py_truediv
                (py_add (py_mul previous (PyInt (monitoring_cycle - 1)))
                        availability_pct)
                (PyInt monitoring_cycle) ;;
  Ok (setitem domain_availability_averages domain average).

Fixpoint update_averages (monitoring_cycle : Z)
    (domain_availability_averages : dict (pyval A))
    (items : list (string * pyval A)) : result (dict (pyval A)) :=
  match items with
  | [] => Ok domain_availability_averages
  | item :: items' =>
      averages <-- update_average monitoring_cycle domain_availability_averages item ;;
      update_averages monitoring_cycle averages items'
  end.

(** [update_domains_availability]; [net i j] is the outcome of the request
    to the [j]-th endpoint of the [i]-th domain in this cycle.  The dict of
    averages is mutated in place by the program and returned here. *)
Definition update_domains_availability (net : nat -> nat -> result response)
    (domain_availability_averages : dict (pyval A)) (monitoring_cycle : Z)
    (monitored_domains : monitored) : M A (dict (pyval A)) :=
  let tasks :=
    map (fun '(i, endpoints) => get_domain_availability A (net i) endpoints)
        (enumerate (values monitored_domains)) in
  results <- gather tasks ;;
  lift (update_averages monitoring_cycle domain_availability_averages
          (combine (keys monitored_domains) results)).
End Tracker.

(** ** Monitoring scheduler *)

Definition REFRESH_PERIOD : Z := 15.

Definition newline : string := String (ascii_of_nat 10) EmptyString.

Definition string_of_Z (z : Z) : string := NilZero.string_of_int (Z.to_int z).

Section Scheduler.
Variable A : arith.

(** State of the loop of [main]. *)
Record state : Type := {
  domain_availability_averages : dict (pyval A);
  monitoring_cycle : Z
}.

(** What one iteration receives from the outside: the outcomes of its
    requests and the two readings of [time.monotonic()]. *)
Record cycle_input : Type := {
  net : nat -> nat -> result response;
  monotonic_start : num A;
  monotonic_end : num A
}.

(** One line of the report. *)
Definition report_line (item : string * pyval A) : result string :=
  let (domain, availability) := item in
  percentage <-- py_round (py_mul availability (PyInt 100)) ;;
  Ok (domain ++ " has " ++ string_of_Z percentage
      ++ "% availability percentage")%string.

Fixpoint report_lines (items : list (string * pyval A)) : result (list string) :=
  match items with
  | [] => Ok []
  | item :: items' =>
      line <-- report_line item ;;
      lines <-- report_lines items' ;;
      Ok (line :: lines)
  end.

(** The sleep that ends an iteration. *)
Definition sleep_duration (elapsed_time : pyval A) : pyval A :=
  py_max (PyFloat (of_int A 0)) (py_sub (PyInt REFRESH_PERIOD) elapsed_time).

(** The body of [while True] in [main]. *)
Definition cycle (monitored_domains : monitored) (st : state)
    (input : cycle_input) : M A state :=
  let start_time := PyFloat (monotonic_start input) in
  let monitoring_cycle := (monitoring_cycle st + 1)%Z in
  averages <- update_domains_availability (net input)
                (domain_availability_averages st) monitoring_cycle
                monitored_domains ;;
  lines <- lift (report_lines averages) ;;
  emit (Log INFO (String.concat newline lines)) ;;;
  let elapsed_time := py_sub (PyFloat (monotonic_end input)) start_time in
  emit (Sleep (sleep_duration elapsed_time)) ;;;
  ret {| domain_availability_averages := averages;
         monitoring_cycle := monitoring_cycle |}.

(** The first iterations of the loop, one per element of [inputs]. *)
Fixpoint main_loop (monitored_domains : monitored) (st : state)
    (inputs : list cycle_input) : M A state :=
  match inputs with
  | [] => ret st
  | input :: inputs' =>
      st' <- cycle monitored_domains st input ;;
      main_loop monitored_domains st' inputs'
  end.

(** [{domain: 0 for domain in monitored_domains}] and the counter. *)
Definition initial_state (monitored_domains : monitored) : state :=
  {| domain_availability_averages :=
       map (fun domain => (domain, PyInt 0)) (keys monitored_domains);
     monitoring_cycle := 0 |}.
End Scheduler.

Arguments Build_state {A} _ _.
Arguments Build_cycle_input {A} _ _ _.

(** ** Configuration *)

(** One mapping of the list [yaml.safe_load] returns.  A field is [None]
    when the mapping has no such key; other keys are never read. *)
Record entry : Type := {
  entry_url : option string;
  entry_name : option string;
  entry_method : option string;
  entry_headers : option (list (string * string));
  entry_body : option string
}.

(** [entry[key]] for a required key. *)
Definition entry_getitem (field : option string) (key : string) : result string :=
  match field with
  | Some v => Ok v
  | None => Raise (KeyError key)
  end.

(** [entry.get(key, default)]. *)
Definition entry_get {T} (field : option T) (default : T) : T :=
  match field with
  | Some v => v
  | None => default
  end.

Section Config.
(** [yaml.safe_load] and [urlparse(...).netloc] belong to libraries; both
    can raise.  [format_list] is the text an f-string gives for a list of
    strings (the [repr] of the list), library code as well. *)
Variable safe_load : string -> result (list entry).
Variable netloc : string -> result string.
Variable format_list : list string -> string.

(** The body of the loop of [parse_config].  The subscript
    [monitored_domains[domain]] is evaluated before the argument of
    [append], so a missing [name] raises after the [url] was read and
    parsed. *)
Definition parse_entry (monitored_domains : monitored) (e : entry)
    : result monitored :=
  entry_url_value <-- entry_getitem (entry_url e) "url" ;;
  domain <-- netloc entry_url_value ;;
  entry_name_value <-- entry_getitem (entry_name e) "name" ;;
  Ok (dd_append monitored_domains domain
        {| name := entry_name_value;
           request_parameters :=
             {| url := entry_url_value;
                method := entry_get (entry_method e) "GET"%string;
                headers := entry_headers e;
                data := entry_body e |} |}).

Fixpoint parse_entries (monitored_domains : monitored) (file_content : list entry)
    : result monitored :=
  match file_content with
  | [] => Ok monitored_domains
  | e :: file_content' =>
      monitored_domains' <-- parse_entry monitored_domains e ;;
      parse_entries monitored_domains' file_content'
  end.

Definition parse_config (config : string) : result monitored :=
  file_content <-- safe_load config ;;
  parse_entries [] file_content.

(** How a call that may end the process comes back. *)
Inductive outcome (T : Type) : Type :=
| Returns (v : T)
| Exits (code : Z).

(** [load_config]; [read path] is what opening and reading the file
    gives. *)
Definition load_config (A : arith) (read : string -> result string)
    (config_file_path : string) : list (event A) * outcome monitored :=
  match (content <-- read config_file_path ;; parse_config content) with
  | Ok monitored_domains => ([], Returns monitored_domains)
  | Raise e =>
      ([Log ERROR ("Failed to load config: " ++ exn_str e)%string], Exits _ 1%Z)
  end.

(** Where the process stands after the iterations it was given inputs
    for: it has exited, an exception has escaped, or the loop goes on. *)
Inductive process (A : arith) : Type :=
| Exited (code : Z)
| Crashed (e : exn)
| Running (st : state A).

(** [main], with [sys.argv], the file system and the inputs of the first
    iterations. *)
Definition main (A : arith) (argv : list string) (read : string -> result string)
    (inputs : list (cycle_input A)) : list (event A) * process A :=
  if negb (Nat.eqb (List.length argv) 2) then
    ([Log ERROR "Must provide a single argument containing the path to a YAML config file"],
     Exited A 1%Z)
  else
    let config_file_path := nth 1 argv ""%string in
    let tr0 := [Log INFO ("Using config file: " ++ config_file_path)%string] in
    match load_config A read config_file_path with
    | (tr1, Exits _ code) => (tr0 ++ tr1, Exited A code)
    | (tr1, Returns monitored_domains) =>
        let tr2 := [Log INFO ("Monitoring domains: "
                              ++ format_list (keys monitored_domains))%string] in
        match main_loop monitored_domains (initial_state A monitored_domains) inputs with
        | (tr3, Ok st) => (tr0 ++ tr1 ++ tr2 ++ tr3, Running st)
        | (tr3, Raise e) => (tr0 ++ tr1 ++ tr2 ++ tr3, Crashed A e)
        end
    end.
End Config.

Arguments main : clear implicits.
Arguments Returns {T} v.
Arguments Exits {T} code.
Arguments Exited {A} code.
Arguments Crashed {A} e.
Arguments Running {A} st.

(** ** The URL parser of the standard library

    Modelled from the spec: [urllib.parse.urlparse] is library code, which
    the repository does not contain.  The model follows its documented
    behaviour on [scheme://netloc/path?query#fragment]: the scheme ends at
    the first colon, the network location runs from the double slash to
    the first of [/], [?] and [#], and a lone square bracket is an invalid
    IPv6 literal.  Stripping of control characters and the Unicode checks
    are left out. *)
Module Url.

Definition is_alpha (c : ascii) : bool :=
  let n := nat_of_ascii c in
  ((65 <=? n) && (n <=? 90) || (97 <=? n) && (n <=? 122))%nat.

Definition is_scheme_char (c : ascii) : bool :=
  let n := nat_of_ascii c in
  (is_alpha c || (48 <=? n) && (n <=? 57) || (n =? 43) || (n =? 45) || (n =? 46))%nat.

Fixpoint all_chars (p : ascii -> bool) (s : string) : bool :=
  match s with
  | EmptyString => true
  | String c s' => p c && all_chars p s'
  end.

Fixpoint contains (c : ascii) (s : string) : bool :=
  match s with
  | EmptyString => false
  | String c' s' => Ascii.eqb c c' || contains c s'
  end.

(** [s.partition(c)]: the text before the first [c] and the text after it,
    [None] when [c] does not occur. *)
Fixpoint partition (c : ascii) (s : string) : option (string * string) :=
  match s with
  | EmptyString => None
  | String c' s' =>
      if Ascii.eqb c c' then Some (EmptyString, s')
      else match partition c s' with
           | Some (before, after) => Some (String c' before, after)
           | None => None
           end
  end.

Definition strip_scheme (url : string) : string :=
  match partition ":" url with
  | Some (String c scheme, rest) =>
      if is_alpha c && all_chars is_scheme_char scheme then rest else url
  | _ => url
  end.

Fixpoint until_delimiter (s : string) : string :=
  match s with
  | EmptyString => EmptyString
  | String c s' =>
      if (Ascii.eqb c "/" || Ascii.eqb c "?" || Ascii.eqb c "#")%char
      then EmptyString
      else String c (until_delimiter s')
  end.

Definition netloc (url : string) : result string :=
  match strip_scheme url with
  | String "/" (String "/" rest) =>
      let location := until_delimiter rest in
      if xorb (contains "[" location) (contains "]" location)
      then Raise (ValueError "Invalid IPv6 URL")
      else Ok location
  | _ => Ok EmptyString
  end.

End Url.

(** ** The [repr] of a list of strings

    Modelled from the spec, as library code: the [repr] of a [str] of
    ASCII text puts it in single quotes, or in double quotes when it holds
    a single quote and no double one, and escapes the backslash, the quote
    in use, tab, newline, carriage return and the other control
    characters; the [repr] of a list joins those of its items. *)
Module Repr.

Definition hex_digit (n : nat) : ascii :=
  nth n ["0"; "1"; "2"; "3"; "4"; "5"; "6"; "7"; "8"; "9";
         "a"; "b"; "c"; "d"; "e"; "f"]%char "0"%char.

Definition backslash : ascii := ascii_of_nat 92.
Definition double_quote : ascii := ascii_of_nat 34.

Definition escape (quote c : ascii) : string :=
  let n := nat_of_ascii c in
  if Ascii.eqb c quote || Ascii.eqb c backslash
  then String backslash (String c EmptyString)
  else if (n =? 9)%nat then String backslash "t"
  else if (n =? 10)%nat then String backslash "n"
  else if (n =? 13)%nat then String backslash "r"
  else if ((n <? 32) || (n =? 127))%nat
       then String backslash
              (String "x" (String (hex_digit (n / 16))
                             (String (hex_digit (n mod 16)) EmptyString)))
  else String c EmptyString.

Fixpoint escape_all (quote : ascii) (s : string) : string :=
  match s with
  | EmptyString => EmptyString
  | String c s' => (escape quote c ++ escape_all quote s')%string
  end.

Definition str_repr (s : string) : string :=
  let quote :=
    if Url.contains "'" s && negb (Url.contains double_quote s)
    then double_quote else "'"%char in
  String quote (escape_all quote s ++ String quote EmptyString)%string.

Definition list_repr (l : list string) : string :=
  ("[" ++ String.concat ", " (map str_repr l) ++ "]")%string.

End Repr.


(** * Notions the statements use *)

Section Notions.
Variable A : arith.

(** The classification of a response by its status code. *)
Definition status_up (s : Z) : bool := ((200 <=? s) && (s <? 300))%Z.

(** What a probe answers: [true] for Up. *)
Definition probe_up (request : result response) (ep : request_parameters_t) : bool :=
  match snd (check_endpoint_status A request ep) with
  | Ok up => up
  | Raise _ => false
  end.

(** The answers of the probes of a domain, in the order of its endpoints,
    the number of Up answers and what the probes log. *)
Definition probe_results (net : nat -> result response) (endpoints : list endpoint)
    : list bool :=
  map (fun '(i, ep) => probe_up (net i) (request_parameters ep)) (enumerate endpoints).

Definition up_count (net : nat -> result response) (endpoints : list endpoint) : nat :=
  List.length (filter (fun up => up) (probe_results net endpoints)).

Definition probe_trace (net : nat -> result response) (endpoints : list endpoint)
    : list (event A) :=
  List.concat
    (map (fun '(i, ep) => fst (check_endpoint_status A (net i) (request_parameters ep)))
         (enumerate endpoints)).

(** The availability fraction of a cycle: [k / n] in the arithmetic in
    use. *)
Definition fraction (net : nat -> result response) (endpoints : list endpoint) : num A :=
  div A (of_int A (Z.of_nat (up_count net endpoints)))
        (of_int A (Z.of_nat (List.length endpoints))).

End Notions.

Section ConfigNotions.
Variable netloc : string -> result string.

(** A well-formed entry has the two required fields and a URL the parser
    accepts. *)
Definition entry_well_formed (e : entry) : bool :=
  match entry_url e, entry_name e with
  | Some u, Some _ => match netloc u with Ok _ => true | Raise _ => false end
  | _, _ => false
  end.

Definition entry_missing_required (e : entry) : bool :=
  match entry_url e, entry_name e with
  | Some _, Some _ => false
  | _, _ => true
  end.

(** The endpoint [parse_config] builds from a well-formed entry. *)
Definition endpoint_of_entry (e : entry) : endpoint :=
  {| name := entry_get (entry_name e) ""%string;
     request_parameters :=
       {| url := entry_get (entry_url e) ""%string;
          method := entry_get (entry_method e) "GET"%string;
          headers := entry_headers e;
          data := entry_body e |} |}.

(** The grouping key of an endpoint: the network location of its URL. *)
Definition domain_of (ep : endpoint) : string :=
  match netloc (url (request_parameters ep)) with
  | Ok d => d
  | Raise _ => ""%string
  end.

(** The distinct elements of a list in the order of their first
    occurrence. *)
Definition first_seen (ks : list string) : list string :=
  fold_left (fun seen k => if existsb (String.eqb k) seen then seen else seen ++ [k])
            ks [].

(** Grouping in closed form: the domains in first-seen order, each with
    its endpoints in the order of the configuration. *)
Definition group_by_domain (eps : list endpoint) : monitored :=
  map (fun d => (d, filter (fun ep => String.eqb (domain_of ep) d) eps))
      (first_seen (map domain_of eps)).

End ConfigNotions.

(** What [main] requires of the monitored domains to run: distinct keys
    and no empty endpoint list. *)
Definition domains_ok (monitored_domains : monitored) : Prop :=
  NoDup (keys monitored_domains)
  /\ Forall (fun endpoints : list endpoint => endpoints <> []) (values monitored_domains).

Section TrackerNotions.
Variable A : arith.

(** The value the update rule stores in cycle [c] for a domain whose
    previous average is [previous] and whose fraction is
    [availability_pct]. *)
Definition next_average (c : Z) (previous availability_pct : pyval A) : pyval A :=
  PyFloat (div A (to_float (py_add (py_mul previous (PyInt (c - 1))) availability_pct))
                 (of_int A c)).

(** The update rule applied to the domains side by side. *)
Definition zip_update (c : Z) (averages : dict (pyval A)) (results : list (pyval A))
    : dict (pyval A) :=
  map (fun '((domain, previous), availability_pct) =>
         (domain, next_average c previous availability_pct))
      (combine averages results).

(** The fractions of one cycle, one per domain, and what its probes log. *)
Definition cycle_fractions (net : nat -> nat -> result response)
    (monitored_domains : monitored) : list (pyval A) :=
  map (fun '(i, endpoints) => PyFloat (fraction A (net i) endpoints))
      (enumerate (values monitored_domains)).

Definition cycle_probe_trace (net : nat -> nat -> result response)
    (monitored_domains : monitored) : list (event A) :=
  List.concat (map (fun '(i, endpoints) => probe_trace A (net i) endpoints)
                   (enumerate (values monitored_domains))).

(** The update rule of one domain over the fractions of successive cycles,
    [c] cycles being done already. *)
Fixpoint running_average (c : Z) (average : pyval A) (fractions : list (num A))
    : pyval A :=
  match fractions with
  | [] => average
  | f :: fractions' =>
      running_average (c + 1) (next_average (c + 1) average (PyFloat f)) fractions'
  end.

(** The fractions the [i]-th domain is fed over the cycles of [inputs]. *)
Definition fractions_fed (i : nat) (endpoints : list endpoint)
    (inputs : list (cycle_input A)) : list (num A) :=
  map (fun input => fraction A (net input i) endpoints) inputs.

(** The averages after the cycles of [inputs], [c] cycles being done
    already. *)
Fixpoint averages_after (monitored_domains : monitored) (c : Z)
    (averages : dict (pyval A)) (inputs : list (cycle_input A)) : dict (pyval A) :=
  match inputs with
  | [] => averages
  | input :: inputs' =>
      averages_after monitored_domains (c + 1)
        (zip_update (c + 1) averages (cycle_fractions (net input) monitored_domains))
        inputs'
  end.

(** The text of a report line. *)
Definition percentage (average : pyval A) : Z :=
  match py_round (py_mul average (PyInt 100)) with
  | Ok z => z
  | Raise _ => 0%Z
  end.

Definition report_text (item : string * pyval A) : string :=
  (fst item ++ " has " ++ string_of_Z (percentage (snd item))
   ++ "% availability percentage")%string.

End TrackerNotions.

(** The arithmetic mean of rationals. *)
Definition sum_Qc (l : list Qc) : Qc := fold_right Qcplus (Q2Qc 0) l.

Definition mean (l : list Qc) : Qc :=
  Qcdiv (sum_Qc l) (Q2Qc (inject_Z (Z.of_nat (List.length l)))).

(** * Sample configurations and networks *)

Module Sample.

Definition entry_of (u n : string) : entry :=
  {| entry_url := Some u; entry_name := Some n; entry_method := None;
     entry_headers := None; entry_body := None |}.

(** A domain with three endpoints and a domain with five. *)
Definition shop : list entry :=
  [entry_of "https://shop.example.com/" "index";
   entry_of "https://shop.example.com/cart" "cart";
   entry_of "https://shop.example.com/login" "login"]%string.

Definition api : list entry :=
  [entry_of "https://api.example.com/v1/users" "users";
   entry_of "https://api.example.com/v1/orders" "orders";
   entry_of "https://api.example.com/v1/items" "items";
   entry_of "https://api.example.com/v1/search" "search";
   entry_of "https://api.example.com/v1/health" "health"]%string.

Definition shop_domains : monitored :=
  [("shop.example.com"%string, map endpoint_of_entry shop)].

Definition api_domains : monitored :=
  [("api.example.com"%string, map endpoint_of_entry api)].

(** Two entries on one host, one of them with a port. *)
Definition ports : list entry :=
  [entry_of "https://example.com/" "home";
   entry_of "https://example.com:8443/health" "health"]%string.

(** An entry without [name] after a well-formed one. *)
Definition nameless : list entry :=
  [entry_of "https://example.com/" "home";
   {| entry_url := Some "https://example.com/health"%string; entry_name := None;
      entry_method := None; entry_headers := None; entry_body := None |}].

(** A network in which the first [k] endpoints of every domain answer 200
    and the others 503, and a cycle on that network that takes one
    second. *)
Definition first_up (k : nat) : nat -> nat -> result response :=
  fun _ j => if (j <? k)%nat then Ok {| status := 200 |} else Ok {| status := 503 |}.

(** Whether the first update, from the seed [0] of [main], stores the
    fraction [k / n] itself in binary64. *)
Definition first_update_stores_fraction (n k : nat) : bool :=
  let f := div binary64 (of_int binary64 (Z.of_nat k)) (of_int binary64 (Z.of_nat n)) in
  match next_average 1 (@PyInt binary64 0) (PyFloat f) with
  | PyFloat x => B64.same x f
  | PyInt _ => false
  end.

Definition cycle_with (A : arith) (k : nat) : cycle_input A :=
  {| net := first_up k; monotonic_start := of_int A 0; monotonic_end := of_int A 1 |}.

End Sample.

(** * Notions of binary64 *)

(** A previous average that is an [int] or a finite [float]. *)
Definition finite_seed (v : pyval binary64) : bool :=
  match v with
  | PyInt _ => true
  | PyFloat x => B64.is_finite x
  end.

(** The floats [1.0] and [15.0], to which the cycle counter of the first
    update and [REFRESH_PERIOD] are converted. *)
Definition unit_float : spec_float := S754_finite false 4503599627370496 (-52).
Definition period_float : spec_float := B64.of_int REFRESH_PERIOD.

(** The sign of a float that has one. *)
Definition has_sign (s : bool) (x : spec_float) : Prop :=
  match x with
  | S754_zero s' | S754_infinity s' | S754_finite s' _ _ => s' = s
  | S754_nan => True
  end.

(** A register of the right shift that holds a positive mantissa of [d]
    binary digits. *)
Definition positive_with_digits (mrs : shr_record) (d : Z) : Prop :=
  exists p, shr_m mrs = Z.pos p /\ Z.pos (digits2_pos p) = d.

(** The value of a mantissa at an exponent. *)
Definition F2Q (m e : Z) : Q := inject_Z m * 2 ^ e.

(** A register of the right shift, read at exponent [e], is not above [u],
    and is below it when a bit was shifted out. *)
Definition lower (mrs : shr_record) (e : Z) (u : Q) : Prop :=
  (F2Q (shr_m mrs) e <= u)%Q
  /\ (shr_r mrs || shr_s mrs = true -> (F2Q (shr_m mrs) e < u)%Q).

(** A zero or a finite float whose magnitude is not above [R]. *)
Definition at_most (x : spec_float) (R : Q) : Prop :=
  match x with
  | S754_zero _ => True
  | S754_finite _ m e => (F2Q (Z.pos m) e <= R)%Q
  | _ => False
  end.

(** A float in canonical form that is zero or above, and its value. *)
Definition nonneg_float (x : spec_float) (q : Q) : Prop :=
  match x with
  | S754_zero false => (q == 0)%Q
  | S754_finite false m e =>
      bounded B64.prec B64.emax m e = true /\ (q == F2Q (Z.pos m) e)%Q
  | _ => False
  end.

(** A fraction and an average of binary64 in the unit interval; the
    averages [main] starts from are the [int] zero. *)
Definition unit_fraction (r : pyval binary64) : Prop :=
  match r with
  | PyInt _ => False
  | PyFloat f => exists q, nonneg_float f q /\ (q <= 1)%Q
  end.

Definition unit_average (v : pyval binary64) : Prop :=
  match v with
  | PyInt z => z = 0%Z
  | PyFloat x => exists q, nonneg_float x q /\ (q <= 1)%Q
  end.

(** Below this bound binary64 holds every cycle counter and every number
    of endpoints exactly. *)
Definition exact_int_bound : Z := 2 ^ 53.

(** The domains have fewer endpoints than that. *)
Definition sizes_ok (monitored_domains : monitored) : Prop :=
  Forall (fun endpoints : list endpoint =>
            (Z.of_nat (List.length endpoints) < exact_int_bound)%Z)
         (values monitored_domains).

(** * Further notions *)

Section ConfigErrors.
Variable netloc : string -> result string.

(** The exception the body of the loop of [parse_config] raises on an
    entry, if any: the subscript [entry["url"]] comes first, then
    [urlparse], then the subscript [entry["name"]]. *)
Definition entry_error (e : entry) : option exn :=
  match entry_url e with
  | None => Some (KeyError "url")
  | Some u =>
      match netloc u with
      | Raise err => Some err
      | Ok _ =>
          match entry_name e with
          | None => Some (KeyError "name")
          | Some _ => None
          end
      end
  end.

End ConfigErrors.

(** The endpoints of all domains, domain after domain. *)
Definition all_endpoints (monitored_domains : monitored) : list endpoint :=
  List.concat (values monitored_domains).

(** Kinds of events. *)
Definition is_sleep {A : arith} (ev : event A) : bool :=
  match ev with Sleep _ => true | Log _ _ => false end.

Definition is_info {A : arith} (ev : event A) : bool :=
  match ev with Log INFO _ => true | _ => false end.

Definition is_error {A : arith} (ev : event A) : bool :=
  match ev with Log ERROR _ => true | _ => false end.

(** A request that ends in an exception other than a timeout. *)
Definition request_fails (request : result response) : bool :=
  match request with
  | Ok _ => false
  | Raise TimeoutError => false
  | Raise _ => true
  end.

(** The requests of a domain that fail, by position. *)
Definition failed_requests (net : nat -> result response) (endpoints : list endpoint)
    : list (nat * endpoint) :=
  filter (fun '(i, _) => request_fails (net i)) (enumerate endpoints).

(** A request that counts as Up: a response with a status in
    [200, 300). *)
Definition request_up (request : result response) : bool :=
  match request with
  | Ok resp => ((200 <=? status resp) && (status resp <? 300))%Z
  | Raise _ => false
  end.

(** Further sample data: the two sample domains together, a domain
    without endpoints, and a network that differs from [Sample.first_up 2]
    outside the first domain only. *)
Definition both_domains : monitored := Sample.shop_domains ++ Sample.api_domains.

Definition empty_domain : monitored := [("empty.example.com"%string, [])].

Definition other_domains_time_out : nat -> nat -> result response :=
  fun i j => match i with
             | O => Sample.first_up 2 i j
             | S _ => Raise TimeoutError
             end.

(** * Properties *)

(** ** The monad *)

Lemma bind_ok {A T U} (tr : list (event A)) (v : T) (k : T -> M A U) :
  bind (tr, Ok v) k = (tr ++ fst (k v), snd (k v)).
Proof. unfold bind. destruct (k v); reflexivity. Qed.

Lemma bind_raise {A T U} (tr : list (event A)) (e : exn) (k : T -> M A U) :
  bind (tr, Raise e) k = (tr, Raise e).
Proof. reflexivity. Qed.

(** When every task returns, [gather] returns the values in the order of
    the tasks and the trace is the concatenation of theirs. *)
Lemma gather_all_ok {A T} (tasks : list (M A T)) (vs : list T) :
  Forall2 (fun t v => snd t = Ok v) tasks vs ->
  gather tasks = (List.concat (map fst tasks), Ok vs).
Proof.
  induction 1 as [|t v tasks vs Ht _ IH]; [reflexivity|].
  destruct t as [tr r]; simpl in Ht; subst r.
  simpl. rewrite IH. simpl. rewrite app_nil_r. reflexivity.
Qed.

Lemma Forall2_map_same {X Y Z} (f : X -> Y) (g : X -> Z) (P : Y -> Z -> Prop)
    (l : list X) :
  (forall x, In x l -> P (f x) (g x)) -> Forall2 P (map f l) (map g l).
Proof.
  induction l as [|x l IH]; intros H; simpl; constructor.
  - apply H; left; reflexivity.
  - apply IH; intros y Hy; apply H; right; exact Hy.
Qed.

(** ** Endpoint prober *)

Section ProberFacts.
Variable A : arith.

Lemma check_endpoint_status_response (resp : response) (ep : request_parameters_t) :
  check_endpoint_status A (Ok resp) ep = ([], Ok (status_up (status resp))).
Proof. reflexivity. Qed.

Lemma check_endpoint_status_timeout (ep : request_parameters_t) :
  check_endpoint_status A (Raise TimeoutError) ep = ([], Ok false).
Proof. reflexivity. Qed.

Lemma check_endpoint_status_error (e : exn) (ep : request_parameters_t) :
  e <> TimeoutError ->
  check_endpoint_status A (Raise e) ep =
  ([Log ERROR ("Encountered problem fetching " ++ url ep ++ ": " ++ exn_str e)%string],
   Ok false).
Proof. destruct e; intros H; try reflexivity. contradiction H; reflexivity. Qed.

Lemma check_endpoint_status_returns (request : result response)
    (ep : request_parameters_t) :
  snd (check_endpoint_status A request ep) = Ok (probe_up A request ep).
Proof.
  unfold probe_up.
  destruct request as [resp|e]; [reflexivity|].
  destruct e; reflexivity.
Qed.

(** C3: a response classifies Up if and only if its status code [s]
    satisfies [200 <= s < 300]; status 204 is Up, statuses 301, 404 and 500
    are Down. *)
Theorem status_code_classification (ep : request_parameters_t) :
  (forall resp : response,
      exists up, check_endpoint_status A (Ok resp) ep = ([], Ok up)
                 /\ (up = true <-> (200 <= status resp < 300)%Z))
  /\ check_endpoint_status A (Ok {| status := 204 |}) ep = ([], Ok true)
  /\ check_endpoint_status A (Ok {| status := 301 |}) ep = ([], Ok false)
  /\ check_endpoint_status A (Ok {| status := 404 |}) ep = ([], Ok false)
  /\ check_endpoint_status A (Ok {| status := 500 |}) ep = ([], Ok false).
Proof.
  split; [|repeat split].
  intros resp. exists (status_up (status resp)). split.
  - apply check_endpoint_status_response.
  - unfold status_up. rewrite andb_true_iff, Z.leb_le, Z.ltb_lt. reflexivity.
Qed.

(** C4: whatever the request does (a response, a timeout, another
    exception), the probe returns Up or Down and raises nothing; a timeout
    gives Down and logs nothing; any other exception is logged once, as an
    error naming the URL of the endpoint and the text of the exception, and
    gives Down. *)
Theorem probe_never_raises (request : result response) (ep : request_parameters_t) :
  (exists tr up, check_endpoint_status A request ep = (tr, Ok up))
  /\ check_endpoint_status A (Raise TimeoutError) ep = ([], Ok false)
  /\ (forall e, e <> TimeoutError ->
        check_endpoint_status A (Raise e) ep =
        ([Log ERROR ("Encountered problem fetching " ++ url ep ++ ": "
                     ++ exn_str e)%string],
         Ok false)).
Proof.
  split; [|split].
  - exists (fst (check_endpoint_status A request ep)), (probe_up A request ep).
    rewrite <- check_endpoint_status_returns.
    destruct (check_endpoint_status A request ep); reflexivity.
  - apply check_endpoint_status_timeout.
  - intros e He. apply check_endpoint_status_error, He.
Qed.

End ProberFacts.

(** ** Domain aggregator *)

Section AggregatorFacts.
Variable A : arith.

Lemma sum_bool_from (l : list bool) (acc : Z) :
  fold_left (fun a b => (a + Z.b2z b)%Z) l acc
  = (acc + Z.of_nat (List.length (filter (fun up => up) l)))%Z.
Proof.
  revert acc; induction l as [|b l IH]; intros acc; simpl.
  - lia.
  - rewrite IH. destruct b; simpl; lia.
Qed.

Lemma sum_bool_count (l : list bool) :
  sum_bool l = Z.of_nat (List.length (filter (fun up => up) l)).
Proof. unfold sum_bool. rewrite sum_bool_from. lia. Qed.

Lemma enumerate_length {T} (l : list T) : List.length (enumerate l) = List.length l.
Proof. unfold enumerate. rewrite length_combine, length_seq. lia. Qed.

Lemma probe_results_length (net : nat -> result response) (endpoints : list endpoint) :
  List.length (probe_results A net endpoints) = List.length endpoints.
Proof. unfold probe_results. rewrite length_map. apply enumerate_length. Qed.

(** The probes of a domain all return: the gathered statuses are the
    answers of the probes. *)
Lemma gather_probes (net : nat -> result response) (endpoints : list endpoint) :
  gather (map (fun '(i, endpoint) =>
                 check_endpoint_status A (net i) (request_parameters endpoint))
              (enumerate endpoints))
  = (probe_trace A net endpoints, Ok (probe_results A net endpoints)).
Proof.
  unfold probe_trace, probe_results.
  rewrite (gather_all_ok (vs := map (fun '(i, ep) =>
             probe_up A (net i) (request_parameters ep)) (enumerate endpoints))).
  - rewrite map_map. f_equal. f_equal. apply map_ext. intros [i ep]; reflexivity.
  - apply Forall2_map_same. intros [i ep] _. apply check_endpoint_status_returns.
Qed.

(** [get_domain_availability] in closed form: the division of the number
    of Up answers by the number of endpoints. *)
Lemma get_domain_availability_eq (net : nat -> result response)
    (endpoints : list endpoint) :
  get_domain_availability A net endpoints
  = (probe_trace A net endpoints,
     py_truediv (PyInt (Z.of_nat (up_count A net endpoints)))
                (PyInt (Z.of_nat (List.length endpoints)))).
Proof.
  unfold get_domain_availability. rewrite gather_probes, bind_ok. simpl.
  rewrite app_nil_r, sum_bool_count, probe_results_length. reflexivity.
Qed.

Lemma get_domain_availability_nonempty (net : nat -> result response)
    (endpoints : list endpoint) :
  endpoints <> [] ->
  get_domain_availability A net endpoints
  = (probe_trace A net endpoints, Ok (PyFloat (fraction A net endpoints))).
Proof.
  intros Hne. rewrite get_domain_availability_eq. f_equal.
  unfold py_truediv. simpl.
  destruct endpoints as [|ep eps]; [contradiction Hne; reflexivity|].
  reflexivity.
Qed.

Lemma get_domain_availability_empty (net : nat -> result response) :
  get_domain_availability A net [] = ([], Raise ZeroDivisionError).
Proof. reflexivity. Qed.

End AggregatorFacts.

Lemma exact_of_nat_ratio (k n : nat) :
  n <> 0%nat ->
  (this (div exact (of_int exact (Z.of_nat k)) (of_int exact (Z.of_nat n)))
   == Z.of_nat k # Pos.of_nat n)%Q.
Proof.
  intros Hn.
  change (this (Qcdiv (Q2Qc (inject_Z (Z.of_nat k))) (Q2Qc (inject_Z (Z.of_nat n))))
          == Z.of_nat k # Pos.of_nat n)%Q.
  unfold Qcdiv, Qcmult, Qcinv. cbn [this Q2Qc].
  repeat setoid_rewrite Qred_correct.
  destruct n as [|n]; [contradiction Hn; reflexivity|].
  rewrite <- Pos.of_nat_succ.
  unfold Qeq, Qmult, Qinv, inject_Z. cbn. lia.
Qed.

(** C2: a domain with [n >= 1] endpoints of which [k] answer Up has
    availability [k / n]: the computation returns the quotient of the two
    counts in the arithmetic in use, and in exact arithmetic that value is
    the rational number [k / n]. *)
Theorem domain_availability_is_up_ratio (A : arith) (net : nat -> result response)
    (endpoints : list endpoint) :
  endpoints <> [] ->
  let n := List.length endpoints in
  let k := up_count A net endpoints in
  snd (get_domain_availability A net endpoints)
  = Ok (PyFloat (div A (of_int A (Z.of_nat k)) (of_int A (Z.of_nat n))))
  /\ (k <= n)%nat
  /\ exists q : Qc,
       snd (get_domain_availability exact net endpoints) = Ok (@PyFloat exact q)
       /\ (this q == Z.of_nat (up_count exact net endpoints) # Pos.of_nat n)%Q.
Proof.
  intros Hne n k. split; [|split].
  - rewrite get_domain_availability_nonempty by exact Hne. reflexivity.
  - unfold k, n, up_count. rewrite <- (probe_results_length A net endpoints).
    apply filter_length_le.
  - exists (fraction exact net endpoints). split.
    + rewrite get_domain_availability_nonempty by exact Hne. reflexivity.
    + apply exact_of_nat_ratio. unfold n.
      destruct endpoints; [contradiction Hne; reflexivity|discriminate].
Qed.

(** ** Configuration *)

(** *** First-seen order *)

Lemma first_seen_snoc (ks : list string) (k : string) :
  first_seen (ks ++ [k])
  = if existsb (String.eqb k) (first_seen ks) then first_seen ks
    else first_seen ks ++ [k].
Proof. unfold first_seen. rewrite fold_left_app. reflexivity. Qed.

Lemma existsb_eqb_In (k : string) (l : list string) :
  existsb (String.eqb k) l = true <-> In k l.
Proof.
  rewrite existsb_exists. split.
  - intros [x [Hx He]]. apply String.eqb_eq in He. subst; exact Hx.
  - intros H. exists k. split; [exact H|apply String.eqb_refl].
Qed.

Lemma first_seen_In (ks : list string) (k : string) :
  In k (first_seen ks) <-> In k ks.
Proof.
  induction ks as [|k' ks IH] using rev_ind; [reflexivity|].
  rewrite first_seen_snoc, in_app_iff.
  destruct (existsb (String.eqb k') (first_seen ks)) eqn:E.
  - apply existsb_eqb_In in E. rewrite IH in *. simpl.
    intuition (subst; auto).
  - rewrite in_app_iff, IH. reflexivity.
Qed.

Lemma first_seen_NoDup (ks : list string) : NoDup (first_seen ks).
Proof.
  induction ks as [|k ks IH] using rev_ind; [constructor|].
  rewrite first_seen_snoc.
  destruct (existsb (String.eqb k) (first_seen ks)) eqn:E; [exact IH|].
  apply NoDup_app; [exact IH|repeat constructor; intros []|].
  intros x Hx [Hk|[]]; subst.
  apply existsb_eqb_In in Hx. congruence.
Qed.

Section ConfigFacts.
Variable netloc : string -> result string.

Lemma parse_entries_app (md : monitored) (es1 es2 : list entry) :
  parse_entries netloc md (es1 ++ es2)
  = (md' <-- parse_entries netloc md es1 ;; parse_entries netloc md' es2).
Proof.
  revert md; induction es1 as [|e es1 IH]; intros md; simpl; [reflexivity|].
  destruct (parse_entry netloc md e) as [md'|err]; simpl; [apply IH|reflexivity].
Qed.

Lemma parse_entry_well_formed (md : monitored) (e : entry) :
  entry_well_formed netloc e = true ->
  parse_entry netloc md e
  = Ok (dd_append md (domain_of netloc (endpoint_of_entry e)) (endpoint_of_entry e)).
Proof.
  unfold entry_well_formed, parse_entry, domain_of, endpoint_of_entry.
  destruct e as [[u|] [n|] m h b]; simpl; try discriminate.
  destruct (netloc u) as [d|err]; simpl; [reflexivity|discriminate].
Qed.

Lemma parse_entry_missing (md : monitored) (e : entry) :
  entry_missing_required e = true ->
  exists err, parse_entry netloc md e = Raise err.
Proof.
  unfold entry_missing_required, parse_entry.
  destruct e as [[u|] [n|] m h b]; simpl; try discriminate; intros _.
  - destruct (netloc u) as [d|err]; simpl; eauto.
  - eauto.
  - eauto.
Qed.

(** An entry without [url] or [name] makes [parse_config] raise, whatever
    the other entries are. *)
Lemma parse_entries_missing (md : monitored) (es : list entry) :
  existsb entry_missing_required es = true ->
  exists err, parse_entries netloc md es = Raise err.
Proof.
  revert md; induction es as [|e es IH]; intros md H; simpl in *; [discriminate|].
  destruct (parse_entry netloc md e) as [md'|err] eqn:He; simpl; [|eauto].
  apply orb_true_iff in H. destruct H as [H|H]; [|apply IH, H].
  destruct (parse_entry_missing md e H) as [err Herr]. congruence.
Qed.

(** *** Grouping *)

Lemma dd_append_map {V} (g g' : string -> list V) (K : list string)
    (k' : string) (x : V) :
  NoDup K ->
  (forall k, In k K -> k <> k' -> g' k = g k) ->
  g' k' = g k' ++ [x] ->
  (~ In k' K -> g k' = []) ->
  dd_append (map (fun k => (k, g k)) K) k' x
  = map (fun k => (k, g' k)) (if existsb (String.eqb k') K then K else K ++ [k']).
Proof.
  intros Hnd Hother Hkey Hnew.
  induction K as [|k0 K IH]; simpl.
  - rewrite Hkey, Hnew by (intros []). reflexivity.
  - inversion Hnd as [|? ? Hk0 HndK]; subst.
    rewrite (String.eqb_sym k' k0).
    destruct (String.eqb k0 k') eqn:E; simpl.
    + apply String.eqb_eq in E; subst k0.
      rewrite Hkey. f_equal.
      apply map_ext_in. intros k Hk. f_equal. symmetry. apply Hother.
      * right; exact Hk.
      * intros ->. contradiction.
    + apply String.eqb_neq in E.
      rewrite IH.
      * destruct (existsb (String.eqb k') K); simpl;
          rewrite (Hother k0) by (auto; left; reflexivity); reflexivity.
      * exact HndK.
      * intros k Hk. apply Hother. right; exact Hk.
      * intros Hn. apply Hnew. intros [H|H]; [congruence|contradiction].
Qed.

Lemma filter_none {T} (p : T -> bool) (l : list T) :
  (forall x, In x l -> p x = false) -> filter p l = [].
Proof.
  induction l as [|x l IH]; intros H; simpl; [reflexivity|].
  rewrite (H x) by (left; reflexivity). apply IH. intros y Hy. apply H. right; exact Hy.
Qed.

Lemma filter_cons_true {T} (p : T -> bool) (x : T) (l : list T) :
  p x = true -> filter p (x :: l) = x :: filter p l.
Proof. intros H. simpl. rewrite H. reflexivity. Qed.

(** Appending an endpoint under its domain keeps the grouped form. *)
Lemma dd_append_grouped (eps : list endpoint) (ep : endpoint) :
  dd_append (group_by_domain netloc eps) (domain_of netloc ep) ep
  = group_by_domain netloc (eps ++ [ep]).
Proof.
  unfold group_by_domain. rewrite map_app. simpl map at 3.
  rewrite first_seen_snoc.
  apply (dd_append_map
           (fun d => filter (fun ep0 => String.eqb (domain_of netloc ep0) d) eps)
           (fun d => filter (fun ep0 => String.eqb (domain_of netloc ep0) d) (eps ++ [ep]))).
  - apply first_seen_NoDup.
  - intros k _ Hk. rewrite filter_app. simpl.
    destruct (String.eqb (domain_of netloc ep) k) eqn:E.
    + apply String.eqb_eq in E. congruence.
    + apply app_nil_r.
  - rewrite filter_app. simpl. rewrite String.eqb_refl. reflexivity.
  - intros Hn. apply filter_none. intros x Hx.
    apply String.eqb_neq. intros E. apply Hn.
    apply first_seen_In. rewrite <- E. apply in_map, Hx.
Qed.

(** [parse_config] on well-formed entries computes the grouping. *)
Lemma parse_entries_grouped (es : list entry) :
  forallb (entry_well_formed netloc) es = true ->
  parse_entries netloc [] es
  = Ok (group_by_domain netloc (map (endpoint_of_entry) es)).
Proof.
  induction es as [|e es IH] using rev_ind; intros Hwf; [reflexivity|].
  rewrite forallb_app in Hwf. apply andb_true_iff in Hwf. destruct Hwf as [Hes He].
  simpl in He. rewrite andb_true_r in He.
  rewrite parse_entries_app, IH by exact Hes. simpl.
  rewrite parse_entry_well_formed by exact He. simpl.
  rewrite dd_append_grouped, map_app. reflexivity.
Qed.

Lemma group_by_domain_keys (eps : list endpoint) :
  keys (group_by_domain netloc eps) = first_seen (map (domain_of netloc) eps).
Proof.
  unfold keys, group_by_domain. rewrite map_map. simpl. apply map_id.
Qed.

(** Every domain of a grouping has at least one endpoint. *)
Lemma group_by_domain_ok (eps : list endpoint) :
  domains_ok (group_by_domain netloc eps).
Proof.
  split.
  - rewrite group_by_domain_keys. apply first_seen_NoDup.
  - unfold values, group_by_domain. rewrite map_map. simpl.
    apply Forall_forall. intros l Hl. apply in_map_iff in Hl.
    destruct Hl as [d [<- Hd]].
    apply first_seen_In, in_map_iff in Hd. destruct Hd as [ep [Hep Hin]].
    intros Hnil.
    assert (Hf : In ep (filter (fun ep0 => String.eqb (domain_of netloc ep0) d) eps)).
    { apply filter_In. split; [exact Hin|]. rewrite Hep. apply String.eqb_refl. }
    rewrite Hnil in Hf. exact Hf.
Qed.

Lemma parse_entry_returns_well_formed (md md' : monitored) (e : entry) :
  parse_entry netloc md e = Ok md' -> entry_well_formed netloc e = true.
Proof.
  unfold entry_well_formed, parse_entry.
  destruct e as [[u|] [n|] m h b]; simpl; try discriminate.
  - destruct (netloc u); simpl; [reflexivity|discriminate].
  - destruct (netloc u); simpl; discriminate.
Qed.

Lemma parse_entries_returns_well_formed (md md' : monitored) (es : list entry) :
  parse_entries netloc md es = Ok md' -> forallb (entry_well_formed netloc) es = true.
Proof.
  revert md; induction es as [|e es IH]; intros md H; simpl in *; [reflexivity|].
  destruct (parse_entry netloc md e) as [md1|err] eqn:He; simpl in H; [|discriminate].
  rewrite (parse_entry_returns_well_formed _ _ He). apply (IH md1 H).
Qed.

(** Whatever [parse_config] returns can be monitored. *)
Lemma parse_entries_domains_ok (md : monitored) (es : list entry) :
  parse_entries netloc [] es = Ok md -> domains_ok md.
Proof.
  intros H. pose proof (parse_entries_returns_well_formed _ _ H) as Hwf.
  rewrite parse_entries_grouped in H by exact Hwf.
  injection H as <-. apply group_by_domain_ok.
Qed.

Lemma dict_get_map {V} (g : string -> V) (K : list string) (k : string) :
  In k K -> dict_get (map (fun k0 => (k0, g k0)) K) k = Some (g k).
Proof.
  induction K as [|k0 K IH]; intros H; simpl; [contradiction|].
  destruct (String.eqb k0 k) eqn:E.
  - apply String.eqb_eq in E; subst; reflexivity.
  - apply IH. destruct H as [H|H]; [|exact H].
    apply String.eqb_neq in E; congruence.
Qed.

End ConfigFacts.

(** X16: [parse_config] files every entry under the string that
    [urlparse(url).netloc] returns for its URL.  For a well-formed
    configuration it returns one key per distinct such string, in
    first-seen order; the endpoint list of a key holds exactly the
    endpoints whose URL gives that string, in the order of the
    configuration; so two entries that give the same string land under one
    key, in their original order. *)
Theorem parse_config_groups_by_netloc
    (safe_load : string -> result (list entry)) (netloc : string -> result string)
    (config : string) (entries : list entry) :
  safe_load config = Ok entries ->
  forallb (entry_well_formed netloc) entries = true ->
  let eps := map endpoint_of_entry entries in
  let md := group_by_domain netloc eps in
  parse_config safe_load netloc config = Ok md
  /\ NoDup (keys md)
  /\ keys md = first_seen (map (domain_of netloc) eps)
  /\ (forall d, In d (keys md) ->
        dict_get md d
        = Some (filter (fun ep => String.eqb (domain_of netloc ep) d) eps))
  /\ (forall l1 e1 l2 e2 l3,
        entries = l1 ++ e1 :: l2 ++ e2 :: l3 ->
        domain_of netloc (endpoint_of_entry e1) = domain_of netloc (endpoint_of_entry e2) ->
        exists a b c,
          dict_get md (domain_of netloc (endpoint_of_entry e1))
          = Some (a ++ endpoint_of_entry e1 :: b ++ endpoint_of_entry e2 :: c)).
Proof.
  intros Hload Hwf eps md.
  assert (Hkeys : keys md = first_seen (map (domain_of netloc) eps))
    by apply group_by_domain_keys.
  assert (Hget : forall d, In d (keys md) ->
            dict_get md d
            = Some (filter (fun ep => String.eqb (domain_of netloc ep) d) eps)).
  { intros d Hd. rewrite Hkeys in Hd. unfold md, group_by_domain.
    apply (dict_get_map
             (fun d0 => filter (fun ep => String.eqb (domain_of netloc ep) d0) eps)).
    exact Hd. }
  split; [|split; [|split; [|split]]].
  - unfold parse_config. rewrite Hload. simpl. apply parse_entries_grouped, Hwf.
  - rewrite Hkeys. apply first_seen_NoDup.
  - exact Hkeys.
  - exact Hget.
  - intros l1 e1 l2 e2 l3 Hsplit Hsame.
    set (d := domain_of netloc (endpoint_of_entry e1)) in *.
    set (p := fun ep => String.eqb (domain_of netloc ep) d).
    exists (filter p (map endpoint_of_entry l1)),
           (filter p (map endpoint_of_entry l2)),
           (filter p (map endpoint_of_entry l3)).
    rewrite Hget.
    + f_equal. unfold eps. rewrite Hsplit.
      assert (H1 : p (endpoint_of_entry e1) = true) by apply String.eqb_refl.
      assert (H2 : p (endpoint_of_entry e2) = true)
        by (unfold p; rewrite <- Hsame; apply String.eqb_refl).
      rewrite map_app, filter_app, map_cons, (filter_cons_true p _ _ H1).
      rewrite map_app, filter_app, map_cons, (filter_cons_true p _ _ H2).
      reflexivity.
    + rewrite Hkeys. apply first_seen_In. unfold eps. rewrite Hsplit.
      rewrite map_app, map_app. apply in_or_app. right. left. reflexivity.
Qed.

(** C8: when an entry of the configuration lacks [url] or [name],
    [load_config] logs an error and exits with status 1, and [main] ends
    there: its trace holds no report and no sleep, whatever the inputs of
    the loop would have been. *)
Theorem missing_required_field_exits (A : arith)
    (safe_load : string -> result (list entry)) (netloc : string -> result string)
    (format_list : list string -> string)
    (read : string -> result string) (prog path config : string)
    (entries : list entry) (inputs : list (cycle_input A)) :
  read path = Ok config ->
  safe_load config = Ok entries ->
  existsb entry_missing_required entries = true ->
  exists err,
    load_config safe_load netloc A read path
    = ([Log ERROR ("Failed to load config: " ++ exn_str err)%string], Exits 1%Z)
    /\ main safe_load netloc format_list A [prog; path] read inputs
       = ([Log INFO ("Using config file: " ++ path)%string;
           Log ERROR ("Failed to load config: " ++ exn_str err)%string],
          Exited 1%Z).
Proof.
  intros Hread Hload Hmiss.
  destruct (parse_entries_missing netloc [] entries Hmiss) as [err Herr].
  exists err.
  assert (H : load_config safe_load netloc A read path
              = ([Log ERROR ("Failed to load config: " ++ exn_str err)%string],
                 Exits 1%Z)).
  { unfold load_config, parse_config. rewrite Hread. simpl.
    rewrite Hload. simpl. rewrite Herr. reflexivity. }
  split; [exact H|].
  unfold main. simpl. rewrite H. reflexivity.
Qed.

(** C9: with a non-empty endpoint list the division of
    [get_domain_availability] has a non-zero divisor and the call returns
    a fraction; nothing in the code guards the division, so on an empty
    list the call raises [ZeroDivisionError]; and every endpoint list
    [parse_config] produces is non-empty. *)
Theorem division_safe_iff_nonempty (A : arith) (net : nat -> result response)
    (endpoints : list endpoint) :
  (endpoints <> [] ->
   exists x, snd (get_domain_availability A net endpoints) = Ok (PyFloat x))
  /\ (endpoints = [] ->
      snd (get_domain_availability A net endpoints) = Raise ZeroDivisionError)
  /\ (forall netloc entries md d,
        parse_entries netloc [] entries = Ok md ->
        dict_get md d = Some endpoints ->
        snd (get_domain_availability A net endpoints) <> Raise ZeroDivisionError).
Proof.
  assert (Hsafe : endpoints <> [] ->
            exists x, snd (get_domain_availability A net endpoints) = Ok (PyFloat x)).
  { intros Hne. exists (fraction A net endpoints).
    rewrite get_domain_availability_nonempty by exact Hne. reflexivity. }
  split; [exact Hsafe|split].
  - intros ->. reflexivity.
  - intros netloc entries md d Hparse Hget.
    destruct Hsafe as [x Hx]; [|rewrite Hx; discriminate].
    destruct (parse_entries_domains_ok netloc _ Hparse) as [_ Hall].
    rewrite Forall_forall in Hall. apply Hall.
    clear - Hget. unfold values.
    induction md as [|[k v] md IH]; simpl in *; [discriminate|].
    destruct (String.eqb k d); [left; congruence|right; apply IH, Hget].
Qed.

(** ** Dictionaries *)

Lemma getitem_app_here {V} (pre post : dict V) (k : string) (v : V) :
  ~ In k (keys pre) -> getitem (pre ++ (k, v) :: post) k = Ok v.
Proof.
  unfold getitem. induction pre as [|[k0 v0] pre IH]; intros Hk; simpl.
  - rewrite String.eqb_refl. reflexivity.
  - destruct (String.eqb k0 k) eqn:E.
    + apply String.eqb_eq in E. contradiction Hk. left; exact E.
    + apply IH. intros H. apply Hk. right; exact H.
Qed.

Lemma setitem_app_here {V} (pre post : dict V) (k : string) (v v' : V) :
  ~ In k (keys pre) ->
  setitem (pre ++ (k, v) :: post) k v' = pre ++ (k, v') :: post.
Proof.
  induction pre as [|[k0 v0] pre IH]; intros Hk; simpl.
  - rewrite String.eqb_refl. reflexivity.
  - destruct (String.eqb k0 k) eqn:E.
    + apply String.eqb_eq in E. contradiction Hk. left; exact E.
    + f_equal. apply IH. intros H. apply Hk. right; exact H.
Qed.

Lemma getitem_ok_In {V} (d : dict V) (k : string) (v : V) :
  getitem d k = Ok v -> In k (keys d).
Proof.
  unfold getitem. induction d as [|[k0 v0] d IH]; simpl; [discriminate|].
  destruct (String.eqb k0 k) eqn:E.
  - apply String.eqb_eq in E. intros _. left; exact E.
  - intros H. right. apply IH, H.
Qed.

(** Assigning to a key of the dict keeps the keys and their order. *)
Lemma keys_setitem_present {V} (d : dict V) (k : string) (v : V) :
  In k (keys d) -> keys (setitem d k v) = keys d.
Proof.
  induction d as [|[k0 v0] d IH]; simpl; [intros []|].
  destruct (String.eqb k0 k) eqn:E; simpl; [reflexivity|].
  intros [H|H]; [apply String.eqb_neq in E; contradiction|].
  f_equal. apply IH, H.
Qed.

Lemma dict_get_setitem_other {V} (d : dict V) (k k' : string) (v : V) :
  k' <> k -> dict_get (setitem d k v) k' = dict_get d k'.
Proof.
  intros Hne. induction d as [|[k0 v0] d IH]; simpl.
  - destruct (String.eqb k k') eqn:E; [|reflexivity].
    apply String.eqb_eq in E. congruence.
  - destruct (String.eqb k0 k) eqn:E; simpl.
    + apply String.eqb_eq in E. subst k0.
      destruct (String.eqb k k') eqn:E'; [|reflexivity].
      apply String.eqb_eq in E'. congruence.
    + rewrite IH. reflexivity.
Qed.

Lemma dict_get_nth {V} (d : dict V) (i : nat) (k : string) (v : V) :
  NoDup (keys d) -> nth_error d i = Some (k, v) -> dict_get d k = Some v.
Proof.
  revert i; induction d as [|[k0 v0] d IH]; intros i Hnd Hi.
  - destruct i; discriminate.
  - simpl in Hnd. inversion Hnd as [|? ? Hk0 Hnd']; subst.
    destruct i as [|i]; simpl in *.
    + injection Hi as -> ->. rewrite String.eqb_refl. reflexivity.
    + destruct (String.eqb k0 k) eqn:E.
      * apply String.eqb_eq in E. subst k0. exfalso. apply Hk0.
        apply nth_error_In in Hi. apply (in_map fst) in Hi. exact Hi.
      * apply (IH i Hnd' Hi).
Qed.

Lemma dict_get_setitem_same {V} (d : dict V) (k : string) (v : V) :
  dict_get (setitem d k v) k = Some v.
Proof.
  induction d as [|[k0 v0] d IH]; simpl.
  - rewrite String.eqb_refl. reflexivity.
  - destruct (String.eqb k0 k) eqn:E; simpl; rewrite E; [reflexivity|exact IH].
Qed.

Lemma fst_combine_keys {V W} (d : dict V) (l : list W) :
  List.length l = List.length d -> map fst (combine (keys d) l) = keys d.
Proof.
  revert l; induction d as [|[k v] d IH]; intros l H; [reflexivity|].
  destruct l as [|w l]; [discriminate|]. simpl. f_equal. apply IH.
  simpl in H. lia.
Qed.

Lemma nth_error_combine_both {X Y} (l : list X) (l' : list Y) (i : nat) (x : X) (y : Y) :
  nth_error l i = Some x -> nth_error l' i = Some y ->
  nth_error (combine l l') i = Some (x, y).
Proof.
  revert l' i; induction l as [|a l IH]; intros l' i Hx Hy.
  - destruct i; discriminate.
  - destruct l' as [|b l']; [destruct i; discriminate|].
    destruct i as [|i]; simpl in *.
    + injection Hx as ->. injection Hy as ->. reflexivity.
    + apply (IH l' i Hx Hy).
Qed.

(** ** Availability tracker *)

Section TrackerFacts.
Variable A : arith.

Lemma update_average_here (c : Z) (pre post : dict (pyval A)) (k : string)
    (v r : pyval A) :
  c <> 0%Z -> ~ In k (keys pre) ->
  update_average c (pre ++ (k, v) :: post) (k, r)
  = Ok (pre ++ (k, next_average c v r) :: post).
Proof.
  intros Hc Hk. unfold update_average.
  rewrite getitem_app_here by exact Hk. simpl.
  unfold py_truediv. simpl.
  destruct (Z.eqb_spec c 0) as [E|_]; [contradiction|]. simpl.
  rewrite setitem_app_here by exact Hk. reflexivity.
Qed.

(** With distinct keys the sequential assignments of a cycle amount to
    updating all domains side by side. *)
Lemma update_averages_zip (c : Z) (pre post : dict (pyval A)) (rs : list (pyval A)) :
  c <> 0%Z -> NoDup (keys (pre ++ post)) -> List.length rs = List.length post ->
  update_averages c (pre ++ post) (combine (keys post) rs)
  = Ok (pre ++ zip_update c post rs).
Proof.
  intros Hc. revert pre rs.
  induction post as [|[k v] post IH]; intros pre rs Hnd Hlen.
  - simpl. reflexivity.
  - destruct rs as [|r rs]; [discriminate|].
    change (combine (keys ((k, v) :: post)) (r :: rs))
      with ((k, r) :: combine (keys post) rs).
    cbn [update_averages].
    assert (Hk : ~ In k (keys pre)).
    { unfold keys in Hnd. rewrite map_app in Hnd. simpl in Hnd.
      apply NoDup_remove_2 in Hnd. intros H. apply Hnd, in_or_app. left; exact H. }
    rewrite update_average_here by assumption. cbn [bind_result].
    replace (pre ++ (k, next_average c v r) :: post)
      with ((pre ++ [(k, next_average c v r)]) ++ post)
      by (rewrite <- app_assoc; reflexivity).
    rewrite IH.
    + rewrite <- app_assoc. reflexivity.
    + unfold keys in *. rewrite !map_app in *. simpl in *.
      rewrite <- app_assoc. exact Hnd.
    + simpl in Hlen. lia.
Qed.

(** The assignment loop never adds or removes a key. *)
Lemma update_averages_keys (c : Z) (items : list (string * pyval A))
    (averages averages' : dict (pyval A)) :
  update_averages c averages items = Ok averages' -> keys averages' = keys averages.
Proof.
  revert averages; induction items as [|[k r] items IH]; intros averages H; simpl in H.
  - injection H as <-. reflexivity.
  - destruct (getitem averages k) as [v|e] eqn:Hget; simpl in H; [|discriminate].
    destruct (py_truediv (py_add (py_mul v (PyInt (c - 1))) r) (PyInt c))
      as [v'|e]; simpl in H; [|discriminate].
    rewrite (IH _ H). apply keys_setitem_present. apply (getitem_ok_In _ _ Hget).
Qed.

(** It leaves the other domains as they are. *)
Lemma update_averages_other (c : Z) (items : list (string * pyval A))
    (averages averages' : dict (pyval A)) (k : string) :
  update_averages c averages items = Ok averages' ->
  ~ In k (map fst items) ->
  dict_get averages' k = dict_get averages k.
Proof.
  revert averages; induction items as [|[k0 r] items IH]; intros averages H Hk; simpl in H.
  - injection H as <-. reflexivity.
  - destruct (getitem averages k0) as [v|e] eqn:Hget; simpl in H; [|discriminate].
    destruct (py_truediv (py_add (py_mul v (PyInt (c - 1))) r) (PyInt c))
      as [v'|e]; simpl in H; [|discriminate].
    rewrite (IH _ H) by (intros Hin; apply Hk; right; exact Hin).
    apply dict_get_setitem_other. intros ->. apply Hk. left; reflexivity.
Qed.

(** Every item of the assignment loop is assigned the value of the update
    rule, computed from the average its key held before the loop. *)
Lemma update_averages_assigns (c : Z) (items : list (string * pyval A))
    (averages averages' : dict (pyval A)) :
  update_averages c averages items = Ok averages' ->
  NoDup (map fst items) ->
  forall k r, In (k, r) items ->
  exists v, dict_get averages k = Some v
            /\ dict_get averages' k = Some (next_average c v r).
Proof.
  revert averages; induction items as [|[k0 r0] items IH];
    intros averages H Hnd k r Hin; [contradiction|].
  simpl in H.
  destruct (getitem averages k0) as [v0|e] eqn:Hget; simpl in H; [|discriminate].
  unfold py_truediv in H.
  destruct (py_is_zero (PyInt c)); simpl in H; [discriminate|].
  inversion Hnd as [|? ? Hk0 Hnd']; subst.
  destruct Hin as [Heq|Hin].
  - injection Heq as <- <-. exists v0. split.
    + unfold getitem in Hget.
      destruct (dict_get averages k0); [injection Hget as ->; reflexivity|discriminate].
    + assert (Hother := H).
      apply update_averages_other with (k := k0) in Hother; [|exact Hk0].
      rewrite Hother. apply dict_get_setitem_same.
  - destruct (IH _ H Hnd' k r Hin) as [v [Hv Hv']]. exists v. split; [|exact Hv'].
    rewrite dict_get_setitem_other in Hv; [exact Hv|].
    intros ->. apply Hk0. apply (in_map fst) in Hin. exact Hin.
Qed.

End TrackerFacts.

(** ** One cycle *)

Section CycleFacts.
Variable A : arith.

Lemma enumerate_nth_from {T} (l : list T) (s i : nat) (x : T) :
  nth_error l i = Some x ->
  nth_error (combine (seq s (List.length l)) l) i = Some ((s + i)%nat, x).
Proof.
  revert s i; induction l as [|y l IH]; intros s i H.
  - destruct i; discriminate.
  - destruct i as [|i]; simpl in *.
    + injection H as ->. rewrite Nat.add_0_r. reflexivity.
    + rewrite (IH (S s) i H). f_equal. f_equal. lia.
Qed.

Lemma enumerate_nth {T} (l : list T) (i : nat) (x : T) :
  nth_error l i = Some x -> nth_error (enumerate l) i = Some (i, x).
Proof. intros H. apply (enumerate_nth_from l 0 i H). Qed.

Lemma enumerate_In {T} (l : list T) (i : nat) (x : T) :
  In (i, x) (enumerate l) -> In x l.
Proof. unfold enumerate. apply in_combine_r. Qed.

Lemma cycle_fractions_length (net : nat -> nat -> result response) (md : monitored) :
  List.length (cycle_fractions A net md) = List.length md.
Proof.
  unfold cycle_fractions, values. rewrite length_map, enumerate_length, length_map.
  reflexivity.
Qed.

(** All domains are aggregated: with no empty endpoint list, the gathered
    results are the fractions of the cycle. *)
Lemma gather_domains (net : nat -> nat -> result response) (md : monitored) :
  Forall (fun endpoints : list endpoint => endpoints <> []) (values md) ->
  gather (map (fun '(i, endpoints) => get_domain_availability A (net i) endpoints)
              (enumerate (values md)))
  = (cycle_probe_trace A net md, Ok (cycle_fractions A net md)).
Proof.
  intros Hne. rewrite Forall_forall in Hne.
  rewrite (gather_all_ok (vs := cycle_fractions A net md)).
  - unfold cycle_probe_trace. rewrite map_map. f_equal. f_equal.
    apply map_ext_in. intros [i eps] Hin.
    rewrite get_domain_availability_nonempty; [reflexivity|].
    apply Hne, (enumerate_In _ _ _ Hin).
  - unfold cycle_fractions. apply Forall2_map_same. intros [i eps] Hin.
    rewrite get_domain_availability_nonempty; [reflexivity|].
    apply Hne, (enumerate_In _ _ _ Hin).
Qed.

Lemma update_domains_availability_eq (net : nat -> nat -> result response)
    (averages : dict (pyval A)) (c : Z) (md : monitored) :
  Forall (fun endpoints : list endpoint => endpoints <> []) (values md) ->
  update_domains_availability net averages c md
  = (cycle_probe_trace A net md,
     update_averages c averages (combine (keys md) (cycle_fractions A net md))).
Proof.
  intros Hne. unfold update_domains_availability.
  rewrite gather_domains by exact Hne. rewrite bind_ok. simpl.
  rewrite app_nil_r. reflexivity.
Qed.

Lemma keys_length {V} (d : dict V) : List.length (keys d) = List.length d.
Proof. apply length_map. Qed.

(** The update pass of a cycle, when the averages are those of the
    monitored domains. *)
Lemma update_domains_availability_zip (net : nat -> nat -> result response)
    (averages : dict (pyval A)) (c : Z) (md : monitored) :
  domains_ok md -> keys averages = keys md -> c <> 0%Z ->
  update_domains_availability net averages c md
  = (cycle_probe_trace A net md,
     Ok (zip_update c averages (cycle_fractions A net md))).
Proof.
  intros [Hnd Hne] Hkeys Hc.
  rewrite update_domains_availability_eq by exact Hne. f_equal.
  rewrite <- Hkeys.
  apply (update_averages_zip (A := A) (c := c) [] averages); simpl.
  - exact Hc.
  - rewrite Hkeys. exact Hnd.
  - rewrite cycle_fractions_length, <- (keys_length md), <- Hkeys. apply keys_length.
Qed.

Lemma zip_update_keys (c : Z) (averages : dict (pyval A)) (rs : list (pyval A)) :
  List.length rs = List.length averages -> keys (zip_update c averages rs) = keys averages.
Proof.
  revert rs; induction averages as [|[k v] averages IH]; intros rs H.
  - reflexivity.
  - destruct rs as [|r rs]; [discriminate|]. simpl. f_equal. apply IH.
    simpl in H. lia.
Qed.

Lemma zip_update_nth (c : Z) (averages : dict (pyval A)) (rs : list (pyval A))
    (i : nat) (k : string) (v r : pyval A) :
  nth_error averages i = Some (k, v) -> nth_error rs i = Some r ->
  nth_error (zip_update c averages rs) i = Some (k, next_average c v r).
Proof.
  revert rs i; induction averages as [|[k0 v0] averages IH]; intros rs i Ha Hr.
  - destruct i; discriminate.
  - destruct rs as [|r0 rs]; [destruct i; discriminate|].
    destruct i as [|i]; simpl in *.
    + injection Ha as -> ->. injection Hr as ->. reflexivity.
    + apply (IH rs i Ha Hr).
Qed.

Lemma cycle_fractions_nth (net : nat -> nat -> result response) (md : monitored)
    (i : nat) (d : string) (eps : list endpoint) :
  nth_error md i = Some (d, eps) ->
  nth_error (cycle_fractions A net md) i = Some (PyFloat (fraction A (net i) eps)).
Proof.
  intros H. unfold cycle_fractions.
  rewrite nth_error_map.
  rewrite (enumerate_nth (values md) i (x := eps)); [reflexivity|].
  unfold values. rewrite nth_error_map, H. reflexivity.
Qed.

(** The report of a cycle, when no average fails to round. *)
Lemma report_lines_ok (items : list (string * pyval A)) :
  (forall item, In item items ->
     exists z, py_round (py_mul (snd item) (PyInt 100)) = Ok z) ->
  report_lines items = Ok (map (@report_text A) items).
Proof.
  induction items as [|[d v] items IH]; intros H; [reflexivity|].
  simpl. destruct (H (d, v) (or_introl eq_refl)) as [z Hz]. simpl in Hz.
  unfold report_text, percentage. simpl. rewrite Hz. simpl.
  rewrite IH by (intros item Hin; apply H; right; exact Hin).
  reflexivity.
Qed.

(** [round] raises on a NaN and on an infinity only. *)
Lemma py_round_raise (v : pyval A) (e : exn) :
  py_round v = Raise e -> round_error e.
Proof.
  unfold py_round, round_error. destruct v as [z|x]; [discriminate|].
  destruct (to_Q A x); [discriminate|].
  destruct (is_nan A x); intros H; injection H as <-; [left|right]; reflexivity.
Qed.

(** The only exception a cycle can raise on monitored domains comes from
    rounding an average that is not a finite number. *)
Lemma report_lines_raise (items : list (string * pyval A)) (e : exn) :
  report_lines items = Raise e -> round_error e.
Proof.
  induction items as [|[d v] items IH]; simpl; [discriminate|].
  destruct (py_round (py_mul v (PyInt 100))) as [z|e'] eqn:Hr; simpl.
  - destruct (report_lines items) as [lines|e']; simpl; [discriminate|].
    intros H. injection H as <-. apply IH. reflexivity.
  - intros H. injection H as <-. apply (py_round_raise _ Hr).
Qed.

(** A cycle in closed form. *)
Lemma cycle_eq (md : monitored) (st : state A) (input : cycle_input A) :
  domains_ok md -> keys (domain_availability_averages st) = keys md ->
  (0 <= monitoring_cycle st)%Z ->
  let c := (monitoring_cycle st + 1)%Z in
  let averages := zip_update c (domain_availability_averages st)
                    (cycle_fractions A (net input) md) in
  cycle md st input
  = match report_lines averages with
    | Ok lines =>
        (cycle_probe_trace A (net input) md
         ++ [Log INFO (String.concat newline lines);
             Sleep (sleep_duration
                      (py_sub (PyFloat (monotonic_end input))
                              (PyFloat (monotonic_start input))))],
         Ok {| domain_availability_averages := averages; monitoring_cycle := c |})
    | Raise e => (cycle_probe_trace A (net input) md, Raise e)
    end.
Proof.
  intros Hok Hkeys Hc c averages. unfold cycle.
  rewrite update_domains_availability_zip; [|exact Hok|exact Hkeys|lia].
  rewrite bind_ok. fold c. fold averages.
  destruct (report_lines averages) as [lines|e]; simpl;
    rewrite ?app_nil_r; reflexivity.
Qed.

(** The lines of a report that was built are the texts of the items. *)
Lemma report_lines_text (items : list (string * pyval A)) (lines : list string) :
  report_lines items = Ok lines -> lines = map (@report_text A) items.
Proof.
  revert lines; induction items as [|[d v] items IH]; intros lines H; simpl in H.
  - injection H as <-. reflexivity.
  - destruct (py_round (py_mul v (PyInt 100))) as [z|e] eqn:Hr; simpl in H;
      [|discriminate].
    destruct (report_lines items) as [lines'|e]; simpl in H; [|discriminate].
    injection H as <-. cbn [map]. f_equal; [|apply IH; reflexivity].
    unfold report_text, percentage. cbn [fst snd]. rewrite Hr. reflexivity.
Qed.

(** An update pass assigns to every monitored domain the value of the
    update rule, from the average the domain held and its fraction in this
    cycle. *)
Lemma update_pass_assigns (net : nat -> nat -> result response)
    (averages averages' : dict (pyval A)) (c : Z) (md : monitored)
    (tr : list (event A)) :
  domains_ok md ->
  update_domains_availability net averages c md = (tr, Ok averages') ->
  forall i d eps,
    nth_error md i = Some (d, eps) ->
    exists previous,
      dict_get averages d = Some previous
      /\ dict_get averages' d
         = Some (next_average c previous (PyFloat (fraction A (net i) eps))).
Proof.
  intros [Hnd Hne] H i d eps Hi.
  rewrite update_domains_availability_eq in H by exact Hne. injection H as _ H.
  apply update_averages_assigns with (1 := H).
  - rewrite fst_combine_keys; [exact Hnd|]. apply cycle_fractions_length.
  - apply nth_error_In with (n := i). apply nth_error_combine_both.
    + unfold keys. rewrite nth_error_map, Hi. reflexivity.
    + apply (cycle_fractions_nth net md i Hi).
Qed.

End CycleFacts.

(** ** The loop *)

Section LoopFacts.
Variable A : arith.

Lemma averages_after_keys (md : monitored) (inputs : list (cycle_input A)) (c : Z)
    (averages : dict (pyval A)) :
  List.length averages = List.length md ->
  keys (averages_after md c averages inputs) = keys averages.
Proof.
  revert c averages; induction inputs as [|input inputs IH]; intros c averages Hlen.
  - reflexivity.
  - simpl. rewrite IH.
    + apply zip_update_keys. rewrite cycle_fractions_length. symmetry; exact Hlen.
    + rewrite <- keys_length, zip_update_keys, keys_length; [exact Hlen|].
      rewrite cycle_fractions_length. symmetry; exact Hlen.
Qed.

Lemma keys_eq_length {V W} (d : dict V) (d' : dict W) :
  keys d = keys d' -> List.length d = List.length d'.
Proof. intros H. rewrite <- (keys_length d), H. apply keys_length. Qed.

(** The state of the loop after the cycles of [inputs]: the averages are
    those of the side-by-side updates, and the only exception that can
    end the loop comes from rounding in the report. *)
Lemma main_loop_state (md : monitored) (inputs : list (cycle_input A)) (c : Z)
    (averages : dict (pyval A)) :
  domains_ok md -> keys averages = keys md -> (0 <= c)%Z ->
  match snd (main_loop md {| domain_availability_averages := averages;
                             monitoring_cycle := c |} inputs) with
  | Ok st =>
      st = {| domain_availability_averages := averages_after md c averages inputs;
              monitoring_cycle := (c + Z.of_nat (List.length inputs))%Z |}
  | Raise e => round_error e
  end.
Proof.
  intros Hok. revert c averages.
  induction inputs as [|input inputs IH]; intros c averages Hkeys Hc.
  - simpl. rewrite Z.add_0_r. reflexivity.
  - cbn [main_loop]. rewrite cycle_eq; [|exact Hok|exact Hkeys|exact Hc].
    cbn [domain_availability_averages monitoring_cycle].
    destruct (report_lines _) as [lines|e] eqn:Hrep.
    + rewrite bind_ok. cbn [snd].
      specialize (IH (c + 1)%Z
                     (zip_update (c + 1) averages (cycle_fractions A (net input) md))).
      cbn [averages_after List.length].
      replace (c + Z.of_nat (S (List.length inputs)))%Z
        with (c + 1 + Z.of_nat (List.length inputs))%Z by lia.
      apply IH; [|lia].
      rewrite zip_update_keys; [exact Hkeys|].
      rewrite cycle_fractions_length. symmetry. apply (keys_eq_length _ _ Hkeys).
    + cbn [bind snd]. apply (report_lines_raise _ Hrep).
Qed.

(** The average of the [i]-th domain follows the update rule of one
    domain over the fractions it was fed. *)
Lemma averages_after_nth (md : monitored) (inputs : list (cycle_input A)) (c : Z)
    (averages : dict (pyval A)) (i : nat) (d d' : string) (v : pyval A)
    (eps : list endpoint) :
  nth_error averages i = Some (d, v) ->
  nth_error md i = Some (d', eps) ->
  nth_error (averages_after md c averages inputs) i
  = Some (d, running_average c v (fractions_fed i eps inputs)).
Proof.
  revert c averages v; induction inputs as [|input inputs IH]; intros c averages v Ha Hm.
  - exact Ha.
  - simpl. apply IH; [|exact Hm].
    apply zip_update_nth; [exact Ha|].
    apply (cycle_fractions_nth A (net input) md i Hm).
Qed.

End LoopFacts.

Lemma initial_state_keys (A : arith) (md : monitored) :
  keys (domain_availability_averages (initial_state A md)) = keys md.
Proof.
  unfold initial_state, keys. simpl. rewrite map_map. simpl. apply map_id.
Qed.

(** ** Exact arithmetic *)

Lemma exact_of_int_add (a b : Z) :
  of_int exact (a + b) = (of_int exact a + of_int exact b)%Qc.
Proof.
  change (Q2Qc (inject_Z (a + b))
          = Q2Qc (this (Q2Qc (inject_Z a)) + this (Q2Qc (inject_Z b)))).
  apply Q2Qc_eq_iff. cbn [this Q2Qc].
  repeat setoid_rewrite Qred_correct. rewrite inject_Z_plus. reflexivity.
Qed.

Lemma exact_of_int_mul (a b : Z) :
  of_int exact (a * b) = (of_int exact a * of_int exact b)%Qc.
Proof.
  change (Q2Qc (inject_Z (a * b))
          = Q2Qc (this (Q2Qc (inject_Z a)) * this (Q2Qc (inject_Z b)))).
  apply Q2Qc_eq_iff. cbn [this Q2Qc].
  repeat setoid_rewrite Qred_correct. rewrite inject_Z_mult. reflexivity.
Qed.

Lemma exact_of_int_nonzero (a : Z) : a <> 0%Z -> of_int exact a <> Q2Qc 0.
Proof.
  intros Ha H. apply Q2Qc_eq_iff in H. apply Ha.
  unfold Qeq in H. simpl in H. lia.
Qed.

Lemma exact_of_int_0 : of_int exact 0 = Q2Qc 0.
Proof. reflexivity. Qed.

(** The numerator of the update rule. *)
Lemma exact_weighted_sum (v : pyval exact) (c : Z) (f : Qc) :
  to_float (py_add (py_mul v (PyInt c)) (@PyFloat exact f))
  = (to_float v * of_int exact c + f)%Qc.
Proof.
  destruct v as [z|x].
  - cbn [py_mul py_add to_float]. rewrite exact_of_int_mul. reflexivity.
  - reflexivity.
Qed.

Lemma exact_next_average (v : pyval exact) (c : Z) (f : Qc) :
  (0 <= c)%Z ->
  (to_float (next_average (c + 1) v (@PyFloat exact f)) * of_int exact (c + 1)
   = to_float v * of_int exact c + f)%Qc.
Proof.
  intros Hc. unfold next_average. cbn [to_float].
  replace (c + 1 - 1)%Z with c by lia.
  rewrite exact_weighted_sum. change (div exact) with Qcdiv.
  rewrite Qcmult_comm. apply Qcmult_div_r.
  apply exact_of_int_nonzero. lia.
Qed.

(** After [N] further cycles the average times the number of cycles is
    the sum of what it was before and of the fractions fed. *)
Lemma exact_running_average_sum (fs : list Qc) (c : Z) (v : pyval exact) :
  (0 <= c)%Z ->
  (to_float (running_average c v fs)
   * of_int exact (c + Z.of_nat (List.length fs))
   = to_float v * of_int exact c + sum_Qc fs)%Qc.
Proof.
  revert c v; induction fs as [|f fs IH]; intros c v Hc.
  - simpl running_average. simpl List.length. rewrite Z.add_0_r.
    simpl sum_Qc. rewrite Qcplus_0_r. reflexivity.
  - cbn [running_average List.length sum_Qc fold_right].
    replace (c + Z.of_nat (S (List.length fs)))%Z
      with (c + 1 + Z.of_nat (List.length fs))%Z by lia.
    rewrite IH by lia. rewrite exact_next_average by exact Hc.
    fold (sum_Qc fs). ring.
Qed.

Lemma running_average_float (A : arith) (fs : list (num A)) (c : Z) (v : pyval A) :
  fs <> [] -> exists x, running_average c v fs = PyFloat x.
Proof.
  intros Hne. destruct fs as [|f fs]; [contradiction Hne; reflexivity|]. clear Hne.
  simpl. unfold next_average at 1.
  generalize (div A (to_float (py_add (py_mul v (PyInt (c + 1 - 1))) (PyFloat f)))
                    (of_int A (c + 1))).
  generalize (c + 1)%Z. clear.
  induction fs as [|f fs IH]; intros c x; simpl; [eauto|].
  unfold next_average at 1. apply IH.
Qed.

(** From cycle 1 on, the update rule stores the mean of the fractions,
    whatever value was stored before the first cycle. *)
Lemma exact_running_average_mean (fs : list Qc) (seed : pyval exact) :
  fs <> [] -> running_average 0 seed fs = @PyFloat exact (mean fs).
Proof.
  intros Hne.
  destruct (running_average_float 0 seed Hne) as [x Hx].
  pose proof (exact_running_average_sum fs seed (Z.le_refl 0)) as H.
  rewrite Hx in H. cbn [to_float] in H.
  rewrite Hx. f_equal. unfold mean.
  rewrite exact_of_int_0, Qcmult_0_r, Qcplus_0_l, Z.add_0_l in H.
  rewrite <- H. symmetry. apply Qcdiv_mult_l.
  apply exact_of_int_nonzero. destruct fs; [contradiction Hne; reflexivity|].
  simpl. lia.
Qed.

Lemma sum_Qc_permutation (l l' : list Qc) :
  Permutation l l' -> sum_Qc l = sum_Qc l'.
Proof.
  induction 1 as [|x l l' _ IH|x y l|l l' l'' _ IH1 _ IH2]; simpl.
  - reflexivity.
  - fold (sum_Qc l). fold (sum_Qc l'). rewrite IH. reflexivity.
  - fold (sum_Qc l). ring.
  - congruence.
Qed.

(** The mean does not depend on the order of its arguments. *)
Lemma mean_permutation (l l' : list Qc) :
  Permutation l l' -> mean l = mean l'.
Proof.
  intros H. unfold mean.
  rewrite (sum_Qc_permutation H), (Permutation_length H). reflexivity.
Qed.

Lemma exact_py_round (v : pyval exact) : exists z, py_round v = Ok z.
Proof. destruct v as [z|x]; simpl; eauto. Qed.

(** In exact arithmetic the loop never raises on monitored domains. *)
Lemma exact_main_loop (md : monitored) (inputs : list (cycle_input exact)) (c : Z)
    (averages : dict (pyval exact)) :
  domains_ok md -> keys averages = keys md -> (0 <= c)%Z ->
  exists tr,
    main_loop md {| domain_availability_averages := averages;
                    monitoring_cycle := c |} inputs
    = (tr, Ok {| domain_availability_averages := averages_after md c averages inputs;
                 monitoring_cycle := (c + Z.of_nat (List.length inputs))%Z |}).
Proof.
  intros Hok. revert c averages.
  induction inputs as [|input inputs IH]; intros c averages Hkeys Hc.
  - exists []. simpl. rewrite Z.add_0_r. reflexivity.
  - cbn [main_loop]. rewrite cycle_eq; [|exact Hok|exact Hkeys|exact Hc].
    cbn [domain_availability_averages monitoring_cycle].
    rewrite report_lines_ok by (intros item _; apply exact_py_round).
    destruct (IH (c + 1)%Z
                 (zip_update (c + 1) averages (cycle_fractions exact (net input) md)))
      as [tr Htr]; [|lia|].
    + rewrite zip_update_keys; [exact Hkeys|].
      rewrite cycle_fractions_length. symmetry. apply (keys_eq_length _ _ Hkeys).
    + rewrite bind_ok, Htr. cbn [fst snd averages_after List.length].
      replace (c + Z.of_nat (S (List.length inputs)))%Z
        with (c + 1 + Z.of_nat (List.length inputs))%Z by lia.
      eexists. reflexivity.
Qed.

Lemma mean_singleton (f : Qc) : mean [f] = f.
Proof.
  unfold mean. simpl. rewrite Qcplus_0_r.
  change (Q2Qc (inject_Z 1)) with (Q2Qc 1).
  unfold Qcdiv. field. apply Q_apart_0_1.
Qed.

Lemma nth_error_same_keys {V W} (d : dict V) (d' : dict W) (i : nat) (k : string)
    (w : W) :
  keys d = keys d' -> nth_error d' i = Some (k, w) ->
  exists v, nth_error d i = Some (k, v).
Proof.
  revert d' i; induction d as [|[k0 v0] d IH]; intros d' i Hk Hi.
  - destruct d'; [destruct i; discriminate|discriminate].
  - destruct d' as [|[k1 w1] d']; [discriminate|].
    simpl in Hk. injection Hk as -> Hk.
    destruct i as [|i]; simpl in *.
    + injection Hi as -> _. eauto.
    + apply (IH d' i Hk Hi).
Qed.

(** In exact arithmetic the loop stores, for every domain, the mean of the
    fractions the domain was fed, whatever the averages were before the
    first cycle. *)
Lemma exact_loop_mean (md : monitored) (st0 : state exact)
    (inputs : list (cycle_input exact)) :
  domains_ok md ->
  keys (domain_availability_averages st0) = keys md ->
  monitoring_cycle st0 = 0%Z ->
  inputs <> [] ->
  exists tr st,
    main_loop md st0 inputs = (tr, Ok st)
    /\ monitoring_cycle st = Z.of_nat (List.length inputs)
    /\ forall i d eps,
         nth_error md i = Some (d, eps) ->
         dict_get (domain_availability_averages st) d
         = Some (@PyFloat exact (mean (fractions_fed i eps inputs))).
Proof.
  intros Hok Hkeys Hc Hne. destruct st0 as [averages c]. simpl in *. subst c.
  destruct (exact_main_loop inputs averages Hok Hkeys (Z.le_refl 0)) as [tr Htr].
  exists tr. eexists. split; [exact Htr|]. split; [reflexivity|].
  intros i d eps Hi. cbn [domain_availability_averages].
  destruct (nth_error_same_keys averages md i Hkeys Hi) as [v Hv].
  apply dict_get_nth with (i := i).
  - rewrite averages_after_keys by apply (keys_eq_length _ _ Hkeys).
    rewrite Hkeys. apply Hok.
  - rewrite (averages_after_nth md inputs 0 averages i Hv Hi).
    rewrite exact_running_average_mean; [reflexivity|].
    unfold fractions_fed. destruct inputs; [contradiction Hne; reflexivity|discriminate].
Qed.

(** * The arithmetic of binary64 *)

(** ** Digits *)

Lemma digits2_pos_size (p : positive) : digits2_pos p = Pos.size p.
Proof. induction p; simpl; congruence. Qed.

Lemma Zdigits2_log2 (x : Z) : (0 < x)%Z -> Zdigits2 x = (Z.log2 x + 1)%Z.
Proof.
  destruct x as [|p|p]; try lia. intros _. cbn [Zdigits2].
  rewrite digits2_pos_size. destruct p; simpl; rewrite ?Pos2Z.inj_succ; lia.
Qed.

Lemma Zdigits2_nonneg (x : Z) : (0 <= Zdigits2 x)%Z.
Proof. destruct x; simpl; lia. Qed.

Lemma Zdigits2_mono (x y : Z) : (0 <= x <= y)%Z -> (Zdigits2 x <= Zdigits2 y)%Z.
Proof.
  intros [Hx Hxy]. destruct (Z.eq_dec x 0) as [->|Hne].
  - apply Zdigits2_nonneg.
  - rewrite !Zdigits2_log2 by lia. apply Z.add_le_mono_r, Z.log2_le_mono, Hxy.
Qed.

Lemma fexp_mono (x y : Z) :
  (x <= y)%Z -> (fexp B64.prec B64.emax x <= fexp B64.prec B64.emax y)%Z.
Proof. unfold fexp, emin, B64.prec, B64.emax. lia. Qed.

(** ** Shifting to the right *)

Lemma shr_1_spec (mrs : shr_record) :
  (0 <= shr_m mrs)%Z ->
  (0 <= shr_m (shr_1 mrs))%Z
  /\ Zdigits2 (shr_m (shr_1 mrs)) = Z.max 0 (Zdigits2 (shr_m mrs) - 1).
Proof.
  destruct mrs as [m r s]. cbn [shr_m]. intros H.
  destruct m as [|p|p]; [| |lia].
  - cbn. lia.
  - destruct p; cbn [shr_1 shr_m Zdigits2 digits2_pos];
      rewrite ?Pos2Z.inj_succ; lia.
Qed.

Lemma iter_shr_1_spec (n : positive) (mrs : shr_record) :
  (0 <= shr_m mrs)%Z ->
  (0 <= shr_m (iter_pos shr_1 n mrs))%Z
  /\ Zdigits2 (shr_m (iter_pos shr_1 n mrs)) = Z.max 0 (Zdigits2 (shr_m mrs) - Z.pos n).
Proof.
  revert mrs; induction n as [n IH|n IH|]; intros mrs H; simpl.
  - destruct (shr_1_spec mrs H) as [H1 D1].
    destruct (IH _ H1) as [H2 D2]. destruct (IH _ H2) as [H3 D3].
    split; [exact H3|]. rewrite D3, D2, D1. lia.
  - destruct (IH _ H) as [H2 D2]. destruct (IH _ H2) as [H3 D3].
    split; [exact H3|]. rewrite D3, D2. lia.
  - apply shr_1_spec, H.
Qed.

Lemma shr_record_of_loc_m (m : Z) (l : location) : shr_m (shr_record_of_loc m l) = m.
Proof. destruct l as [|[| |]]; reflexivity. Qed.

(** A mantissa whose exponent is not above the one of its format is
    shifted to that exponent. *)
Lemma shr_fexp_spec (m e : Z) (l : location) :
  (0 <= m)%Z -> (e <= fexp B64.prec B64.emax (Zdigits2 m + e))%Z ->
  let r := shr_fexp B64.prec B64.emax m e l in
  (0 <= shr_m (fst r))%Z
  /\ snd r = fexp B64.prec B64.emax (Zdigits2 m + e)
  /\ Zdigits2 (shr_m (fst r)) = Z.max 0 (Zdigits2 m + e - snd r).
Proof.
  intros Hm He. unfold shr_fexp, shr.
  pose proof (shr_record_of_loc_m m l) as Hr.
  destruct (fexp B64.prec B64.emax (Zdigits2 m + e) - e)%Z as [|n|n] eqn:En;
    cbn [fst snd].
  - rewrite Hr. pose proof (Zdigits2_nonneg m). repeat split; lia.
  - destruct (@iter_shr_1_spec n (shr_record_of_loc m l)) as [H D]; [rewrite Hr; exact Hm|].
    rewrite Hr in D. repeat split; [exact H|lia|rewrite D; lia].
  - lia.
Qed.

Lemma round_nearest_even_ge (m : Z) (l : location) :
  (m <= round_nearest_even m l)%Z.
Proof.
  unfold round_nearest_even. destruct l as [|[| |]]; try lia.
  destruct (Z.even m); lia.
Qed.

(** ** Rounding gives floats in canonical form *)

Lemma binary_round_aux_valid (s : bool) (m e : Z) (l : location) :
  (0 <= m)%Z -> (e <= fexp B64.prec B64.emax (Zdigits2 m + e))%Z ->
  valid_binary B64.prec B64.emax (binary_round_aux B64.prec B64.emax s m e l) = true.
Proof.
  intros Hm He. unfold binary_round_aux.
  destruct (@shr_fexp_spec m e l Hm He) as [H0 [He' Hd]].
  destruct (shr_fexp B64.prec B64.emax m e l) as [mrs' e']. cbn [fst snd] in *.
  pose proof (round_nearest_even_ge (shr_m mrs') (loc_of_shr_record mrs')) as Hge.
  set (m1 := round_nearest_even (shr_m mrs') (loc_of_shr_record mrs')) in *.
  assert (Hd1 : (Zdigits2 (shr_m mrs') <= Zdigits2 m1)%Z)
    by (apply Zdigits2_mono; lia).
  assert (He1 : (e' <= fexp B64.prec B64.emax (Zdigits2 m1 + e'))%Z).
  { rewrite He' at 1. apply fexp_mono. lia. }
  destruct (@shr_fexp_spec m1 e' loc_Exact ltac:(lia) He1) as [H0' [He'' Hd']].
  destruct (shr_fexp B64.prec B64.emax m1 e' loc_Exact) as [mrs'' e''].
  cbn [fst snd] in *.
  destruct (shr_m mrs'') as [|p|p] eqn:Ep; [reflexivity| |reflexivity].
  destruct (e'' <=? B64.emax - B64.prec)%Z eqn:Hb; [|reflexivity].
  cbn [valid_binary]. unfold bounded, canonical_mantissa.
  rewrite Hb, andb_true_r. apply Z.eqb_eq.
  cbn [Zdigits2] in Hd'.
  replace (Z.pos (digits2_pos p) + e'')%Z with (Zdigits2 m1 + e')%Z by lia.
  symmetry. exact He''.
Qed.

Lemma binary_round_valid (s : bool) (m : positive) (e : Z) :
  valid_binary B64.prec B64.emax (binary_round B64.prec B64.emax s m e) = true.
Proof.
  unfold binary_round, shl_align.
  set (F := fexp B64.prec B64.emax (Z.pos (digits2_pos m) + e)).
  destruct (F - e)%Z as [|d|d] eqn:Ed.
  - apply binary_round_aux_valid; [lia|]. cbn [Zdigits2]. fold F. lia.
  - apply binary_round_aux_valid; [lia|]. cbn [Zdigits2]. fold F. lia.
  - apply binary_round_aux_valid; [lia|].
    change (Pos.iter xO m d) with (shift_pos d m).
    rewrite Zdigits2_log2, shift_pos_correct by lia.
    change (Z.pow_pos 2 d) with (2 ^ Z.pos d)%Z.
    rewrite Z.mul_comm, Z.log2_mul_pow2 by lia.
    replace (Z.pos d + Z.log2 (Z.pos m) + 1 + F)%Z with (Zdigits2 (Z.pos m) + e)%Z
      by (rewrite Zdigits2_log2; lia).
    cbn [Zdigits2]. fold F. lia.
Qed.

Lemma binary_normalize_valid (m e : Z) (s : bool) :
  valid_binary B64.prec B64.emax (binary_normalize B64.prec B64.emax m e s) = true.
Proof. destruct m; [reflexivity|apply binary_round_valid..]. Qed.

Lemma SFsub_valid (x y : spec_float) :
  valid_binary B64.prec B64.emax x = true ->
  valid_binary B64.prec B64.emax y = true ->
  valid_binary B64.prec B64.emax (SFsub B64.prec B64.emax x y) = true.
Proof.
  intros Hx Hy.
  destruct x as [sx|sx| |sx mx ex], y as [sy|sy| |sy my ey]; cbn [SFsub];
    try reflexivity; try exact Hx; try exact Hy;
    try apply binary_normalize_valid; destruct sx, sy; reflexivity.
Qed.

(** ** Division *)

Lemma div_eucl_pair (a b : Z) : Z.div_eucl a b = ((a / b)%Z, (a mod b)%Z).
Proof. unfold Z.div, Z.modulo. destruct (Z.div_eucl a b); reflexivity. Qed.

Lemma SFdiv_core_binary_spec (m1 m2 : positive) (e1 e2 : Z) :
  let r := SFdiv_core_binary B64.prec B64.emax (Z.pos m1) e1 (Z.pos m2) e2 in
  (0 <= fst (fst r))%Z
  /\ (snd (fst r) <= fexp B64.prec B64.emax (Zdigits2 (fst (fst r)) + snd (fst r)))%Z.
Proof.
  unfold SFdiv_core_binary.
  set (d1 := Zdigits2 (Z.pos m1)). set (d2 := Zdigits2 (Z.pos m2)).
  set (F := fexp B64.prec B64.emax (d1 + e1 - (d2 + e2))).
  set (e' := Z.min F (e1 - e2)).
  set (s := (e1 - e2 - e')%Z).
  assert (Hs : (0 <= s)%Z) by (unfold s, e'; lia).
  assert (Hm' : match s with
                | Z.pos _ => Z.shiftl (Z.pos m1) s
                | 0%Z => Z.pos m1
                | Z.neg _ => 0%Z
                end = (Z.pos m1 * 2 ^ s)%Z).
  { destruct s as [|p|p]; [lia| |lia]. apply Z.shiftl_mul_pow2. lia. }
  rewrite Hm', div_eucl_pair. cbn [fst snd].
  set (q := (Z.pos m1 * 2 ^ s / Z.pos m2)%Z).
  assert (Hpow : (0 < 2 ^ s)%Z) by (apply Z.pow_pos_nonneg; lia).
  assert (Hq : (0 <= q)%Z) by (apply Z.div_pos; nia).
  split; [exact Hq|].
  assert (Hdig : (d1 - d2 + s <= Zdigits2 q)%Z).
  { pose proof (Zdigits2_nonneg q) as Hnn.
    destruct (Z_le_gt_dec (d1 - d2 + s) 0) as [Hle|Hgt]; [lia|].
    assert (H1 : (2 ^ (d1 - 1) <= Z.pos m1)%Z).
    { unfold d1. rewrite Zdigits2_log2 by lia.
      replace (Z.log2 (Z.pos m1) + 1 - 1)%Z with (Z.log2 (Z.pos m1)) by lia.
      apply Z.log2_spec. lia. }
    assert (H2 : (Z.pos m2 < 2 ^ d2)%Z).
    { unfold d2. rewrite Zdigits2_log2 by lia. apply Z.log2_spec. lia. }
    assert (Hd1 : (1 <= d1)%Z) by (unfold d1; simpl; lia).
    assert (Hd2 : (1 <= d2)%Z) by (unfold d2; simpl; lia).
    assert (Hlow : (2 ^ (d1 - 1 + s - d2) <= q)%Z).
    { apply Z.div_le_lower_bound; [lia|].
      apply Z.le_trans with (2 ^ d2 * 2 ^ (d1 - 1 + s - d2))%Z.
      - apply Z.mul_le_mono_nonneg_r; [apply Z.pow_nonneg|]; lia.
      - rewrite <- Z.pow_add_r by lia.
        replace (d2 + (d1 - 1 + s - d2))%Z with (d1 - 1 + s)%Z by lia.
        rewrite Z.pow_add_r by lia.
        apply Z.mul_le_mono_nonneg_r; lia. }
    assert (Hqpos : (0 < q)%Z).
    { apply Z.lt_le_trans with (2 := Hlow). apply Z.pow_pos_nonneg; lia. }
    rewrite Zdigits2_log2 by exact Hqpos.
    apply Z.log2_le_pow2 in Hlow; lia. }
  apply Z.le_trans with F; [unfold e'; lia|].
  apply fexp_mono. unfold s in Hdig. lia.
Qed.

Lemma SFdiv_valid (x y : spec_float) :
  valid_binary B64.prec B64.emax (SFdiv B64.prec B64.emax x y) = true.
Proof.
  destruct x as [sx|sx| |sx mx ex], y as [sy|sy| |sy my ey]; try reflexivity.
  cbn [SFdiv].
  pose proof (SFdiv_core_binary_spec mx my ex ey) as H. cbv zeta in H.
  destruct (SFdiv_core_binary B64.prec B64.emax (Z.pos mx) ex (Z.pos my) ey)
    as [[mz ez] lz].
  cbn [fst snd] in H. apply binary_round_aux_valid; apply H.
Qed.

(** ** Signs *)

Lemma binary_round_aux_sign (s : bool) (m e : Z) (l : location) :
  has_sign s (binary_round_aux B64.prec B64.emax s m e l).
Proof.
  unfold binary_round_aux.
  destruct (shr_fexp B64.prec B64.emax m e l) as [mrs' e'].
  destruct (shr_fexp B64.prec B64.emax _ e' loc_Exact) as [mrs'' e''].
  destruct (shr_m mrs''); [reflexivity| |reflexivity].
  destruct (e'' <=? B64.emax - B64.prec)%Z; reflexivity.
Qed.

Lemma binary_round_sign (s : bool) (m : positive) (e : Z) :
  has_sign s (binary_round B64.prec B64.emax s m e).
Proof.
  unfold binary_round. destruct (shl_align m e _) as [mz ez].
  apply binary_round_aux_sign.
Qed.

Lemma of_int_sign (z : Z) : (0 <= z)%Z -> has_sign false (B64.of_int z).
Proof.
  intros H. destruct z as [|p|p]; [reflexivity| |lia]. apply binary_round_sign.
Qed.

Lemma SFdiv_sign (x y : spec_float) :
  has_sign false x -> has_sign false y ->
  has_sign false (SFdiv B64.prec B64.emax x y).
Proof.
  destruct x as [sx|sx| |sx mx ex], y as [sy|sy| |sy my ey]; cbn [has_sign SFdiv];
    intros Hx Hy; subst; try reflexivity.
  destruct (SFdiv_core_binary B64.prec B64.emax (Z.pos mx) ex (Z.pos my) ey)
    as [[mz ez] lz].
  apply binary_round_aux_sign.
Qed.

(** ** Division by one *)

Lemma div_eucl_exact (a b : Z) : (0 < b)%Z -> Z.div_eucl (a * b) b = (a, 0%Z).
Proof.
  intros Hb.
  pose proof (Z.div_mul a b ltac:(lia)) as Hq.
  pose proof (Z.mod_mul a b ltac:(lia)) as Hr.
  unfold Z.div, Z.modulo in *.
  destruct (Z.div_eucl (a * b) b) as [q r]. simpl in *. congruence.
Qed.

Lemma shr_fexp_exact (m e : Z) :
  fexp B64.prec B64.emax (Zdigits2 m + e) = e ->
  shr_fexp B64.prec B64.emax m e loc_Exact
  = ({| shr_m := m; shr_r := false; shr_s := false |}, e).
Proof.
  intros H. unfold shr_fexp. rewrite H, Z.sub_diag. reflexivity.
Qed.

Lemma shr_fexp_double (m : positive) (e : Z) :
  fexp B64.prec B64.emax (Z.pos (digits2_pos m) + e) = e ->
  shr_fexp B64.prec B64.emax (Z.pos m~0) (e - 1) loc_Exact
  = ({| shr_m := Z.pos m; shr_r := false; shr_s := false |}, e).
Proof.
  intros H. unfold shr_fexp.
  replace (Zdigits2 (Z.pos m~0) + (e - 1))%Z with (Z.pos (digits2_pos m) + e)%Z
    by (cbn [Zdigits2 digits2_pos]; rewrite Pos2Z.inj_succ; lia).
  rewrite H. replace (e - (e - 1))%Z with 1%Z by lia.
  unfold shr. simpl. f_equal. lia.
Qed.

Lemma binary_round_aux_exact (s : bool) (m : positive) (e : Z) :
  bounded B64.prec B64.emax m e = true ->
  binary_round_aux B64.prec B64.emax s (Z.pos m) e loc_Exact = S754_finite s m e.
Proof.
  intros Hb. unfold bounded, canonical_mantissa in Hb.
  apply andb_true_iff in Hb. destruct Hb as [Hc He]. apply Z.eqb_eq in Hc.
  unfold binary_round_aux.
  rewrite (@shr_fexp_exact (Z.pos m) e Hc). cbn [shr_m loc_of_shr_record round_nearest_even].
  rewrite (@shr_fexp_exact (Z.pos m) e Hc). cbn [shr_m].
  rewrite He. reflexivity.
Qed.

Lemma binary_round_aux_double (s : bool) (m : positive) (e : Z) :
  bounded B64.prec B64.emax m e = true ->
  binary_round_aux B64.prec B64.emax s (Z.pos m~0) (e - 1) loc_Exact = S754_finite s m e.
Proof.
  intros Hb. unfold bounded, canonical_mantissa in Hb.
  apply andb_true_iff in Hb. destruct Hb as [Hc He]. apply Z.eqb_eq in Hc.
  unfold binary_round_aux.
  rewrite (@shr_fexp_double m e Hc). cbn [shr_m loc_of_shr_record round_nearest_even].
  rewrite (@shr_fexp_exact (Z.pos m) e Hc). cbn [shr_m].
  rewrite He. reflexivity.
Qed.

Lemma div_by_one (s : bool) (m : positive) (e : Z) :
  bounded B64.prec B64.emax m e = true ->
  SFdiv B64.prec B64.emax (S754_finite s m e) unit_float = S754_finite s m e.
Proof.
  intros Hb. pose proof Hb as Hb'. unfold bounded, canonical_mantissa in Hb'.
  apply andb_true_iff in Hb'. destruct Hb' as [Hc _]. apply Z.eqb_eq in Hc.
  unfold fexp, emin, B64.prec, B64.emax in Hc.
  unfold unit_float, SFdiv, SFdiv_core_binary.
  change (Zdigits2 (Z.pos m)) with (Z.pos (digits2_pos m)).
  change (Zdigits2 4503599627370496) with 53%Z.
  unfold fexp, emin, B64.prec, B64.emax.
  set (D := Z.pos (digits2_pos m)) in *.
  assert (HD : (0 < D)%Z) by (unfold D; lia).
  rewrite xorb_false_r.
  destruct (Z.eq_dec e (-1074)) as [E|E].
  - (* smallest exponent: the quotient keeps the mantissa *)
    replace (Z.min (Z.max (D + e - (53 + -52) - 53) (3 - 1024 - 53)) (e - -52))
      with e by lia.
    replace (e - -52 - e)%Z with 52%Z by lia.
    rewrite Z.shiftl_mul_pow2 by lia.
    change (2 ^ 52)%Z with 4503599627370496%Z.
    rewrite div_eucl_exact by lia.
    change (new_location 4503599627370496 0) with loc_Exact.
    apply binary_round_aux_exact, Hb.
  - replace (Z.min (Z.max (D + e - (53 + -52) - 53) (3 - 1024 - 53)) (e - -52))
      with (e - 1)%Z by lia.
    replace (e - -52 - (e - 1))%Z with 53%Z by lia.
    rewrite Z.shiftl_mul_pow2 by lia.
    replace (Z.pos m * 2 ^ 53)%Z with (Z.pos m~0 * 4503599627370496)%Z by lia.
    rewrite div_eucl_exact by lia.
    change (new_location 4503599627370496 0) with loc_Exact.
    apply binary_round_aux_double, Hb.
Qed.

(** ** The sign of a difference *)

Lemma not_above_zero (x : spec_float) :
  has_sign true x -> SFltb (S754_zero false) x = false.
Proof. destruct x as [s|s| |s m e]; simpl; intros H; try subst s; reflexivity. Qed.

Lemma binary_normalize_nonpos (m e : Z) :
  (m <= 0)%Z ->
  SFltb (S754_zero false) (binary_normalize B64.prec B64.emax m e false) = false.
Proof.
  intros H. destruct m as [|p|p]; [reflexivity|lia|].
  apply not_above_zero. apply binary_round_sign.
Qed.

(** Shifting a mantissa to the right by less than its number of digits
    leaves a positive mantissa. *)
Lemma shr_1_digits (mrs : shr_record) (d : Z) :
  positive_with_digits mrs d -> (2 <= d)%Z ->
  positive_with_digits (shr_1 mrs) (d - 1).
Proof.
  intros [p [Hm Hd]] H. destruct mrs as [m r s]. simpl in Hm. subst m.
  destruct p as [p|p|]; simpl in *.
  - exists p. split; [reflexivity|]. rewrite Pos2Z.inj_succ in Hd. lia.
  - exists p. split; [reflexivity|]. rewrite Pos2Z.inj_succ in Hd. lia.
  - lia.
Qed.

Lemma iter_shr_1_digits (n : positive) (mrs : shr_record) (d : Z) :
  positive_with_digits mrs d -> (Z.pos n < d)%Z ->
  positive_with_digits (iter_pos shr_1 n mrs) (d - Z.pos n).
Proof.
  revert mrs d; induction n as [n IH|n IH|]; intros mrs d Hp Hn; simpl.
  - replace (d - Z.pos n~1)%Z with (d - 1 - Z.pos n - Z.pos n)%Z by lia.
    apply IH; [|lia]. apply IH; [|lia]. apply shr_1_digits; [exact Hp|lia].
  - replace (d - Z.pos n~0)%Z with (d - Z.pos n - Z.pos n)%Z by lia.
    apply IH; [|lia]. apply IH; [exact Hp|lia].
  - apply shr_1_digits; [exact Hp|lia].
Qed.

Lemma shr_fexp_positive (p : positive) (e : Z) (l : location) :
  (-1074 <= e)%Z ->
  exists d, positive_with_digits (fst (shr_fexp B64.prec B64.emax (Z.pos p) e l)) d
            /\ (-1074 <= snd (shr_fexp B64.prec B64.emax (Z.pos p) e l))%Z.
Proof.
  intros He. unfold shr_fexp, shr.
  change (Zdigits2 (Z.pos p)) with (Z.pos (digits2_pos p)).
  set (D := Z.pos (digits2_pos p)).
  assert (Hn : (fexp B64.prec B64.emax (D + e) - e <= 0
                \/ fexp B64.prec B64.emax (D + e) - e < D)%Z).
  { unfold fexp, emin, B64.prec, B64.emax. lia. }
  assert (Hstart : positive_with_digits (shr_record_of_loc (Z.pos p) l) D).
  { exists p. split; [|reflexivity]. destruct l as [|[| |]]; reflexivity. }
  destruct (fexp B64.prec B64.emax (D + e) - e)%Z as [|n|n] eqn:En; cbn [fst snd].
  - exists D. split; [exact Hstart|exact He].
  - exists (D - Z.pos n)%Z. split; [|lia].
    apply iter_shr_1_digits; [exact Hstart|lia].
  - exists D. split; [exact Hstart|exact He].
Qed.

Lemma round_nearest_even_positive (mrs : shr_record) (d : Z) :
  positive_with_digits mrs d ->
  exists p, round_nearest_even (shr_m mrs) (loc_of_shr_record mrs) = Z.pos p.
Proof.
  intros [p [Hm _]]. rewrite Hm. unfold round_nearest_even.
  destruct (loc_of_shr_record mrs) as [|[| |]]; try (exists p; reflexivity).
  - destruct (Z.even (Z.pos p)); [exists p; reflexivity|].
    exists (p + 1)%positive. reflexivity.
  - exists (p + 1)%positive. reflexivity.
Qed.

(** Rounding a positive mantissa at an exponent that is not below the
    smallest one never gives zero. *)
Lemma binary_round_aux_positive (p : positive) (e : Z) (l : location) :
  (-1074 <= e)%Z ->
  SFltb (S754_zero false) (binary_round_aux B64.prec B64.emax false (Z.pos p) e l) = true.
Proof.
  intros He. unfold binary_round_aux.
  destruct (@shr_fexp_positive p e l He) as [d [Hp He']].
  destruct (shr_fexp B64.prec B64.emax (Z.pos p) e l) as [mrs' e']. cbn [fst snd] in *.
  destruct (@round_nearest_even_positive mrs' d Hp) as [p1 Hp1]. rewrite Hp1.
  destruct (@shr_fexp_positive p1 e' loc_Exact He') as [d' [[p2 [Hp2 _]] _]].
  destruct (shr_fexp B64.prec B64.emax (Z.pos p1) e' loc_Exact) as [mrs'' e''].
  cbn [fst] in Hp2. rewrite Hp2.
  destruct (e'' <=? B64.emax - B64.prec)%Z; reflexivity.
Qed.

Lemma shl_align_exponent (m : positive) (e e' : Z) :
  (-1074 <= e)%Z -> (-1074 <= e')%Z -> (-1074 <= snd (shl_align m e e'))%Z.
Proof.
  intros He He'. unfold shl_align. destruct (e' - e)%Z; simpl; assumption.
Qed.

Lemma binary_normalize_positive (m e : Z) :
  (0 < m)%Z -> (-1074 <= e)%Z ->
  SFltb (S754_zero false) (binary_normalize B64.prec B64.emax m e false) = true.
Proof.
  intros Hm He. destruct m as [|p|p]; [lia| |lia].
  unfold binary_normalize, binary_round.
  pose proof (@shl_align_exponent p e
                (fexp B64.prec B64.emax (Z.pos (digits2_pos p) + e)) He) as H.
  destruct (shl_align p e _) as [mz ez]. cbn [snd] in H.
  apply binary_round_aux_positive, H.
  unfold fexp, emin, B64.prec, B64.emax. lia.
Qed.

(** Aligned mantissas *)
Lemma shl_align_value (m : positive) (e ez : Z) :
  (ez <= e)%Z -> Z.pos (fst (shl_align m e ez)) = (Z.pos m * 2 ^ (e - ez))%Z.
Proof.
  intros H. unfold shl_align. destruct (ez - e)%Z as [|d|d] eqn:E.
  - replace (e - ez)%Z with 0%Z by lia. simpl. lia.
  - lia.
  - cbn [fst]. change (Pos.iter xO m d) with (shift_pos d m).
    rewrite shift_pos_correct. replace (e - ez)%Z with (Z.pos d) by lia.
    change (Z.pow_pos 2 d) with (2 ^ Z.pos d)%Z. lia.
Qed.

Lemma two_power_positive (z : Z) : (0 < 2 ^ z)%Q.
Proof. apply Qpower_0_lt. reflexivity. Qed.

Lemma aligned_value (s : bool) (m : positive) (e ez : Z) (q : Q) :
  (ez <= e)%Z -> B64.to_Q (S754_finite s m e) = Some q ->
  (inject_Z (cond_Zopp s (Z.pos (fst (shl_align m e ez)))) == q * 2 ^ (- ez))%Q.
Proof.
  intros H Hq. simpl in Hq. injection Hq as <-.
  rewrite shl_align_value by exact H.
  assert (Hp : (inject_Z (Z.pos m * 2 ^ (e - ez))
                == inject_Z (Z.pos m) * 2 ^ e * 2 ^ (- ez))%Q).
  { rewrite inject_Z_mult, Zpower_Qpower by lia.
    replace (e - ez)%Z with (e + - ez)%Z by lia.
    rewrite Qpower_plus by discriminate. change (inject_Z 2) with 2%Q. ring. }
  destruct s; cbn [cond_Zopp].
  - rewrite inject_Z_opp, Hp. ring.
  - exact Hp.
Qed.

(** The difference of two finite numbers has the sign of the difference of
    their values. *)
Lemma finite_sub_nonpos (sx sy : bool) (mx my : positive) (ex ey : Z) (qx qy : Q) :
  B64.to_Q (S754_finite sx mx ex) = Some qx ->
  B64.to_Q (S754_finite sy my ey) = Some qy ->
  (qx <= qy)%Q ->
  SFltb (S754_zero false)
        (SFsub B64.prec B64.emax (S754_finite sx mx ex) (S754_finite sy my ey)) = false.
Proof.
  intros Hx Hy Hle. cbn [SFsub]. apply binary_normalize_nonpos.
  pose proof (@aligned_value sx mx ex (Z.min ex ey) qx ltac:(lia) Hx) as Ax.
  pose proof (@aligned_value sy my ey (Z.min ex ey) qy ltac:(lia) Hy) as Ay.
  apply Z.le_sub_0. rewrite Zle_Qle, Ax, Ay.
  apply Qmult_le_r; [apply two_power_positive|exact Hle].
Qed.

Lemma finite_sub_pos (sx sy : bool) (mx my : positive) (ex ey : Z) (qx qy : Q) :
  B64.to_Q (S754_finite sx mx ex) = Some qx ->
  B64.to_Q (S754_finite sy my ey) = Some qy ->
  (-1074 <= ex)%Z -> (-1074 <= ey)%Z ->
  (qy < qx)%Q ->
  SFltb (S754_zero false)
        (SFsub B64.prec B64.emax (S754_finite sx mx ex) (S754_finite sy my ey)) = true.
Proof.
  intros Hx Hy Hex Hey Hlt. cbn [SFsub]. apply binary_normalize_positive; [|lia].
  pose proof (@aligned_value sx mx ex (Z.min ex ey) qx ltac:(lia) Hx) as Ax.
  pose proof (@aligned_value sy my ey (Z.min ex ey) qy ltac:(lia) Hy) as Ay.
  apply Z.lt_0_sub. rewrite Zlt_Qlt, Ax, Ay.
  apply Qmult_lt_r; [apply two_power_positive|exact Hlt].
Qed.

Lemma valid_exponent (s : bool) (m : positive) (e : Z) :
  valid_binary B64.prec B64.emax (S754_finite s m e) = true -> (-1074 <= e)%Z.
Proof.
  cbn [valid_binary]. unfold bounded, canonical_mantissa. intros H.
  apply andb_true_iff in H. destruct H as [H _]. apply Z.eqb_eq in H.
  unfold fexp, emin, B64.prec, B64.emax in H. lia.
Qed.

Lemma period_float_value : exists q, B64.to_Q period_float = Some q /\ (q == inject_Z REFRESH_PERIOD)%Q.
Proof. eexists. split; [reflexivity|]. vm_compute. reflexivity. Qed.

Lemma binary64_sleep_duration (t : spec_float) :
  sleep_duration (@PyFloat binary64 t)
  = @PyFloat binary64
      (if SFltb (S754_zero false) (SFsub B64.prec B64.emax period_float t)
             then SFsub B64.prec B64.emax period_float t else S754_zero false).
Proof.
  unfold sleep_duration, py_max. cbn [py_sub to_float].
  change (gtb binary64 (sub binary64 (of_int binary64 REFRESH_PERIOD) t) (of_int binary64 0))
    with (SFltb (S754_zero false) (SFsub B64.prec B64.emax period_float t)).
  destruct (SFltb _ _); reflexivity.
Qed.

Lemma sub_period_nonpos (t : spec_float) (q : Q) :
  B64.to_Q t = Some q -> (inject_Z REFRESH_PERIOD <= q)%Q ->
  SFltb (S754_zero false) (SFsub B64.prec B64.emax period_float t) = false.
Proof.
  intros Hq Hle. destruct period_float_value as [p [Hp Ep]].
  destruct t as [s|s| |s m e]; try discriminate.
  - simpl in Hq. injection Hq as <-. exfalso. revert Hle. vm_compute. intros H. apply H. reflexivity.
  - change period_float with (S754_finite false 8444249301319680 (-49)) in *.
    apply (finite_sub_nonpos Hp Hq). rewrite Ep. exact Hle.
Qed.

Lemma sub_period_pos (t : spec_float) (q : Q) :
  valid_binary B64.prec B64.emax t = true ->
  B64.to_Q t = Some q -> (q < inject_Z REFRESH_PERIOD)%Q ->
  SFltb (S754_zero false) (SFsub B64.prec B64.emax period_float t) = true.
Proof.
  intros Hv Hq Hlt. destruct period_float_value as [p [Hp Ep]].
  destruct t as [s|s| |s m e]; try discriminate.
  - reflexivity.
  - change period_float with (S754_finite false 8444249301319680 (-49)) in *.
    apply (finite_sub_pos Hp Hq); [lia|apply (valid_exponent _ _ _ Hv)|].
    rewrite Ep. exact Hlt.
Qed.

(** ** The first update *)

Lemma SFadd_zero_l (s : bool) (f : spec_float) :
  f <> S754_zero true -> SFadd B64.prec B64.emax (S754_zero s) f = f.
Proof.
  intros Hf. destruct f as [s'|s'| |s' m e]; try reflexivity.
  destruct s, s'; try reflexivity. contradiction Hf. reflexivity.
Qed.

Lemma SFmul_zero_r (x : spec_float) :
  B64.is_finite x = true ->
  exists s, SFmul B64.prec B64.emax x (S754_zero false) = S754_zero s.
Proof.
  destruct x as [s|s| |s m e]; try discriminate; intros _; eexists; reflexivity.
Qed.

Lemma SFdiv_one (f : spec_float) :
  valid_binary B64.prec B64.emax f = true ->
  SFdiv B64.prec B64.emax f unit_float = f.
Proof.
  destruct f as [s|s| |s m e]; intros Hv.
  - destruct s; reflexivity.
  - destruct s; reflexivity.
  - reflexivity.
  - apply div_by_one, Hv.
Qed.

(** In binary64 the first update stores the fraction itself, whatever [int]
    or finite [float] the average was before. *)
Lemma binary64_first_update_finite_seed (seed : pyval binary64) (f : spec_float) :
  finite_seed seed = true ->
  valid_binary B64.prec B64.emax f = true ->
  f <> S754_zero true ->
  next_average 1 seed (@PyFloat binary64 f) = @PyFloat binary64 f.
Proof.
  intros Hseed Hv Hf. unfold next_average. f_equal.
  change (of_int binary64 1) with unit_float.
  change (div binary64) with (SFdiv B64.prec B64.emax).
  rewrite <- (@SFdiv_one f Hv) at 2. f_equal.
  destruct seed as [z|x].
  - cbn [py_mul py_add to_float].
    replace (z * (1 - 1))%Z with 0%Z by lia.
    apply (@SFadd_zero_l false f Hf).
  - cbn [py_mul py_add to_float]. cbn [finite_seed] in Hseed.
    change (of_int binary64 (1 - 1)) with (S754_zero false).
    change (mul binary64) with (SFmul B64.prec B64.emax).
    destruct (@SFmul_zero_r x Hseed) as [s Hs]. rewrite Hs.
    apply (@SFadd_zero_l s f Hf).
Qed.

(** An infinite or NaN average is not recovered from: the first update
    stores NaN. *)
Lemma binary64_first_update_other_seed (seed : pyval binary64) (f : spec_float) :
  finite_seed seed = false ->
  next_average 1 seed (@PyFloat binary64 f) = @PyFloat binary64 S754_nan.
Proof.
  intros Hseed. unfold next_average. f_equal.
  destruct seed as [z|x]; [discriminate|].
  cbn [py_mul py_add to_float]. cbn [finite_seed] in Hseed.
  change (of_int binary64 (1 - 1)) with (S754_zero false).
  change (of_int binary64 1) with unit_float.
  destruct x as [s|s| |s m e]; try discriminate; reflexivity.
Qed.

(** The fraction of a domain is a float in canonical form and not the
    negative zero. *)
Lemma binary64_fraction_canonical (net : nat -> result response)
    (endpoints : list endpoint) :
  valid_binary B64.prec B64.emax (fraction binary64 net endpoints) = true
  /\ fraction binary64 net endpoints <> S754_zero true.
Proof.
  unfold fraction. split; [apply SFdiv_valid|].
  assert (H : has_sign false (fraction binary64 net endpoints)).
  { apply SFdiv_sign; apply of_int_sign; lia. }
  unfold fraction in H. intros E. rewrite E in H. discriminate H.
Qed.

(** * The averages of binary64 *)

(** ** Values *)

Lemma two_power_add (a b : Z) : (2 ^ (a + b) == 2 ^ a * 2 ^ b)%Q.
Proof. apply Qpower_plus. discriminate. Qed.

Lemma two_power_Z (k : Z) : (0 <= k)%Z -> (inject_Z (2 ^ k) == 2 ^ k)%Q.
Proof. intros H. rewrite Zpower_Qpower by exact H. reflexivity. Qed.

Lemma F2Q_shift (m e k : Z) :
  (0 <= k)%Z -> (F2Q (m * 2 ^ k) (e - k) == F2Q m e)%Q.
Proof.
  intros H. unfold F2Q. rewrite inject_Z_mult, two_power_Z by exact H.
  replace e with ((e - k) + k)%Z at 2 by lia. rewrite two_power_add. ring.
Qed.

Lemma F2Q_le (m m' e : Z) : (m <= m')%Z -> (F2Q m e <= F2Q m' e)%Q.
Proof.
  intros H. unfold F2Q. apply (proj2 (Qmult_le_r _ _ _ (two_power_positive e))).
  rewrite <- Zle_Qle. exact H.
Qed.

Lemma F2Q_lt (m m' e : Z) : (m < m')%Z -> (F2Q m e < F2Q m' e)%Q.
Proof.
  intros H. unfold F2Q. apply (proj2 (Qmult_lt_r _ _ _ (two_power_positive e))).
  rewrite <- Zlt_Qlt. exact H.
Qed.

Lemma F2Q_lt_inv (m m' e : Z) : (F2Q m e < F2Q m' e)%Q -> (m < m')%Z.
Proof.
  unfold F2Q. intros H. apply (proj1 (Qmult_lt_r _ _ _ (two_power_positive e))) in H.
  rewrite Zlt_Qlt. exact H.
Qed.

Lemma F2Q_nonneg (m e : Z) : (0 <= m)%Z -> (0 <= F2Q m e)%Q.
Proof.
  intros H. unfold F2Q. apply Qmult_le_0_compat.
  - change 0%Q with (inject_Z 0). rewrite <- Zle_Qle. exact H.
  - apply Qlt_le_weak, two_power_positive.
Qed.

Lemma F2Q_double (m e : Z) : (F2Q (2 * m) e == F2Q m (e + 1))%Q.
Proof.
  unfold F2Q. rewrite inject_Z_mult, two_power_add.
  change (inject_Z 2) with 2%Q. change (2 ^ 1)%Q with 2%Q. ring.
Qed.

(** The order of two values bounds their numbers of digits. *)
Lemma F2Q_le_digits (m M : positive) (e E : Z) :
  (F2Q (Z.pos m) e <= F2Q (Z.pos M) E)%Q ->
  (Zdigits2 (Z.pos m) + e <= Zdigits2 (Z.pos M) + E)%Z.
Proof.
  intros H.
  set (d := Zdigits2 (Z.pos m)). set (D := Zdigits2 (Z.pos M)).
  assert (Hd : (2 ^ (d - 1) <= Z.pos m)%Z).
  { unfold d. rewrite Zdigits2_log2 by lia.
    replace (Z.log2 (Z.pos m) + 1 - 1)%Z with (Z.log2 (Z.pos m)) by lia.
    apply Z.log2_spec. lia. }
  assert (HD : (Z.pos M < 2 ^ D)%Z).
  { unfold D. rewrite Zdigits2_log2 by lia. apply Z.log2_spec. lia. }
  assert (Hd1 : (1 <= d)%Z) by (unfold d; simpl; lia).
  assert (HD1 : (1 <= D)%Z) by (unfold D; simpl; lia).
  assert (Hlow : (2 ^ (d - 1 + e) <= F2Q (Z.pos m) e)%Q).
  { rewrite two_power_add, <- two_power_Z by lia. apply F2Q_le, Hd. }
  assert (Hup : (F2Q (Z.pos M) E < 2 ^ (D + E))%Q).
  { rewrite two_power_add, <- two_power_Z by lia. apply F2Q_lt, HD. }
  assert (Hlt : ((2 # 1) ^ (d - 1 + e) < (2 # 1) ^ (D + E))%Q).
  { eapply Qle_lt_trans; [exact Hlow|]. eapply Qle_lt_trans; [exact H|exact Hup]. }
  apply Qpower_lt_compat_l_inv in Hlt; [lia|reflexivity].
Qed.

(** ** Truncation keeps a lower bound *)

Lemma shr_1_lower (mrs : shr_record) (e : Z) (u : Q) :
  (0 <= shr_m mrs)%Z -> lower mrs e u -> lower (shr_1 mrs) (e + 1) u.
Proof.
  destruct mrs as [m r s]. unfold lower. cbn [shr_m shr_r shr_s].
  intros Hm [Hle Hlt].
  destruct m as [|p|p]; [| |lia].
  - cbn [shr_1 shr_m shr_r shr_s]. split.
    + rewrite <- F2Q_double. exact Hle.
    + intros H. rewrite <- F2Q_double. apply Hlt. exact H.
  - destruct p as [p|p|]; cbn [shr_1 shr_m shr_r shr_s].
    + assert (H : (F2Q (Z.pos p) (e + 1) < u)%Q).
      { rewrite <- F2Q_double. eapply Qlt_le_trans; [|exact Hle].
        apply F2Q_lt. lia. }
      split; [apply Qlt_le_weak, H|intros _; exact H].
    + split.
      * rewrite <- F2Q_double. exact Hle.
      * intros H. rewrite <- F2Q_double. apply Hlt. exact H.
    + assert (H : (F2Q 0 (e + 1) < u)%Q).
      { rewrite <- F2Q_double. eapply Qlt_le_trans; [|exact Hle].
        apply F2Q_lt. lia. }
      split; [apply Qlt_le_weak, H|intros _; exact H].
Qed.

Lemma iter_shr_1_lower (n : positive) (mrs : shr_record) (e : Z) (u : Q) :
  (0 <= shr_m mrs)%Z -> lower mrs e u ->
  lower (iter_pos shr_1 n mrs) (e + Z.pos n) u.
Proof.
  revert mrs e; induction n as [n IH|n IH|]; intros mrs e Hm Hl; simpl.
  - replace (e + Z.pos n~1)%Z with (e + 1 + Z.pos n + Z.pos n)%Z by lia.
    destruct (@shr_1_spec mrs Hm) as [H1 _].
    destruct (@iter_shr_1_spec n _ H1) as [H2 _].
    apply IH; [exact H2|]. apply IH; [exact H1|]. apply shr_1_lower; assumption.
  - replace (e + Z.pos n~0)%Z with (e + Z.pos n + Z.pos n)%Z by lia.
    destruct (@iter_shr_1_spec n _ Hm) as [H2 _].
    apply IH; [exact H2|]. apply IH; assumption.
  - apply shr_1_lower; assumption.
Qed.

Lemma shr_record_of_loc_lower (m e : Z) (l : location) (u : Q) :
  (F2Q m e <= u)%Q -> (l <> loc_Exact -> (F2Q m e < u)%Q) ->
  lower (shr_record_of_loc m l) e u.
Proof.
  intros Hle Hlt. unfold lower. rewrite shr_record_of_loc_m. split; [exact Hle|].
  intros H. apply Hlt. intros ->. discriminate H.
Qed.

Lemma shr_fexp_lower (m e : Z) (l : location) (u : Q) :
  (0 <= m)%Z ->
  (F2Q m e <= u)%Q -> (l <> loc_Exact -> (F2Q m e < u)%Q) ->
  lower (fst (shr_fexp B64.prec B64.emax m e l))
        (snd (shr_fexp B64.prec B64.emax m e l)) u.
Proof.
  intros Hm Hle Hlt. unfold shr_fexp, shr.
  pose proof (@shr_record_of_loc_lower m e l u Hle Hlt) as H.
  destruct (fexp B64.prec B64.emax (Zdigits2 m + e) - e)%Z as [|n|n]; cbn [fst snd].
  - exact H.
  - apply iter_shr_1_lower; [rewrite shr_record_of_loc_m; exact Hm|exact H].
  - exact H.
Qed.

Lemma round_nearest_even_le (mrs : shr_record) :
  (round_nearest_even (shr_m mrs) (loc_of_shr_record mrs) <= shr_m mrs + 1)%Z
  /\ (shr_r mrs || shr_s mrs = false ->
      round_nearest_even (shr_m mrs) (loc_of_shr_record mrs) = shr_m mrs).
Proof.
  destruct mrs as [m r s]. cbn [shr_m shr_r shr_s]. unfold round_nearest_even.
  destruct r, s; cbn [loc_of_shr_record orb]; split;
    try discriminate; try reflexivity; try (destruct (Z.even m); lia).
Qed.

(** ** Rounding does not cross a float *)

Lemma bounded_canonical (M : positive) (E : Z) :
  bounded B64.prec B64.emax M E = true ->
  fexp B64.prec B64.emax (Zdigits2 (Z.pos M) + E) = E /\ (E <= 971)%Z.
Proof.
  unfold bounded, canonical_mantissa. intros H.
  apply andb_true_iff in H. destruct H as [Hc He].
  apply Z.eqb_eq in Hc. apply Z.leb_le in He.
  split; [exact Hc|exact He].
Qed.

Lemma binary_round_aux_at_most (s : bool) (m e : Z) (l : location) (u : Q)
    (M : positive) (E : Z) :
  (0 <= m)%Z -> (e <= fexp B64.prec B64.emax (Zdigits2 m + e))%Z ->
  (F2Q m e <= u)%Q -> (l <> loc_Exact -> (F2Q m e < u)%Q) ->
  bounded B64.prec B64.emax M E = true ->
  (u <= F2Q (Z.pos M) E)%Q ->
  at_most (binary_round_aux B64.prec B64.emax s m e l) (F2Q (Z.pos M) E).
Proof.
  intros Hm He Hle Hlt Hb Hu.
  destruct (@bounded_canonical M E Hb) as [HE HE'].
  unfold binary_round_aux.
  destruct (@shr_fexp_spec m e l Hm He) as [H0 [He' Hd]].
  pose proof (@shr_fexp_lower m e l u Hm Hle Hlt) as [Hlow Hstrict].
  destruct (shr_fexp B64.prec B64.emax m e l) as [mrs' e']. cbn [fst snd] in *.
  (* the exponent of the rounding is not above the one of the bound *)
  assert (HeE : (e' <= E)%Z).
  { rewrite He', <- HE. destruct m as [|p|p]; [| |lia].
    - cbn [Zdigits2] in *. unfold fexp, emin, B64.prec, B64.emax in *. lia.
    - apply fexp_mono. apply F2Q_le_digits.
      eapply Qle_trans; [exact Hle|exact Hu]. }
  (* the bound on the grid of the rounding *)
  set (K := (Z.pos M * 2 ^ (E - e'))%Z).
  assert (HK : (F2Q K e' == F2Q (Z.pos M) E)%Q).
  { unfold K. replace e' with (E - (E - e'))%Z at 2 by lia. apply F2Q_shift. lia. }
  pose proof (round_nearest_even_ge (shr_m mrs') (loc_of_shr_record mrs')) as Hge.
  destruct (round_nearest_even_le mrs') as [Hup Hsame].
  set (m1 := round_nearest_even (shr_m mrs') (loc_of_shr_record mrs')) in *.
  assert (Hm1 : (F2Q m1 e' <= F2Q (Z.pos M) E)%Q).
  { rewrite <- HK. apply F2Q_le.
    destruct (shr_r mrs' || shr_s mrs') eqn:Hrs.
    - assert (Hlt' : (F2Q (shr_m mrs') e' < F2Q K e')%Q).
      { rewrite HK. eapply Qlt_le_trans; [apply Hstrict; reflexivity|exact Hu]. }
      apply F2Q_lt_inv in Hlt'. lia.
    - rewrite (Hsame eq_refl).
      assert (Hle' : (F2Q (shr_m mrs') e' <= F2Q K e')%Q).
      { rewrite HK. eapply Qle_trans; [exact Hlow|exact Hu]. }
      destruct (Z_le_gt_dec (shr_m mrs') K) as [Hk|Hk]; [exact Hk|].
      exfalso. apply (Qle_not_lt _ _ Hle'). apply F2Q_lt. lia. }
  assert (Hd1 : (Zdigits2 (shr_m mrs') <= Zdigits2 m1)%Z)
    by (apply Zdigits2_mono; lia).
  assert (He1 : (e' <= fexp B64.prec B64.emax (Zdigits2 m1 + e'))%Z).
  { rewrite He' at 1. apply fexp_mono. lia. }
  assert (Hm1' : (0 <= m1)%Z) by lia.
  destruct (@shr_fexp_spec m1 e' loc_Exact Hm1' He1) as [H0' [He'' Hd']].
  pose proof (@shr_fexp_lower m1 e' loc_Exact (F2Q m1 e') Hm1' (Qle_refl _)
                ltac:(intros H; contradiction H; reflexivity)) as [Hlow' _].
  destruct (shr_fexp B64.prec B64.emax m1 e' loc_Exact) as [mrs'' e''].
  cbn [fst snd] in *.
  destruct (shr_m mrs'') as [|p|p] eqn:Ep; [exact I| |lia].
  assert (Hp : (F2Q (Z.pos p) e'' <= F2Q (Z.pos M) E)%Q).
  { eapply Qle_trans; [exact Hlow'|exact Hm1]. }
  destruct (e'' <=? B64.emax - B64.prec)%Z eqn:Hb'; [exact Hp|].
  exfalso. apply Z.leb_gt in Hb'.
  apply F2Q_le_digits in Hp.
  cbn [Zdigits2] in Hd', Hp.
  assert (Hcan : fexp B64.prec B64.emax (Z.pos (digits2_pos p) + e'') = e'').
  { replace (Z.pos (digits2_pos p) + e'')%Z with (Zdigits2 m1 + e')%Z by lia.
    symmetry. exact He''. }
  unfold fexp, emin, B64.prec, B64.emax in *. cbn [Zdigits2] in HE. lia.
Qed.

(** ** The operations do not cross a float *)

Lemma F2Q_mult (m m' e e' : Z) : (F2Q m e * F2Q m' e' == F2Q (m * m') (e + e'))%Q.
Proof. unfold F2Q. rewrite inject_Z_mult, two_power_add. ring. Qed.

Lemma F2Q_plus (m m' e : Z) : (F2Q m e + F2Q m' e == F2Q (m + m') e)%Q.
Proof. unfold F2Q. rewrite inject_Z_plus. ring. Qed.

Lemma F2Q_pos (m : positive) (e : Z) : (0 < F2Q (Z.pos m) e)%Q.
Proof.
  unfold F2Q. apply Qmult_lt_0_compat; [reflexivity|apply two_power_positive].
Qed.

Lemma shl_align_spec (p : positive) (e F : Z) :
  let r := shl_align p e F in
  (F2Q (Z.pos (fst r)) (snd r) == F2Q (Z.pos p) e)%Q
  /\ (Zdigits2 (Z.pos (fst r)) + snd r = Zdigits2 (Z.pos p) + e)%Z
  /\ snd r = Z.min e F.
Proof.
  unfold shl_align. destruct (F - e)%Z as [|d|d] eqn:Ed; cbn [fst snd].
  - split; [reflexivity|]. split; lia.
  - split; [reflexivity|]. split; lia.
  - change (Pos.iter xO p d) with (shift_pos d p).
    assert (Hz : Z.pos (shift_pos d p) = (Z.pos p * 2 ^ Z.pos d)%Z).
    { rewrite shift_pos_correct. change (Z.pow_pos 2 d) with (2 ^ Z.pos d)%Z. lia. }
    split; [|split; [|lia]].
    + rewrite Hz. replace F with (e - Z.pos d)%Z by lia. apply F2Q_shift. lia.
    + rewrite !Zdigits2_log2, Hz, Z.log2_mul_pow2 by lia. lia.
Qed.

Lemma binary_round_at_most (s : bool) (p : positive) (e : Z) (M : positive) (E : Z) :
  bounded B64.prec B64.emax M E = true ->
  (F2Q (Z.pos p) e <= F2Q (Z.pos M) E)%Q ->
  at_most (binary_round B64.prec B64.emax s p e) (F2Q (Z.pos M) E).
Proof.
  intros Hb Hle. unfold binary_round.
  set (F := fexp B64.prec B64.emax (Z.pos (digits2_pos p) + e)).
  destruct (shl_align_spec p e F) as [Hv [Hd He]].
  destruct (shl_align p e F) as [mz ez]. cbn [fst snd] in *.
  apply binary_round_aux_at_most with (u := F2Q (Z.pos p) e).
  - lia.
  - rewrite Hd. cbn [Zdigits2]. fold F. lia.
  - rewrite Hv. apply Qle_refl.
  - intros H. contradiction H. reflexivity.
  - exact Hb.
  - exact Hle.
Qed.

Lemma binary_normalize_at_most (m e : Z) (M : positive) (E : Z) :
  (0 <= m)%Z ->
  bounded B64.prec B64.emax M E = true ->
  (F2Q m e <= F2Q (Z.pos M) E)%Q ->
  at_most (binary_normalize B64.prec B64.emax m e false) (F2Q (Z.pos M) E).
Proof.
  intros Hm Hb Hle. destruct m as [|p|p]; [exact I| |lia].
  apply binary_round_at_most; assumption.
Qed.

(** The product of two floats in canonical form is rounded at an exponent
    that is not below its own. *)
Lemma product_exponent (mx my : positive) (ex ey : Z) :
  bounded B64.prec B64.emax mx ex = true ->
  bounded B64.prec B64.emax my ey = true ->
  (ex + ey <= fexp B64.prec B64.emax (Zdigits2 (Z.pos (mx * my)) + (ex + ey)))%Z.
Proof.
  intros Hx Hy.
  destruct (@bounded_canonical mx ex Hx) as [Cx _].
  destruct (@bounded_canonical my ey Hy) as [Cy _].
  assert (Hd : (Zdigits2 (Z.pos mx) + Zdigits2 (Z.pos my) - 1
                <= Zdigits2 (Z.pos (mx * my)))%Z).
  { rewrite !Zdigits2_log2 by lia.
    pose proof (Z.log2_mul_below (Z.pos mx) (Z.pos my) ltac:(lia) ltac:(lia)) as H.
    rewrite Pos2Z.inj_mul. lia. }
  assert (Hx1 : (1 <= Zdigits2 (Z.pos mx))%Z) by (simpl; lia).
  assert (Hy1 : (1 <= Zdigits2 (Z.pos my))%Z) by (simpl; lia).
  unfold fexp, emin, B64.prec, B64.emax in *. lia.
Qed.

Lemma SFmul_at_most (sx sy : bool) (mx my : positive) (ex ey : Z)
    (M : positive) (E : Z) :
  bounded B64.prec B64.emax mx ex = true ->
  bounded B64.prec B64.emax my ey = true ->
  bounded B64.prec B64.emax M E = true ->
  (F2Q (Z.pos mx) ex * F2Q (Z.pos my) ey <= F2Q (Z.pos M) E)%Q ->
  at_most (SFmul B64.prec B64.emax (S754_finite sx mx ex) (S754_finite sy my ey))
          (F2Q (Z.pos M) E).
Proof.
  intros Hx Hy Hb Hle. cbn [SFmul].
  apply binary_round_aux_at_most
    with (u := (F2Q (Z.pos mx) ex * F2Q (Z.pos my) ey)%Q).
  - lia.
  - apply product_exponent; assumption.
  - rewrite F2Q_mult. rewrite Pos2Z.inj_mul. apply Qle_refl.
  - intros H. contradiction H. reflexivity.
  - exact Hb.
  - exact Hle.
Qed.

Lemma SFadd_at_most (mx my : positive) (ex ey : Z) (M : positive) (E : Z) :
  bounded B64.prec B64.emax M E = true ->
  (F2Q (Z.pos mx) ex + F2Q (Z.pos my) ey <= F2Q (Z.pos M) E)%Q ->
  at_most (SFadd B64.prec B64.emax (S754_finite false mx ex) (S754_finite false my ey))
          (F2Q (Z.pos M) E).
Proof.
  intros Hb Hle. cbn [SFadd cond_Zopp].
  set (ez := Z.min ex ey).
  apply binary_normalize_at_most; [lia|exact Hb|].
  rewrite <- F2Q_plus.
  rewrite !shl_align_value by (unfold ez; lia).
  replace ez with (ex - (ex - ez))%Z at 2 by lia.
  replace ez with (ey - (ey - ez))%Z at 4 by lia.
  rewrite !F2Q_shift by (unfold ez; lia). exact Hle.
Qed.

Lemma new_location_exact (nb r : Z) : new_location nb r = loc_Exact -> r = 0%Z.
Proof.
  unfold new_location, new_location_even, new_location_odd.
  destruct (Z.even nb), (Z.eqb_spec r 0); try discriminate; intros _; assumption.
Qed.

Lemma SFdiv_at_most (sx sy : bool) (mx my : positive) (ex ey : Z)
    (M : positive) (E : Z) :
  bounded B64.prec B64.emax M E = true ->
  (F2Q (Z.pos mx) ex <= F2Q (Z.pos M) E * F2Q (Z.pos my) ey)%Q ->
  at_most (SFdiv B64.prec B64.emax (S754_finite sx mx ex) (S754_finite sy my ey))
          (F2Q (Z.pos M) E).
Proof.
  intros Hb Hle. cbn [SFdiv].
  pose proof (SFdiv_core_binary_spec mx my ex ey) as Hspec. cbv zeta in Hspec.
  set (u := (F2Q (Z.pos mx) ex / F2Q (Z.pos my) ey)%Q).
  assert (Hlow : let r := SFdiv_core_binary B64.prec B64.emax (Z.pos mx) ex (Z.pos my) ey in
                 (F2Q (fst (fst r)) (snd (fst r)) <= u)%Q
                 /\ (snd r <> loc_Exact -> (F2Q (fst (fst r)) (snd (fst r)) < u)%Q)).
  { unfold SFdiv_core_binary.
    set (e' := Z.min (fexp B64.prec B64.emax
                        (Zdigits2 (Z.pos mx) + ex - (Zdigits2 (Z.pos my) + ey)))
                     (ex - ey)).
    set (s := (ex - ey - e')%Z).
    assert (Hs : (0 <= s)%Z) by (unfold s, e'; lia).
    assert (Hm' : match s with
                  | Z.pos _ => Z.shiftl (Z.pos mx) s
                  | 0%Z => Z.pos mx
                  | Z.neg _ => 0%Z
                  end = (Z.pos mx * 2 ^ s)%Z).
    { destruct s as [|p|p]; [lia| |lia]. apply Z.shiftl_mul_pow2. lia. }
    rewrite Hm', div_eucl_pair. cbn [fst snd].
    set (a := (Z.pos mx * 2 ^ s)%Z).
    assert (Ha : (F2Q a (e' + ey) == F2Q (Z.pos mx) ex)%Q).
    { unfold a. replace (e' + ey)%Z with (ex - s)%Z by (unfold s; lia).
      apply F2Q_shift, Hs. }
    pose proof (Z.mul_div_le a (Z.pos my) ltac:(lia)) as Hq.
    pose proof (Z.div_mod a (Z.pos my) ltac:(lia)) as Hdm.
    split.
    - unfold u. apply Qle_shift_div_l; [apply F2Q_pos|].
      rewrite F2Q_mult, <- Ha. apply F2Q_le. lia.
    - intros Hloc. unfold u. apply Qlt_shift_div_l; [apply F2Q_pos|].
      rewrite F2Q_mult, <- Ha. apply F2Q_lt.
      assert (a mod Z.pos my <> 0)%Z
        by (intros H0; apply Hloc; rewrite H0;
            unfold new_location, new_location_even, new_location_odd;
            destruct (Z.even (Z.pos my)); reflexivity).
      pose proof (Z.mod_pos_bound a (Z.pos my) ltac:(lia)). lia. }
  cbv zeta in Hlow.
  destruct (SFdiv_core_binary B64.prec B64.emax (Z.pos mx) ex (Z.pos my) ey)
    as [[mz ez] lz].
  cbn [fst snd] in *. destruct Hspec as [Hmz Hez]. destruct Hlow as [Hl1 Hl2].
  apply binary_round_aux_at_most with (u := u); try assumption.
  unfold u. apply Qle_shift_div_r; [apply F2Q_pos|exact Hle].
Qed.

(** ** Floats that are zero or above *)

Lemma nonneg_float_intro (x : spec_float) (R : Q) :
  valid_binary B64.prec B64.emax x = true -> has_sign false x ->
  at_most x R -> (0 <= R)%Q ->
  exists q, nonneg_float x q /\ (q <= R)%Q.
Proof.
  intros Hv Hs Hm HR. destruct x as [s|s| |s m e]; try contradiction.
  - cbn [has_sign] in Hs. subst s. exists 0%Q. split; [reflexivity|exact HR].
  - cbn [has_sign] in Hs. subst s. exists (F2Q (Z.pos m) e).
    split; [|exact Hm]. split; [exact Hv|reflexivity].
Qed.

Lemma nonneg_float_value (x : spec_float) (q : Q) : nonneg_float x q -> (0 <= q)%Q.
Proof.
  destruct x as [[|]|s| |[|] m e]; try contradiction; cbn [nonneg_float].
  - intros ->. apply Qle_refl.
  - intros [_ ->]. apply Qlt_le_weak, F2Q_pos.
Qed.

Lemma nonneg_float_to_Q (x : spec_float) (q : Q) :
  nonneg_float x q -> exists q', B64.to_Q x = Some q' /\ (q' == q)%Q.
Proof.
  destruct x as [[|]|s| |[|] m e]; try contradiction; cbn [nonneg_float].
  - intros H. eexists. split; [reflexivity|symmetry; exact H].
  - intros [_ H]. eexists. split; [reflexivity|symmetry; exact H].
Qed.

(** Integers below [2^53] are converted exactly. *)
Lemma of_int_exact (c : Z) :
  (0 <= c < 2 ^ 53)%Z -> nonneg_float (B64.of_int c) (inject_Z c).
Proof.
  intros [H0 Hc]. destruct c as [|p|p]; [reflexivity| |lia].
  unfold B64.of_int, binary_normalize, binary_round.
  set (F := fexp B64.prec B64.emax (Z.pos (digits2_pos p) + 0)).
  destruct (shl_align_spec p 0 F) as [Hv [Hd He]].
  destruct (shl_align p 0 F) as [mz ez]. cbn [fst snd] in *.
  assert (HD : (Zdigits2 (Z.pos p) <= 53)%Z).
  { rewrite Zdigits2_log2 by lia.
    assert (Z.log2 (Z.pos p) < 53)%Z by (apply Z.log2_lt_pow2; lia). lia. }
  assert (HD1 : (1 <= Zdigits2 (Z.pos p))%Z) by (simpl; lia).
  assert (Hb : bounded B64.prec B64.emax mz ez = true).
  { unfold bounded, canonical_mantissa. apply andb_true_iff.
    cbn [Zdigits2] in *. unfold F, fexp, emin, B64.prec, B64.emax in *.
    split; [apply Z.eqb_eq|apply Z.leb_le]; lia. }
  rewrite (@binary_round_aux_exact false mz ez Hb). cbn [nonneg_float].
  split; [exact Hb|]. rewrite Hv. unfold F2Q. change (2 ^ 0)%Q with 1%Q. ring.
Qed.

Lemma one_value : (F2Q 4503599627370496 (-52) == 1)%Q.
Proof. reflexivity. Qed.

(** ** Product, sum and quotient on the unit interval *)

Lemma SFmul_nonneg (x y : spec_float) (qx qy : Q) :
  nonneg_float x qx -> nonneg_float y qy -> (qx <= 1)%Q ->
  exists q, nonneg_float (SFmul B64.prec B64.emax x y) q /\ (q <= qy)%Q.
Proof.
  intros Hx Hy H1.
  destruct x as [[|]|sx| |[|] mx ex]; try contradiction;
    destruct y as [[|]|sy| |[|] my ey]; try contradiction;
    cbn [nonneg_float] in Hx, Hy.
  - exists 0%Q. split; [reflexivity|]. rewrite Hy. apply Qle_refl.
  - exists 0%Q. split; [reflexivity|]. destruct Hy as [_ ->].
    apply Qlt_le_weak, F2Q_pos.
  - exists 0%Q. split; [reflexivity|]. rewrite Hy. apply Qle_refl.
  - destruct Hx as [Bx Ex], Hy as [By Ey].
    destruct (@nonneg_float_intro
                (SFmul B64.prec B64.emax (S754_finite false mx ex)
                       (S754_finite false my ey))
                (F2Q (Z.pos my) ey)) as [q [Hq Hle]].
    + cbn [SFmul]. apply binary_round_aux_valid; [lia|].
      apply product_exponent; assumption.
    + cbn [SFmul]. apply binary_round_aux_sign.
    + apply SFmul_at_most; try assumption.
      rewrite <- (Qmult_1_l (F2Q (Z.pos my) ey)) at 2.
      apply Qmult_le_compat_r; [rewrite <- Ex; exact H1|].
      apply Qlt_le_weak, F2Q_pos.
    + apply Qlt_le_weak, F2Q_pos.
    + exists q. split; [exact Hq|]. rewrite Ey. exact Hle.
Qed.

Lemma SFadd_nonneg (x y r : spec_float) (qx qy qr : Q) :
  nonneg_float x qx -> nonneg_float y qy -> nonneg_float r qr ->
  (qx + qy <= qr)%Q ->
  exists q, nonneg_float (SFadd B64.prec B64.emax x y) q /\ (q <= qr)%Q.
Proof.
  intros Hx Hy Hr Hle.
  pose proof (nonneg_float_value _ _ Hx) as Px.
  pose proof (nonneg_float_value _ _ Hy) as Py.
  assert (Lx : (qx <= qr)%Q).
  { eapply Qle_trans; [|exact Hle]. rewrite <- (Qplus_0_r qx) at 1.
    apply Qplus_le_compat; [apply Qle_refl|exact Py]. }
  assert (Ly : (qy <= qr)%Q).
  { eapply Qle_trans; [|exact Hle]. rewrite <- (Qplus_0_l qy) at 1.
    apply Qplus_le_compat; [exact Px|apply Qle_refl]. }
  destruct x as [[|]|sx| |[|] mx ex]; try contradiction;
    destruct y as [[|]|sy| |[|] my ey]; try contradiction.
  - exists qx. split; [exact Hx|exact Lx].
  - exists qy. split; [exact Hy|exact Ly].
  - exists qx. split; [exact Hx|exact Lx].
  - cbn [nonneg_float] in Hx, Hy. destruct Hx as [Bx Ex], Hy as [By Ey].
    destruct r as [[|]|sr| |[|] M E]; try contradiction; cbn [nonneg_float] in Hr.
    + exfalso. rewrite Hr, Ex, Ey in Hle.
      apply (Qlt_not_le _ _ (F2Q_pos mx ex)).
      eapply Qle_trans; [|exact Hle]. rewrite <- (Qplus_0_r (F2Q (Z.pos mx) ex)) at 1.
      apply Qplus_le_compat; [apply Qle_refl|apply Qlt_le_weak, F2Q_pos].
    + destruct Hr as [Br Er].
      destruct (@nonneg_float_intro
                  (SFadd B64.prec B64.emax (S754_finite false mx ex)
                         (S754_finite false my ey))
                  (F2Q (Z.pos M) E)) as [q [Hq Hq']].
      * cbn [SFadd]. apply binary_normalize_valid.
      * cbn [SFadd cond_Zopp].
        destruct (Z.pos (fst (shl_align mx ex (Z.min ex ey)))
                  + Z.pos (fst (shl_align my ey (Z.min ex ey))))%Z as [|p|p] eqn:Es;
          [reflexivity|apply binary_round_sign|lia].
      * apply SFadd_at_most; [exact Br|]. rewrite <- Ex, <- Ey, <- Er. exact Hle.
      * apply Qlt_le_weak, F2Q_pos.
      * exists q. split; [exact Hq|]. rewrite Er. exact Hq'.
Qed.

Lemma SFdiv_nonneg (x y : spec_float) (qx qy : Q) :
  nonneg_float x qx -> nonneg_float y qy -> (0 < qy)%Q -> (qx <= qy)%Q ->
  exists q, nonneg_float (SFdiv B64.prec B64.emax x y) q /\ (q <= 1)%Q.
Proof.
  intros Hx Hy Hpos Hle.
  destruct y as [[|]|sy| |[|] my ey]; try contradiction; cbn [nonneg_float] in Hy.
  - exfalso. rewrite Hy in Hpos. apply (Qlt_irrefl _ Hpos).
  - destruct Hy as [By Ey].
    destruct x as [[|]|sx| |[|] mx ex]; try contradiction; cbn [nonneg_float] in Hx.
    + exists 0%Q. split; [reflexivity|discriminate].
    + destruct Hx as [Bx Ex].
      destruct (@nonneg_float_intro
                  (SFdiv B64.prec B64.emax (S754_finite false mx ex)
                         (S754_finite false my ey))
                  (F2Q 4503599627370496 (-52))) as [q [Hq Hq']].
      * apply SFdiv_valid.
      * apply SFdiv_sign; reflexivity.
      * apply SFdiv_at_most; [reflexivity|].
        rewrite one_value, Qmult_1_l, <- Ex, <- Ey. exact Hle.
      * discriminate.
      * exists q. split; [exact Hq|]. rewrite <- one_value. exact Hq'.
Qed.

(** ** The update rule on the unit interval *)

Lemma average_in_unit (c : Z) (p f : spec_float) (qp qf : Q) :
  (1 <= c < 2 ^ 53)%Z ->
  nonneg_float p qp -> (qp <= inject_Z (c - 1))%Q ->
  nonneg_float f qf -> (qf <= 1)%Q ->
  exists q,
    nonneg_float (SFdiv B64.prec B64.emax (SFadd B64.prec B64.emax p f) (B64.of_int c)) q
    /\ (q <= 1)%Q.
Proof.
  intros Hc Hp Hqp Hf Hqf.
  assert (Hint : nonneg_float (B64.of_int c) (inject_Z c)) by (apply of_int_exact; lia).
  destruct (@SFadd_nonneg p f (B64.of_int c) qp qf (inject_Z c) Hp Hf Hint)
    as [qs [Hs Hqs]].
  { assert (Hcc : (inject_Z (c - 1) + 1 == inject_Z c)%Q).
    { change 1%Q with (inject_Z 1). rewrite <- inject_Z_plus.
      replace (c - 1 + 1)%Z with c by lia. reflexivity. }
    rewrite <- Hcc. apply Qplus_le_compat; assumption. }
  apply (@SFdiv_nonneg _ _ qs (inject_Z c) Hs Hint); [|exact Hqs].
  change 0%Q with (inject_Z 0). rewrite <- Zlt_Qlt. lia.
Qed.

Lemma product_in_unit (c : Z) (x : spec_float) (qx : Q) :
  (0 <= c < 2 ^ 53)%Z -> nonneg_float x qx -> (qx <= 1)%Q ->
  exists q, nonneg_float (SFmul B64.prec B64.emax x (B64.of_int c)) q
            /\ (q <= inject_Z c)%Q.
Proof.
  intros Hc Hx Hqx.
  apply (@SFmul_nonneg x (B64.of_int c) qx (inject_Z c) Hx); [|exact Hqx].
  apply of_int_exact, Hc.
Qed.

(** ** The averages of binary64 stay in the unit interval *)

Lemma next_average_in_unit (c : Z) (v r : pyval binary64) :
  (1 <= c < exact_int_bound)%Z -> unit_average v -> unit_fraction r ->
  unit_average (next_average c v r).
Proof.
  intros Hc Hv Hr. destruct r as [z|f]; [contradiction|].
  destruct Hr as [qf [Hf Hqf]].
  destruct v as [z|x]; cbn [unit_average] in Hv.
  - subst z.
    change (next_average c (@PyInt binary64 0) (PyFloat f))
      with (@PyFloat binary64
              (SFdiv B64.prec B64.emax (SFadd B64.prec B64.emax (S754_zero false) f)
                     (B64.of_int c))).
    cbn [unit_average].
    apply (@average_in_unit c (S754_zero false) f 0 qf Hc); try assumption.
    + reflexivity.
    + change 0%Q with (inject_Z 0). rewrite <- Zle_Qle. lia.
  - destruct Hv as [qx [Hx Hqx]].
    change (next_average c (PyFloat x) (PyFloat f))
      with (@PyFloat binary64
              (SFdiv B64.prec B64.emax
                 (SFadd B64.prec B64.emax
                    (SFmul B64.prec B64.emax x (B64.of_int (c - 1))) f)
                 (B64.of_int c))).
    cbn [unit_average].
    destruct (@product_in_unit (c - 1) x qx) as [qp [Hp Hqp]];
      [unfold exact_int_bound in Hc; lia|exact Hx|exact Hqx|].
    apply (@average_in_unit c _ f qp qf Hc); assumption.
Qed.

Lemma fraction_in_unit (net : nat -> result response) (endpoints : list endpoint) :
  endpoints <> [] -> (Z.of_nat (List.length endpoints) < exact_int_bound)%Z ->
  unit_fraction (PyFloat (fraction binary64 net endpoints)).
Proof.
  intros Hne Hlen. cbn [unit_fraction].
  assert (Hk : (up_count binary64 net endpoints <= List.length endpoints)%nat).
  { unfold up_count. rewrite <- (probe_results_length binary64 net endpoints).
    apply filter_length_le. }
  assert (Hn : (0 < List.length endpoints)%nat)
    by (destruct endpoints; [contradiction Hne; reflexivity|simpl; lia]).
  change (fraction binary64 net endpoints)
    with (SFdiv B64.prec B64.emax
            (B64.of_int (Z.of_nat (up_count binary64 net endpoints)))
            (B64.of_int (Z.of_nat (List.length endpoints)))).
  unfold exact_int_bound in Hlen.
  eapply SFdiv_nonneg.
  - apply of_int_exact. lia.
  - apply of_int_exact. lia.
  - change 0%Q with (inject_Z 0). rewrite <- Zlt_Qlt. lia.
  - rewrite <- Zle_Qle. lia.
Qed.

Lemma unit_average_rounds (v : pyval binary64) :
  unit_average v -> exists z, py_round (py_mul v (PyInt 100)) = Ok z.
Proof.
  destruct v as [z|x]; cbn [unit_average].
  - intros _. eexists. reflexivity.
  - intros [qx [Hx Hqx]].
    destruct (@product_in_unit 100 x qx) as [qp [Hp _]];
      [lia|exact Hx|exact Hqx|].
    destruct (nonneg_float_to_Q _ _ Hp) as [q' [Hq' _]].
    change (py_mul (PyFloat x) (PyInt 100))
      with (@PyFloat binary64 (SFmul B64.prec B64.emax x (B64.of_int 100))).
    unfold py_round. change (to_Q binary64) with B64.to_Q. rewrite Hq'.
    eexists. reflexivity.
Qed.

Lemma zip_update_in_unit (c : Z) (averages : dict (pyval binary64))
    (rs : list (pyval binary64)) :
  (1 <= c < exact_int_bound)%Z ->
  Forall unit_average (values averages) -> Forall unit_fraction rs ->
  Forall unit_average (values (zip_update c averages rs)).
Proof.
  intros Hc. revert rs; induction averages as [|[k v] averages IH]; intros rs Ha Hr.
  - constructor.
  - destruct rs as [|r rs]; [constructor|].
    inversion Ha as [|? ? Hv Ha']; subst. inversion Hr as [|? ? Hr1 Hr']; subst.
    cbn. constructor; [apply next_average_in_unit; assumption|].
    apply (IH rs Ha' Hr').
Qed.

Lemma cycle_fractions_in_unit (net : nat -> nat -> result response) (md : monitored) :
  domains_ok md ->
  sizes_ok md ->
  Forall unit_fraction (cycle_fractions binary64 net md).
Proof.
  intros [_ Hne] Hlen. unfold sizes_ok in Hlen. unfold cycle_fractions.
  apply Forall_forall. intros r Hr. apply in_map_iff in Hr.
  destruct Hr as [[i eps] [<- Hin]]. apply enumerate_In in Hin.
  rewrite Forall_forall in Hne, Hlen.
  apply fraction_in_unit; [apply Hne, Hin|apply Hlen, Hin].
Qed.

Lemma initial_state_in_unit (md : monitored) :
  Forall unit_average (values (domain_availability_averages (initial_state binary64 md))).
Proof.
  unfold initial_state, values. cbn [domain_availability_averages].
  rewrite map_map. apply Forall_forall. intros v Hv.
  apply in_map_iff in Hv. destruct Hv as [d [<- _]]. reflexivity.
Qed.

(** In binary64 the loop never raises on monitored domains, as long as
    the cycle counter and the sizes of the domains are below [2^53]. *)
Lemma binary64_main_loop (md : monitored) (inputs : list (cycle_input binary64))
    (c : Z) (averages : dict (pyval binary64)) :
  domains_ok md -> keys averages = keys md ->
  sizes_ok md ->
  Forall unit_average (values averages) ->
  (0 <= c)%Z -> (c + Z.of_nat (List.length inputs) < exact_int_bound)%Z ->
  exists tr,
    main_loop md {| domain_availability_averages := averages;
                    monitoring_cycle := c |} inputs
    = (tr, Ok {| domain_availability_averages := averages_after md c averages inputs;
                 monitoring_cycle := (c + Z.of_nat (List.length inputs))%Z |})
    /\ Forall unit_average (values (averages_after md c averages inputs)).
Proof.
  intros Hok Hkeys Hsize. revert c averages Hkeys.
  induction inputs as [|input inputs IH]; intros c averages Hkeys Hunit Hc Hbound.
  - exists []. simpl. rewrite Z.add_0_r. split; [reflexivity|exact Hunit].
  - cbn [List.length] in Hbound.
    assert (Hnext : Forall unit_average
                      (values (zip_update (c + 1) averages
                                 (cycle_fractions binary64 (net input) md)))).
    { apply zip_update_in_unit; [lia|exact Hunit|].
      apply cycle_fractions_in_unit; assumption. }
    cbn [main_loop]. rewrite cycle_eq; [|exact Hok|exact Hkeys|exact Hc].
    cbn [domain_availability_averages monitoring_cycle].
    rewrite report_lines_ok.
    + destruct (IH (c + 1)%Z
                   (zip_update (c + 1) averages (cycle_fractions binary64 (net input) md)))
        as [tr [Htr Hfin]]; [|exact Hnext|lia|lia|].
      * rewrite zip_update_keys; [exact Hkeys|].
        rewrite cycle_fractions_length. symmetry. apply (keys_eq_length _ _ Hkeys).
      * rewrite bind_ok, Htr. cbn [fst snd averages_after List.length].
        replace (c + Z.of_nat (S (List.length inputs)))%Z
          with (c + 1 + Z.of_nat (List.length inputs))%Z by lia.
        eexists. split; [reflexivity|exact Hfin].
    + intros item Hin. apply unit_average_rounds.
      rewrite Forall_forall in Hnext. apply Hnext.
      unfold values. apply in_map. exact Hin.
Qed.

(** From the averages [main] starts from. *)
Lemma binary64_loop_from_start (md : monitored) (inputs : list (cycle_input binary64)) :
  domains_ok md -> sizes_ok md ->
  (Z.of_nat (List.length inputs) < exact_int_bound)%Z ->
  exists tr st,
    main_loop md (initial_state binary64 md) inputs = (tr, Ok st)
    /\ monitoring_cycle st = Z.of_nat (List.length inputs)
    /\ keys (domain_availability_averages st) = keys md
    /\ Forall unit_average (values (domain_availability_averages st)).
Proof.
  intros Hok Hsize Hlen.
  destruct (@binary64_main_loop md inputs 0
              (domain_availability_averages (initial_state binary64 md))
              Hok (initial_state_keys binary64 md) Hsize (initial_state_in_unit md)
              (Z.le_refl 0) Hlen) as [tr [Hrun Hunit]].
  exists tr. eexists. split; [exact Hrun|].
  cbn [monitoring_cycle domain_availability_averages].
  split; [reflexivity|]. split; [|exact Hunit].
  rewrite averages_after_keys.
  - apply initial_state_keys.
  - apply keys_eq_length, initial_state_keys.
Qed.

(** The first update pass in binary64, from any finite averages: every
    domain is stored the fraction of the cycle. *)
Lemma binary64_first_pass (net : nat -> nat -> result response) (md : monitored)
    (averages : dict (pyval binary64)) :
  domains_ok md -> keys averages = keys md ->
  Forall (fun v => finite_seed v = true) (values averages) ->
  exists tr averages',
    update_domains_availability net averages 1 md = (tr, Ok averages')
    /\ forall i d eps,
         nth_error md i = Some (d, eps) ->
         dict_get averages' d = Some (PyFloat (fraction binary64 (net i) eps)).
Proof.
  intros Hok Hkeys Hfin.
  rewrite update_domains_availability_zip; [|exact Hok|exact Hkeys|discriminate].
  eexists. eexists. split; [reflexivity|].
  assert (Hlen : List.length (cycle_fractions binary64 net md) = List.length averages).
  { rewrite cycle_fractions_length. symmetry. apply (keys_eq_length _ _ Hkeys). }
  intros i d eps Hi.
  destruct (nth_error_same_keys averages md i Hkeys Hi) as [v Hv].
  apply dict_get_nth with (i := i).
  - rewrite zip_update_keys by exact Hlen. rewrite Hkeys. apply Hok.
  - rewrite (zip_update_nth 1 _ _ i Hv (cycle_fractions_nth binary64 net md i Hi)).
    f_equal. f_equal.
    destruct (binary64_fraction_canonical (net i) eps) as [Hvalid Hnz].
    apply binary64_first_update_finite_seed; [|exact Hvalid|exact Hnz].
    rewrite Forall_forall in Hfin. apply Hfin.
    apply nth_error_In in Hv. apply (in_map snd) in Hv. exact Hv.
Qed.

Lemma initial_state_finite (md : monitored) :
  Forall (fun v => finite_seed v = true)
         (values (domain_availability_averages (initial_state binary64 md))).
Proof.
  unfold initial_state, values. cbn [domain_availability_averages].
  rewrite map_map. apply Forall_forall. intros v Hv.
  apply in_map_iff in Hv. destruct Hv as [d [<- _]]. reflexivity.
Qed.

(** C1, as the code has it.  The first update (cycle 1) stores the
    fraction itself in binary64, the arithmetic of the program: the update
    rule returns the fraction for every previous average that is an [int]
    or a finite [float], and the first update pass over averages that are
    finite, as the zeros [main] starts from are, stores for every domain
    the fraction of the cycle; from an infinite or NaN average it stores
    NaN.  The average stored after cycles [1..N] is the arithmetic mean of
    the [N] fractions fed when the rule is evaluated in exact rational
    arithmetic, where the first update stores the fraction from any average
    at all.  (In binary64 the stored average is not the mean in general:
    see [binary64_average_is_not_the_mean].) *)
Theorem average_first_update_and_exact_mean :
  (forall (seed : pyval binary64) (f : spec_float),
      finite_seed seed = true ->
      valid_binary B64.prec B64.emax f = true ->
      f <> S754_zero true ->
      next_average 1 seed (@PyFloat binary64 f) = @PyFloat binary64 f)
  /\ (forall (net : nat -> nat -> result response) (md : monitored)
        (averages : dict (pyval binary64)),
        domains_ok md -> keys averages = keys md ->
        Forall (fun v => finite_seed v = true) (values averages) ->
        exists tr averages',
          update_domains_availability net averages 1 md = (tr, Ok averages')
          /\ forall i d eps,
               nth_error md i = Some (d, eps) ->
               dict_get averages' d = Some (PyFloat (fraction binary64 (net i) eps)))
  /\ (forall md : monitored,
        Forall (fun v => finite_seed v = true)
               (values (domain_availability_averages (initial_state binary64 md))))
  /\ (forall (seed : pyval binary64) (f : spec_float),
        finite_seed seed = false ->
        next_average 1 seed (@PyFloat binary64 f) = @PyFloat binary64 S754_nan)
  /\ (forall (md : monitored) (st0 : state exact) (inputs : list (cycle_input exact)),
        domains_ok md ->
        keys (domain_availability_averages st0) = keys md ->
        monitoring_cycle st0 = 0%Z ->
        inputs <> [] ->
        exists tr st,
          main_loop md st0 inputs = (tr, Ok st)
          /\ forall i d eps,
               nth_error md i = Some (d, eps) ->
               dict_get (domain_availability_averages st) d
               = Some (@PyFloat exact (mean (fractions_fed i eps inputs)))
               /\ (forall input,
                     inputs = [input] ->
                     dict_get (domain_availability_averages st) d
                     = Some (@PyFloat exact (fraction exact (net input i) eps)))).
Proof.
  split; [exact binary64_first_update_finite_seed|].
  split; [exact binary64_first_pass|].
  split; [exact initial_state_finite|].
  split; [exact binary64_first_update_other_seed|].
  intros md st0 inputs Hok Hkeys Hc Hne.
  destruct (exact_loop_mean st0 Hok Hkeys Hc Hne) as [tr [st [Hrun [_ Hmean]]]].
  exists tr, st. split; [exact Hrun|].
  intros i d eps Hi. split; [apply (Hmean i d eps Hi)|].
  intros input ->. rewrite (Hmean i d eps Hi).
  unfold fractions_fed. simpl map. rewrite mean_singleton. reflexivity.
Qed.
(** C5, as the code has it: in exact rational arithmetic the update rule
    is the arithmetic mean over the whole history, so two runs whose
    fractions for a domain are the same values in a different order end
    with the same average for that domain.  (In binary64 the order
    matters: see [binary64_average_depends_on_order].) *)
Theorem exact_average_order_independent (md : monitored) (st0 st0' : state exact)
    (inputs inputs' : list (cycle_input exact)) (i : nat) (d : string)
    (eps : list endpoint) :
  domains_ok md ->
  keys (domain_availability_averages st0) = keys md ->
  keys (domain_availability_averages st0') = keys md ->
  monitoring_cycle st0 = 0%Z ->
  monitoring_cycle st0' = 0%Z ->
  inputs <> [] ->
  nth_error md i = Some (d, eps) ->
  Permutation (fractions_fed i eps inputs) (fractions_fed i eps inputs') ->
  exists tr tr' st st',
    main_loop md st0 inputs = (tr, Ok st)
    /\ main_loop md st0' inputs' = (tr', Ok st')
    /\ dict_get (domain_availability_averages st) d
       = Some (@PyFloat exact (mean (fractions_fed i eps inputs)))
    /\ dict_get (domain_availability_averages st') d
       = dict_get (domain_availability_averages st) d.
Proof.
  intros Hok Hkeys Hkeys' Hc Hc' Hne Hi Hperm.
  assert (Hne' : inputs' <> []).
  { intros ->. apply Permutation_length in Hperm. unfold fractions_fed in Hperm.
    rewrite !length_map in Hperm. destruct inputs; [contradiction Hne; reflexivity|].
    discriminate. }
  destruct (exact_loop_mean st0 Hok Hkeys Hc Hne) as [tr [st [Hrun [_ Hmean]]]].
  destruct (exact_loop_mean st0' Hok Hkeys' Hc' Hne') as [tr' [st' [Hrun' [_ Hmean']]]].
  exists tr, tr', st, st'. repeat split; [exact Hrun|exact Hrun'|apply (Hmean i d eps Hi)|].
  rewrite (Hmean i d eps Hi), (Hmean' i d eps Hi), (mean_permutation Hperm).
  reflexivity.
Qed.

(** ** Scheduler *)

(** Probes log errors and nothing else; in particular they never sleep. *)
Lemma check_endpoint_status_trace (A : arith) (request : result response)
    (ep : request_parameters_t) :
  Forall (fun ev : event A => exists msg, ev = Log ERROR msg)
         (fst (check_endpoint_status A request ep)).
Proof.
  destruct request as [resp|e]; [constructor|].
  destruct e; simpl; repeat constructor; eexists; reflexivity.
Qed.

Lemma Forall_concat_map {X Y} (P : Y -> Prop) (f : X -> list Y) (l : list X) :
  (forall x, Forall P (f x)) -> Forall P (List.concat (map f l)).
Proof.
  intros H. induction l as [|x l IH]; simpl; [constructor|].
  apply Forall_app. split; [apply H|exact IH].
Qed.

Lemma cycle_probe_trace_logs (A : arith) (net : nat -> nat -> result response)
    (md : monitored) :
  Forall (fun ev : event A => exists msg, ev = Log ERROR msg)
         (cycle_probe_trace A net md).
Proof.
  unfold cycle_probe_trace. apply Forall_concat_map. intros [i eps].
  unfold probe_trace. apply Forall_concat_map. intros [j ep].
  apply check_endpoint_status_trace.
Qed.

(** The sleep of a cycle in exact arithmetic. *)
Lemma exact_sleep_duration (t : Qc) :
  sleep_duration (@PyFloat exact t)
  = @PyFloat exact (if Qclt_le_dec (Q2Qc 0) (of_int exact REFRESH_PERIOD - t)%Qc
                    then (of_int exact REFRESH_PERIOD - t)%Qc else Q2Qc 0).
Proof.
  unfold sleep_duration, py_max. cbn [py_sub to_float].
  change (gtb exact) with (fun x y : Qc => if Qclt_le_dec y x then true else false).
  change (sub exact) with Qcminus.
  change (of_int exact 0) with (Q2Qc 0).
  cbv beta.
  destruct (Qclt_le_dec (Q2Qc 0) (of_int exact REFRESH_PERIOD - t)%Qc); reflexivity.
Qed.

(** What a cycle on the monitored domains amounts to, in any arithmetic:
    it updates the averages side by side, reports them and sleeps, unless
    rounding an average for the report raises, which ends the cycle before
    the report and the sleep. *)
Lemma cycle_outcome (A : arith) (md : monitored) (st : state A)
    (input : cycle_input A) :
  domains_ok md -> keys (domain_availability_averages st) = keys md ->
  (0 <= monitoring_cycle st)%Z ->
  let averages := zip_update (monitoring_cycle st + 1) (domain_availability_averages st)
                    (cycle_fractions A (net input) md) in
  match cycle md st input with
  | (tr, Ok st') =>
      st' = {| domain_availability_averages := averages;
               monitoring_cycle := (monitoring_cycle st + 1)%Z |}
      /\ exists probes,
           tr = probes
                ++ [Log INFO (String.concat newline (map (@report_text A) averages));
                    Sleep (sleep_duration
                             (PyFloat (sub A (monotonic_end input)
                                             (monotonic_start input))))]
           /\ Forall (fun ev : event A => exists msg, ev = Log ERROR msg) probes
  | (tr, Raise e) =>
      round_error e /\ Forall (fun ev : event A => exists msg, ev = Log ERROR msg) tr
  end.
Proof.
  intros Hok Hkeys Hc averages. rewrite cycle_eq by assumption. fold averages.
  destruct (report_lines averages) as [lines|e] eqn:Hrep.
  - split; [reflexivity|]. exists (cycle_probe_trace A (net input) md).
    split; [|apply cycle_probe_trace_logs].
    rewrite (report_lines_text _ Hrep). reflexivity.
  - split; [apply (report_lines_raise _ Hrep)|apply cycle_probe_trace_logs].
Qed.

(** In exact arithmetic a cycle on the monitored domains always
    completes. *)
Lemma exact_cycle_returns (md : monitored) (st : state exact)
    (input : cycle_input exact) :
  domains_ok md -> keys (domain_availability_averages st) = keys md ->
  (0 <= monitoring_cycle st)%Z ->
  exists tr st', cycle md st input = (tr, Ok st').
Proof.
  intros Hok Hkeys Hc.
  rewrite cycle_eq; [|exact Hok|exact Hkeys|exact Hc].
  rewrite report_lines_ok by (intros item _; apply exact_py_round).
  eexists. eexists. reflexivity.
Qed.

(** The sleep of a cycle in exact arithmetic, by cases on the elapsed
    time. *)
Lemma exact_sleep_cases (t : Qc) :
  ((t < of_int exact REFRESH_PERIOD)%Qc ->
   sleep_duration (@PyFloat exact t)
   = @PyFloat exact (of_int exact REFRESH_PERIOD - t)%Qc)
  /\ ((of_int exact REFRESH_PERIOD <= t)%Qc ->
      sleep_duration (@PyFloat exact t) = @PyFloat exact (Q2Qc 0)).
Proof.
  rewrite exact_sleep_duration.
  set (P := of_int exact REFRESH_PERIOD).
  assert (Hlt : (t < P <-> Q2Qc 0 < P - t)%Qc) by apply Qclt_minus_iff.
  split; intros Ht.
  - destruct (Qclt_le_dec (Q2Qc 0) (P - t)%Qc) as [_|Hle]; [reflexivity|].
    exfalso. apply (Qcle_not_lt _ _ Hle). apply Hlt, Ht.
  - destruct (Qclt_le_dec (Q2Qc 0) (P - t)%Qc) as [Hpos|_]; [|reflexivity].
    exfalso. apply (Qcle_not_lt _ _ Ht). apply Hlt, Hpos.
Qed.

(** The sleep of a cycle in binary64, by cases on the value of the elapsed
    time: nothing when it is at least the period, and otherwise the
    difference binary64 gives, which is above zero. *)
Lemma binary64_sleep_cases (t : spec_float) (q : Q) :
  B64.to_Q t = Some q ->
  ((inject_Z REFRESH_PERIOD <= q)%Q ->
   sleep_duration (@PyFloat binary64 t) = @PyFloat binary64 (S754_zero false))
  /\ ((q < inject_Z REFRESH_PERIOD)%Q ->
      valid_binary B64.prec B64.emax t = true ->
      sleep_duration (@PyFloat binary64 t)
      = @PyFloat binary64 (SFsub B64.prec B64.emax period_float t)
      /\ SFltb (S754_zero false) (SFsub B64.prec B64.emax period_float t) = true).
Proof.
  intros Hq. rewrite binary64_sleep_duration. split.
  - intros Hle. rewrite (sub_period_nonpos _ Hq Hle). reflexivity.
  - intros Hlt Hv. rewrite (sub_period_pos _ Hv Hq Hlt). split; reflexivity.
Qed.

(** An elapsed time that is an infinity or a NaN: the sleep is zero unless
    the clock ran backwards without bound. *)
Lemma binary64_sleep_not_finite :
  sleep_duration (@PyFloat binary64 (S754_infinity false))
  = @PyFloat binary64 (S754_zero false)
  /\ sleep_duration (@PyFloat binary64 S754_nan) = @PyFloat binary64 (S754_zero false)
  /\ sleep_duration (@PyFloat binary64 (S754_infinity true))
     = @PyFloat binary64 (S754_infinity false).
Proof. repeat split; rewrite binary64_sleep_duration; reflexivity. Qed.

(** C6: a cycle whose probing and update phase is measured to take [t]
    (the difference of the two clock readings, in the arithmetic of the
    program) ends with the report and exactly one sleep, of duration
    [max(0.0, P - t)] for the period [P = 15]; then the counter has
    advanced and the update pass of the next cycle returns, whatever the
    network does.  The only way for a cycle not to reach its sleep is an
    exception of [round] on an average that is not finite; exact
    arithmetic excludes it, and so does binary64 as long as the cycle
    counter and the numbers of endpoints are below [2^53]: from the
    averages [main] starts from, and from any averages in the unit
    interval, the loop runs all the cycles it is given.  In binary64, when
    the value of [t] is at least [P] the sleep is [0.0], and when it is
    below [P] the sleep is the binary64 difference [P - t], a number above
    zero; the difference of two clock readings is a float in canonical
    form.  In exact arithmetic the sleep is [P - t] when [t < P] and zero
    when [t >= P]. *)
Theorem sleep_is_rest_of_period (A : arith) (md : monitored) (st : state A)
    (input : cycle_input A) :
  domains_ok md ->
  keys (domain_availability_averages st) = keys md ->
  (0 <= monitoring_cycle st)%Z ->
  let t := sub A (monotonic_end input) (monotonic_start input) in
  match cycle md st input with
  | (tr, Ok st') =>
      (exists probes report,
         tr = probes ++ [Log INFO report; Sleep (sleep_duration (PyFloat t))]
         /\ Forall (fun ev : event A => exists msg, ev = Log ERROR msg) probes)
      /\ monitoring_cycle st' = (monitoring_cycle st + 1)%Z
      /\ (forall net', exists tr' averages',
            update_domains_availability net' (domain_availability_averages st')
              (monitoring_cycle st' + 1) md
            = (tr', Ok averages'))
  | (tr, Raise e) =>
      round_error e /\ Forall (fun ev : event A => exists msg, ev = Log ERROR msg) tr
  end
  /\ sleep_duration (PyFloat t)
     = py_max (PyFloat (of_int A 0)) (py_sub (PyInt REFRESH_PERIOD) (PyFloat t))
  /\ (forall (x : spec_float) (q : Q),
        B64.to_Q x = Some q ->
        ((inject_Z REFRESH_PERIOD <= q)%Q ->
         sleep_duration (@PyFloat binary64 x) = @PyFloat binary64 (S754_zero false))
        /\ ((q < inject_Z REFRESH_PERIOD)%Q ->
            valid_binary B64.prec B64.emax x = true ->
            sleep_duration (@PyFloat binary64 x)
            = @PyFloat binary64 (SFsub B64.prec B64.emax period_float x)
            /\ SFltb (S754_zero false) (SFsub B64.prec B64.emax period_float x) = true))
  /\ (forall reading reading' : spec_float,
        valid_binary B64.prec B64.emax reading = true ->
        valid_binary B64.prec B64.emax reading' = true ->
        valid_binary B64.prec B64.emax (sub binary64 reading' reading) = true)
  /\ (forall x : Qc,
        ((x < of_int exact REFRESH_PERIOD)%Qc ->
         sleep_duration (@PyFloat exact x)
         = @PyFloat exact (of_int exact REFRESH_PERIOD - x)%Qc)
        /\ ((of_int exact REFRESH_PERIOD <= x)%Qc ->
            sleep_duration (@PyFloat exact x) = @PyFloat exact (Q2Qc 0)))
  /\ (forall (st0 : state exact) (input0 : cycle_input exact),
        keys (domain_availability_averages st0) = keys md ->
        (0 <= monitoring_cycle st0)%Z ->
        exists tr st', cycle md st0 input0 = (tr, Ok st'))
  /\ (forall (st0 : state binary64) (inputs : list (cycle_input binary64)),
        keys (domain_availability_averages st0) = keys md ->
        Forall unit_average (values (domain_availability_averages st0)) ->
        sizes_ok md ->
        (0 <= monitoring_cycle st0)%Z ->
        (monitoring_cycle st0 + Z.of_nat (List.length inputs) < exact_int_bound)%Z ->
        exists tr st',
          main_loop md st0 inputs = (tr, Ok st')
          /\ Forall unit_average (values (domain_availability_averages st')))
  /\ Forall unit_average
            (values (domain_availability_averages (initial_state binary64 md))).
Proof.
  intros Hok Hkeys Hc t.
  split; [|split; [reflexivity|split; [|split; [|split; [|split; [|split]]]]]].
  - pose proof (cycle_outcome st input Hok Hkeys Hc) as H. cbv zeta in H.
    destruct (cycle md st input) as [tr [st'|e]]; [|exact H].
    destruct H as [-> [probes [-> Hp]]].
    split; [|split].
    + exists probes. eexists. split; [reflexivity|exact Hp].
    + reflexivity.
    + intros net'. cbn [domain_availability_averages monitoring_cycle].
      rewrite update_domains_availability_zip; [|exact Hok| |lia].
      * eexists. eexists. reflexivity.
      * rewrite zip_update_keys; [exact Hkeys|].
        rewrite cycle_fractions_length. symmetry. apply (keys_eq_length _ _ Hkeys).
  - intros x q Hq. apply (binary64_sleep_cases _ Hq).
  - intros reading reading' Hv Hv'. apply (SFsub_valid _ _ Hv' Hv).
  - exact exact_sleep_cases.
  - intros st0 input0 Hkeys0 Hc0. apply (exact_cycle_returns st0 input0 Hok Hkeys0 Hc0).
  - intros [averages c] inputs Hkeys0 Hunit Hsize Hc0 Hbound.
    cbn [domain_availability_averages monitoring_cycle] in *.
    destruct (@binary64_main_loop md inputs c averages Hok Hkeys0 Hsize Hunit Hc0 Hbound)
      as [tr [Hrun Hfin]].
    exists tr. eexists. split; [exact Hrun|exact Hfin].
  - apply initial_state_in_unit.
Qed.
(** The same sleep in binary64 on some readings: a cycle of one second is
    followed by a sleep of 14 seconds, a cycle of twenty seconds by a sleep
    of zero; the difference is the rounded one, so that a cycle measured
    to take [2^-60] seconds is followed by a sleep of the whole period. *)
Lemma binary64_sleep_examples :
  sleep_duration (py_sub (@PyFloat binary64 (of_int binary64 1))
                         (PyFloat (of_int binary64 0)))
  = PyFloat (of_int binary64 14)
  /\ sleep_duration (py_sub (@PyFloat binary64 (of_int binary64 20))
                            (PyFloat (of_int binary64 0)))
     = @PyFloat binary64 (S754_zero false)
  /\ sleep_duration (@PyFloat binary64 (S754_finite false 4503599627370496 (-112)))
     = @PyFloat binary64 period_float.
Proof. repeat split; reflexivity. Qed.

(** ** The domains that carry an average *)

Lemma In_fst_combine {X Y} (l : list X) (l' : list Y) (x : X) :
  In x (map fst (combine l l')) -> In x l.
Proof.
  revert l'; induction l as [|a l IH]; intros l' H; [contradiction|].
  destruct l' as [|b l']; [contradiction|]. simpl in H.
  destruct H as [H|H]; [left; exact H|right; apply (IH l' H)].
Qed.

(** C10: an update pass never inserts a key into the averages nor
    deletes one; it assigns to the key of every monitored domain the value
    of the update rule, computed from the average that key held and the
    fraction of the domain in this cycle, and to no other key; on the
    averages of the monitored domains it always returns.  So a cycle, in
    any arithmetic, either ends with a report that has one line for each
    domain known at startup, in their order, and with averages for exactly
    these domains, or raises an exception of [round] before reporting; and
    after any number of cycles the domains that carry an average are the
    domains known at startup.  In exact arithmetic no cycle raises, and in
    binary64 none does as long as the cycle counter and the numbers of
    endpoints are below [2^53]. *)
Theorem averages_keep_startup_domains (A : arith) (md : monitored) :
  domains_ok md ->
  (forall net averages c tr averages',
      update_domains_availability (A := A) net averages c md = (tr, Ok averages') ->
      keys averages' = keys averages
      /\ (forall k, ~ In k (keys md) -> dict_get averages' k = dict_get averages k)
      /\ (forall i d eps,
            nth_error md i = Some (d, eps) ->
            exists previous,
              dict_get averages d = Some previous
              /\ dict_get averages' d
                 = Some (next_average c previous (PyFloat (fraction A (net i) eps)))))
  /\ (forall net averages c,
        c <> 0%Z -> keys averages = keys md ->
        exists tr averages',
          update_domains_availability (A := A) net averages c md = (tr, Ok averages')
          /\ keys averages' = keys md)
  /\ keys (domain_availability_averages (initial_state A md)) = keys md
  /\ (forall (st : state A) (input : cycle_input A),
        keys (domain_availability_averages st) = keys md ->
        (0 <= monitoring_cycle st)%Z ->
        match cycle md st input with
        | (tr, Ok st') =>
            keys (domain_availability_averages st') = keys md
            /\ exists probes duration,
                 tr = probes
                      ++ [Log INFO (String.concat newline
                                      (map (@report_text A)
                                           (domain_availability_averages st')));
                          Sleep duration]
                 /\ Forall (fun ev : event A => exists msg, ev = Log ERROR msg) probes
        | (tr, Raise e) =>
            round_error e
            /\ Forall (fun ev : event A => exists msg, ev = Log ERROR msg) tr
        end)
  /\ (forall inputs,
        match snd (main_loop md (initial_state A md) inputs) with
        | Ok st => keys (domain_availability_averages st) = keys md
        | Raise e => round_error e
        end)
  /\ (forall inputs : list (cycle_input exact),
        exists tr st,
          main_loop md (initial_state exact md) inputs = (tr, Ok st)
          /\ keys (domain_availability_averages st) = keys md)
  /\ (forall inputs : list (cycle_input binary64),
        sizes_ok md ->
        (Z.of_nat (List.length inputs) < exact_int_bound)%Z ->
        exists tr st,
          main_loop md (initial_state binary64 md) inputs = (tr, Ok st)
          /\ keys (domain_availability_averages st) = keys md).
Proof.
  intros Hok. pose proof Hok as [Hnd Hne].
  split; [|split; [|split; [|split; [|split; [|split]]]]].
  - intros net averages c tr averages' H.
    pose proof (update_pass_assigns net averages c Hok H) as Hassign.
    rewrite update_domains_availability_eq in H by exact Hne.
    injection H as _ H. split; [|split].
    + apply update_averages_keys with (1 := H).
    + intros k Hk. apply update_averages_other with (1 := H).
      intros Hin. apply Hk. apply In_fst_combine with (1 := Hin).
    + exact Hassign.
  - intros net averages c Hc Hkeys.
    rewrite update_domains_availability_zip by assumption.
    eexists. eexists. split; [reflexivity|].
    rewrite zip_update_keys; [exact Hkeys|].
    rewrite cycle_fractions_length. symmetry. apply (keys_eq_length _ _ Hkeys).
  - apply initial_state_keys.
  - intros st input Hkeys Hc.
    pose proof (cycle_outcome st input Hok Hkeys Hc) as H. cbv zeta in H.
    destruct (cycle md st input) as [tr [st'|e]]; [|exact H].
    destruct H as [-> [probes [-> Hp]]]. cbn [domain_availability_averages].
    split.
    + rewrite zip_update_keys; [exact Hkeys|].
      rewrite cycle_fractions_length. symmetry. apply (keys_eq_length _ _ Hkeys).
    + exists probes. eexists. split; [reflexivity|exact Hp].
  - intros inputs.
    pose proof (main_loop_state inputs
                  (domain_availability_averages (initial_state A md))
                  (c := 0%Z) Hok (initial_state_keys A md) (Z.le_refl 0)) as H.
    change {| domain_availability_averages :=
                domain_availability_averages (initial_state A md);
              monitoring_cycle := 0 |} with (initial_state A md) in H.
    destruct (snd (main_loop md (initial_state A md) inputs)) as [st|e]; [|exact H].
    subst st. cbn [domain_availability_averages].
    rewrite averages_after_keys.
    + apply initial_state_keys.
    + apply keys_eq_length, initial_state_keys.
  - intros inputs.
    destruct (exact_main_loop inputs
                (domain_availability_averages (initial_state exact md))
                (c := 0%Z) Hok (initial_state_keys exact md) (Z.le_refl 0)) as [tr Htr].
    exists tr. eexists. split; [exact Htr|].
    cbn [domain_availability_averages].
    rewrite averages_after_keys.
    + apply initial_state_keys.
    + apply keys_eq_length, initial_state_keys.
  - intros inputs Hsize Hlen.
    destruct (binary64_loop_from_start inputs Hok Hsize Hlen)
      as [tr [st [Hrun [_ [Hk _]]]]].
    exists tr, st. split; [exact Hrun|exact Hk].
Qed.
(** * The program on sample inputs *)

Lemma shop_parsed : parse_entries Url.netloc [] Sample.shop = Ok Sample.shop_domains.
Proof. reflexivity. Qed.

Lemma api_parsed : parse_entries Url.netloc [] Sample.api = Ok Sample.api_domains.
Proof. reflexivity. Qed.

Lemma shop_domains_ok : domains_ok Sample.shop_domains.
Proof. apply (parse_entries_domains_ok Url.netloc Sample.shop). reflexivity. Qed.

Lemma api_domains_ok : domains_ok Sample.api_domains.
Proof. apply (parse_entries_domains_ok Url.netloc Sample.api). reflexivity. Qed.

(** The scenario of the specification: two endpoints, Up and Down in the
    first cycle, both Up in the second; the averages are 0.5 and then 0.75
    in binary64. *)
Lemma two_cycle_scenario :
  let md := [("example.com"%string,
              map endpoint_of_entry
                  [Sample.entry_of "https://example.com/a" "a";
                   Sample.entry_of "https://example.com/b" "b"])] in
  snd (main_loop md (initial_state binary64 md) [Sample.cycle_with binary64 1])
  = Ok {| domain_availability_averages :=
            [("example.com"%string,
              @PyFloat binary64 (S754_finite false 4503599627370496 (-53)))];
          monitoring_cycle := 1 |}
  /\ snd (main_loop md (initial_state binary64 md)
            [Sample.cycle_with binary64 1; Sample.cycle_with binary64 2])
     = Ok {| domain_availability_averages :=
               [("example.com"%string,
                 @PyFloat binary64 (S754_finite false 6755399441055744 (-53)))];
             monitoring_cycle := 2 |}
  /\ match B64.to_Q (S754_finite false 6755399441055744 (-53)) with
     | Some q => (q == 3 # 4)%Q
     | None => False
     end.
Proof. split; [reflexivity|]. split; [reflexivity|]. vm_compute. reflexivity. Qed.

(** ** Where binary64 departs from the mean *)

(** C1 fails in the arithmetic of the program: a domain with five
    endpoints of which 0, 4, 5 and 1 are Up in cycles 1 to 4 is fed the
    fractions 0, 0.8, 1 and 0.2, whose mean is one half; the average
    stored after cycle 4 is 0.49999999999999994, which is neither the mean
    of the values fed nor one half. *)
Lemma binary64_average_is_not_the_mean :
  let md := Sample.api_domains in
  let inputs := map (Sample.cycle_with binary64) [0; 4; 5; 1]%nat in
  let fed := fractions_fed 0 (map endpoint_of_entry Sample.api) inputs in
  let stored := S754_finite false 9007199254740991 (-54) in
  parse_entries Url.netloc [] Sample.api = Ok md
  /\ snd (main_loop md (initial_state binary64 md) inputs)
     = Ok {| domain_availability_averages :=
               [("api.example.com"%string, @PyFloat binary64 stored)];
             monitoring_cycle := 4 |}
  /\ exists qx qm,
       B64.to_Q stored = Some qx
       /\ B64.mean_Q fed = Some qm
       /\ ~ (qx == qm)%Q
       /\ ~ (qx == 1 # 2)%Q
       /\ stored <> div binary64 (of_int binary64 1) (of_int binary64 2).
Proof.
  split; [reflexivity|]. split; [reflexivity|].
  eexists. eexists.
  split; [vm_compute; reflexivity|]. split; [vm_compute; reflexivity|].
  split; [|split].
  - intros H. vm_compute in H. discriminate H.
  - intros H. vm_compute in H. discriminate H.
  - vm_compute. discriminate.
Qed.

(** C5 fails in the arithmetic of the program: a domain with three
    endpoints fed the fractions 1/3, 1, 1 ends at 0.7777777777777777, and
    fed the same values in the order 1, 1, 1/3 it ends at
    0.7777777777777778. *)
Lemma binary64_average_depends_on_order :
  let md := Sample.shop_domains in
  let eps := map endpoint_of_entry Sample.shop in
  let inputs := map (Sample.cycle_with binary64) [1; 3; 3]%nat in
  let inputs' := map (Sample.cycle_with binary64) [3; 3; 1]%nat in
  parse_entries Url.netloc [] Sample.shop = Ok md
  /\ Permutation (fractions_fed 0 eps inputs) (fractions_fed 0 eps inputs')
  /\ snd (main_loop md (initial_state binary64 md) inputs)
     = Ok {| domain_availability_averages :=
               [("shop.example.com"%string,
                 @PyFloat binary64 (S754_finite false 7005599420354104 (-53)))];
             monitoring_cycle := 3 |}
  /\ snd (main_loop md (initial_state binary64 md) inputs')
     = Ok {| domain_availability_averages :=
               [("shop.example.com"%string,
                 @PyFloat binary64 (S754_finite false 7005599420354105 (-53)))];
             monitoring_cycle := 3 |}
  /\ dict_get [("shop.example.com"%string,
                @PyFloat binary64 (S754_finite false 7005599420354104 (-53)))]
              "shop.example.com"
     <> dict_get [("shop.example.com"%string,
                   @PyFloat binary64 (S754_finite false 7005599420354105 (-53)))]
                 "shop.example.com".
Proof.
  split; [reflexivity|]. split; [|split; [|split]].
  - vm_compute. apply (Permutation_cons_append [_; _] _).
  - reflexivity.
  - reflexivity.
  - cbn [dict_get]. rewrite String.eqb_refl. discriminate.
Qed.

(** C7 on the two entries of [Sample.ports], whose URLs share the host
    [example.com] and differ in the port: [parse_config] returns two
    domains, and the key of the second one is not a host name, since it
    holds the colon and the port. *)
Lemma same_host_two_domains :
  parse_config (fun _ => Ok Sample.ports) Url.netloc ""
  = Ok [("example.com"%string,
         [endpoint_of_entry (Sample.entry_of "https://example.com/" "home")]);
        ("example.com:8443"%string,
         [endpoint_of_entry
            (Sample.entry_of "https://example.com:8443/health" "health")])]
  /\ Url.netloc "https://example.com/" = Ok "example.com"%string
  /\ Url.netloc "https://example.com:8443/health" = Ok "example.com:8443"%string
  /\ Url.contains ":" "example.com:8443" = true.
Proof. repeat split. Qed.
Lemma same_eq (x y : spec_float) : B64.same x y = true -> x = y.
Proof.
  destruct x as [a|a| |s m e], y as [b|b| |s' m' e']; simpl; try discriminate.
  - intros H. apply Bool.eqb_prop in H. congruence.
  - intros H. apply Bool.eqb_prop in H. congruence.
  - reflexivity.
  - intros H. apply andb_true_iff in H. destruct H as [H He].
    apply andb_true_iff in H. destruct H as [Hs Hm].
    apply Bool.eqb_prop in Hs. apply Pos.eqb_eq in Hm. apply Z.eqb_eq in He.
    congruence.
Qed.

(** In binary64 too the first update stores the fraction itself, from the
    seed [0] of [main], for every domain of up to 64 endpoints. *)
Lemma binary64_first_update (n k : nat) :
  (1 <= n <= 64)%nat -> (k <= n)%nat ->
  let f := div binary64 (of_int binary64 (Z.of_nat k)) (of_int binary64 (Z.of_nat n)) in
  next_average 1 (@PyInt binary64 0) (PyFloat f) = PyFloat f.
Proof.
  intros Hn Hk f.
  assert (Hall : forallb (fun n0 => forallb (Sample.first_update_stores_fraction n0)
                                            (seq 0 (S n0)))
                         (seq 1 64) = true) by (vm_compute; reflexivity).
  rewrite forallb_forall in Hall.
  assert (Hn' : In n (seq 1 64)) by (apply in_seq; lia).
  specialize (Hall n Hn'). rewrite forallb_forall in Hall.
  assert (Hk' : In k (seq 0 (S n))) by (apply in_seq; lia).
  specialize (Hall k Hk'). unfold Sample.first_update_stores_fraction in Hall.
  fold f in Hall.
  destruct (next_average 1 (@PyInt binary64 0) (PyFloat f)) as [z|x]; [discriminate|].
  f_equal. apply same_eq, Hall.
Qed.

(** * Instances of the theorems *)

Lemma average_first_update_and_exact_mean_witness :
  let md := Sample.shop_domains in
  let half := S754_finite false 4503599627370496 (-53) in
  next_average 1 (@PyFloat binary64 (B64.of_int 7)) (@PyFloat binary64 half)
  = @PyFloat binary64 half
  /\ (exists tr averages',
        update_domains_availability (Sample.first_up 2)
          (domain_availability_averages (initial_state binary64 md)) 1 md
        = (tr, Ok averages')
        /\ forall i d eps,
             nth_error md i = Some (d, eps) ->
             dict_get averages' d
             = Some (PyFloat (fraction binary64 (Sample.first_up 2 i) eps)))
  /\ (let inputs := map (Sample.cycle_with exact) [2; 3]%nat in
      exists tr st,
        main_loop md (initial_state exact md) inputs = (tr, Ok st)
        /\ forall i d eps,
             nth_error md i = Some (d, eps) ->
             dict_get (domain_availability_averages st) d
             = Some (@PyFloat exact (mean (fractions_fed i eps inputs)))
             /\ (forall input,
                   inputs = [input] ->
                   dict_get (domain_availability_averages st) d
                   = Some (@PyFloat exact (fraction exact (net input i) eps)))).
Proof.
  destruct average_first_update_and_exact_mean as [Hrule [Hpass [Hinit [_ Hmean]]]].
  split; [|split].
  - apply Hrule; [reflexivity|reflexivity|discriminate].
  - apply Hpass; [exact shop_domains_ok|reflexivity|apply Hinit].
  - apply (Hmean Sample.shop_domains (initial_state exact Sample.shop_domains)
             (map (Sample.cycle_with exact) [2; 3]%nat)).
    + exact shop_domains_ok.
    + reflexivity.
    + reflexivity.
    + discriminate.
Defined.
Lemma domain_availability_is_up_ratio_witness :
  let endpoints := map endpoint_of_entry Sample.shop in
  let net := Sample.first_up 2 0%nat in
  let n := List.length endpoints in
  let k := up_count binary64 net endpoints in
  snd (get_domain_availability binary64 net endpoints)
  = Ok (PyFloat (div binary64 (of_int binary64 (Z.of_nat k))
                              (of_int binary64 (Z.of_nat n))))
  /\ (k <= n)%nat
  /\ exists q : Qc,
       snd (get_domain_availability exact net endpoints) = Ok (@PyFloat exact q)
       /\ (this q == Z.of_nat (up_count exact net endpoints) # Pos.of_nat n)%Q.
Proof.
  apply (domain_availability_is_up_ratio binary64 (Sample.first_up 2 0%nat)
           (endpoints := map endpoint_of_entry Sample.shop)).
  discriminate.
Defined.

Lemma exact_average_order_independent_witness :
  let md := Sample.shop_domains in
  let eps := map endpoint_of_entry Sample.shop in
  let inputs := map (Sample.cycle_with exact) [1; 3; 3]%nat in
  let inputs' := map (Sample.cycle_with exact) [3; 3; 1]%nat in
  exists tr tr' st st',
    main_loop md (initial_state exact md) inputs = (tr, Ok st)
    /\ main_loop md (initial_state exact md) inputs' = (tr', Ok st')
    /\ dict_get (domain_availability_averages st) "shop.example.com"
       = Some (@PyFloat exact (mean (fractions_fed 0 eps inputs)))
    /\ dict_get (domain_availability_averages st') "shop.example.com"
       = dict_get (domain_availability_averages st) "shop.example.com".
Proof.
  apply (@exact_average_order_independent Sample.shop_domains
           (initial_state exact Sample.shop_domains)
           (initial_state exact Sample.shop_domains)
           (map (Sample.cycle_with exact) [1; 3; 3]%nat)
           (map (Sample.cycle_with exact) [3; 3; 1]%nat)
           0%nat "shop.example.com"%string
           (map endpoint_of_entry Sample.shop)).
  - exact shop_domains_ok.
  - reflexivity.
  - reflexivity.
  - reflexivity.
  - reflexivity.
  - discriminate.
  - reflexivity.
  - apply (Permutation_cons_append [_; _] _).
Defined.

Lemma sleep_is_rest_of_period_witness :
  let md := Sample.shop_domains in
  let st := initial_state binary64 md in
  let input := Sample.cycle_with binary64 2 in
  let t := sub binary64 (monotonic_end input) (monotonic_start input) in
  match cycle md st input with
  | (tr, Ok st') =>
      (exists probes report,
         tr = probes ++ [Log INFO report; Sleep (sleep_duration (PyFloat t))]
         /\ Forall (fun ev : event binary64 => exists msg, ev = Log ERROR msg) probes)
      /\ monitoring_cycle st' = (monitoring_cycle st + 1)%Z
      /\ (forall net', exists tr' averages',
            update_domains_availability net' (domain_availability_averages st')
              (monitoring_cycle st' + 1) md
            = (tr', Ok averages'))
  | (tr, Raise e) =>
      round_error e
      /\ Forall (fun ev : event binary64 => exists msg, ev = Log ERROR msg) tr
  end
  /\ sleep_duration (PyFloat t)
     = py_max (PyFloat (of_int binary64 0)) (py_sub (PyInt REFRESH_PERIOD) (PyFloat t)).
Proof.
  destruct (@sleep_is_rest_of_period binary64 Sample.shop_domains
              (initial_state binary64 Sample.shop_domains)
              (Sample.cycle_with binary64 2))
    as [Hcycle [Hmax _]].
  - exact shop_domains_ok.
  - reflexivity.
  - simpl. lia.
  - split; [exact Hcycle|exact Hmax].
Defined.
Lemma parse_config_groups_by_netloc_witness :
  let entries := Sample.shop ++ Sample.ports ++ Sample.api in
  let eps := map endpoint_of_entry entries in
  let md := group_by_domain Url.netloc eps in
  parse_config (fun _ => Ok entries) Url.netloc "" = Ok md
  /\ NoDup (keys md)
  /\ keys md = first_seen (map (domain_of Url.netloc) eps)
  /\ (forall d, In d (keys md) ->
        dict_get md d
        = Some (filter (fun ep => String.eqb (domain_of Url.netloc ep) d) eps))
  /\ (forall l1 e1 l2 e2 l3,
        entries = l1 ++ e1 :: l2 ++ e2 :: l3 ->
        domain_of Url.netloc (endpoint_of_entry e1)
        = domain_of Url.netloc (endpoint_of_entry e2) ->
        exists a b c,
          dict_get md (domain_of Url.netloc (endpoint_of_entry e1))
          = Some (a ++ endpoint_of_entry e1 :: b ++ endpoint_of_entry e2 :: c)).
Proof.
  apply (parse_config_groups_by_netloc
           (fun _ => Ok (Sample.shop ++ Sample.ports ++ Sample.api)) Url.netloc
           ""%string (entries := Sample.shop ++ Sample.ports ++ Sample.api)).
  - reflexivity.
  - vm_compute. reflexivity.
Defined.

Lemma missing_required_field_exits_witness :
  exists err,
    load_config (fun _ => Ok Sample.nameless) Url.netloc binary64
                (fun _ => Ok ""%string) "config.yaml"%string
    = ([Log ERROR ("Failed to load config: " ++ exn_str err)%string], Exits 1%Z)
    /\ main (fun _ => Ok Sample.nameless) Url.netloc Repr.list_repr binary64
            ["health_check.py"; "config.yaml"]%string (fun _ => Ok ""%string)
            [Sample.cycle_with binary64 1]
       = ([Log INFO ("Using config file: " ++ "config.yaml")%string;
           Log ERROR ("Failed to load config: " ++ exn_str err)%string],
          Exited 1%Z).
Proof.
  apply (@missing_required_field_exits binary64 (fun _ => Ok Sample.nameless)
           Url.netloc Repr.list_repr (fun _ => Ok ""%string) "health_check.py"%string
           "config.yaml"%string ""%string Sample.nameless
           [Sample.cycle_with binary64 1]).
  - reflexivity.
  - reflexivity.
  - reflexivity.
Defined.

Lemma averages_keep_startup_domains_witness :
  let md := Sample.shop_domains in
  (forall net averages c tr averages',
      update_domains_availability (A := binary64) net averages c md
      = (tr, Ok averages') ->
      keys averages' = keys averages
      /\ (forall k, ~ In k (keys md) -> dict_get averages' k = dict_get averages k)
      /\ (forall i d eps,
            nth_error md i = Some (d, eps) ->
            exists previous,
              dict_get averages d = Some previous
              /\ dict_get averages' d
                 = Some (next_average c previous
                           (PyFloat (fraction binary64 (net i) eps)))))
  /\ keys (domain_availability_averages (initial_state binary64 md)) = keys md
  /\ forall inputs,
       match snd (main_loop md (initial_state binary64 md) inputs) with
       | Ok st => keys (domain_availability_averages st) = keys md
       | Raise e => round_error e
       end.
Proof.
  destruct (averages_keep_startup_domains binary64 shop_domains_ok)
    as [Hpass [_ [Hinit [_ [Hloop _]]]]].
  split; [exact Hpass|]. split; [exact Hinit|exact Hloop].
Defined.
(** * Further properties of the configuration loader *)

Section ConfigMore.
Variable netloc : string -> result string.

Lemma entry_error_raises (md : monitored) (e : entry) (err : exn) :
  entry_error netloc e = Some err -> parse_entry netloc md e = Raise err.
Proof.
  unfold entry_error, parse_entry.
  destruct e as [[u|] [n|] m h b]; simpl;
    try destruct (netloc u); simpl; intros H;
    try discriminate H; injection H as <-; reflexivity.
Qed.

Lemma parse_entries_first_error (md : monitored) (good rest : list entry)
    (bad : entry) (err : exn) :
  forallb (entry_well_formed netloc) good = true ->
  entry_error netloc bad = Some err ->
  parse_entries netloc md (good ++ bad :: rest) = Raise err.
Proof.
  revert md; induction good as [|e good IH]; intros md Hgood Hbad; simpl.
  - rewrite (entry_error_raises md bad Hbad). reflexivity.
  - simpl in Hgood. apply andb_true_iff in Hgood. destruct Hgood as [He Hgood].
    rewrite parse_entry_well_formed by exact He. simpl. apply IH; assumption.
Qed.

Lemma dd_append_all_endpoints (d : monitored) (k : string) (ep : endpoint) :
  Permutation (all_endpoints (dd_append d k ep)) (all_endpoints d ++ [ep]).
Proof.
  unfold all_endpoints, values.
  induction d as [|[k0 eps] d IH]; simpl.
  - apply Permutation_refl.
  - destruct (String.eqb k0 k); simpl.
    + rewrite <- !app_assoc. apply Permutation_app_head, Permutation_app_comm.
    + rewrite <- app_assoc. apply Permutation_app_head, IH.
Qed.

Lemma parse_entries_all_endpoints (es : list entry) (md md' : monitored) :
  parse_entries netloc md es = Ok md' ->
  Permutation (all_endpoints md') (all_endpoints md ++ map endpoint_of_entry es).
Proof.
  revert md; induction es as [|e es IH]; intros md H; simpl in H.
  - injection H as <-. simpl. rewrite app_nil_r. apply Permutation_refl.
  - destruct (parse_entry netloc md e) as [md1|err] eqn:He; simpl in H; [|discriminate].
    pose proof (@parse_entry_returns_well_formed netloc _ _ _ He) as Hwf.
    rewrite parse_entry_well_formed in He by exact Hwf. injection He as <-.
    eapply Permutation_trans; [apply (IH _ H)|].
    simpl. change (endpoint_of_entry e :: map endpoint_of_entry es)
      with ([endpoint_of_entry e] ++ map endpoint_of_entry es).
    rewrite app_assoc. apply Permutation_app_tail, dd_append_all_endpoints.
Qed.

End ConfigMore.

(** X1: the configuration fails on its first offending entry, with the
    exception of that entry: [KeyError('url')] when the entry has no
    [url], the exception of [urlparse] when the URL is rejected,
    [KeyError('name')] when the entry has no [name]; [load_config] logs
    that exception and exits with status 1. *)
Theorem load_config_first_error (A : arith)
    (safe_load : string -> result (list entry)) (netloc : string -> result string)
    (read : string -> result string) (path config : string)
    (good rest : list entry) (bad : entry) (err : exn) :
  read path = Ok config ->
  safe_load config = Ok (good ++ bad :: rest) ->
  forallb (entry_well_formed netloc) good = true ->
  entry_error netloc bad = Some err ->
  parse_config safe_load netloc config = Raise err
  /\ load_config safe_load netloc A read path
     = ([Log ERROR ("Failed to load config: " ++ exn_str err)%string], Exits 1%Z).
Proof.
  intros Hread Hload Hgood Hbad.
  assert (H : parse_config safe_load netloc config = Raise err).
  { unfold parse_config. rewrite Hload. simpl.
    apply parse_entries_first_error; assumption. }
  split; [exact H|].
  unfold load_config. rewrite Hread. simpl. rewrite H. reflexivity.
Qed.

(** X2: [parse_config] neither drops nor duplicates an entry: the
    endpoints of all the domains it returns are, up to order, the endpoints
    built from the entries of the configuration, one per entry. *)
Theorem parse_config_keeps_every_entry
    (safe_load : string -> result (list entry)) (netloc : string -> result string)
    (config : string) (entries : list entry) (md : monitored) :
  safe_load config = Ok entries ->
  parse_config safe_load netloc config = Ok md ->
  Permutation (all_endpoints md) (map endpoint_of_entry entries)
  /\ List.length (all_endpoints md) = List.length entries.
Proof.
  intros Hload Hparse. unfold parse_config in Hparse. rewrite Hload in Hparse.
  simpl in Hparse.
  pose proof (@parse_entries_all_endpoints netloc entries [] md Hparse) as Hperm.
  simpl in Hperm. split; [exact Hperm|].
  rewrite (Permutation_length Hperm). apply length_map.
Qed.

(** X3: every endpoint [parse_config] returns is filed under the network
    location of its own URL and carries the fields of an entry of the
    configuration: its [url] and [name], its [method] or ["GET"] when the
    entry has none, its [headers], and its [body] as [data]. *)
Theorem parse_config_endpoints_come_from_entries
    (safe_load : string -> result (list entry)) (netloc : string -> result string)
    (config : string) (entries : list entry) (md : monitored)
    (d : string) (eps : list endpoint) (ep : endpoint) :
  safe_load config = Ok entries ->
  parse_config safe_load netloc config = Ok md ->
  In (d, eps) md -> In ep eps ->
  netloc (url (request_parameters ep)) = Ok d
  /\ exists e,
       In e entries
       /\ entry_url e = Some (url (request_parameters ep))
       /\ entry_name e = Some (name ep)
       /\ method (request_parameters ep) = entry_get (entry_method e) "GET"%string
       /\ headers (request_parameters ep) = entry_headers e
       /\ data (request_parameters ep) = entry_body e.
Proof.
  intros Hload Hparse Hd Hep. unfold parse_config in Hparse. rewrite Hload in Hparse.
  simpl in Hparse.
  pose proof (@parse_entries_returns_well_formed netloc _ _ _ Hparse) as Hwf.
  rewrite parse_entries_grouped in Hparse by exact Hwf. injection Hparse as <-.
  unfold group_by_domain in Hd. apply in_map_iff in Hd.
  destruct Hd as [d0 [Heq _]]. injection Heq as -> <-.
  apply filter_In in Hep. destruct Hep as [Hin Hdom].
  apply String.eqb_eq in Hdom.
  apply in_map_iff in Hin. destruct Hin as [e [<- He]].
  rewrite forallb_forall in Hwf. specialize (Hwf e He).
  unfold entry_well_formed in Hwf. unfold domain_of in Hdom.
  destruct e as [[u|] [n|] m h b]; simpl in *; try discriminate.
  destruct (netloc u) as [d1|err] eqn:Hu; [|discriminate].
  subst d1. split; [reflexivity|].
  eexists. split; [exact He|]. simpl. repeat split; reflexivity.
Qed.

(** * Further properties of probing and of the update pass *)

Section ProbingMore.
Variable A : arith.

Lemma check_endpoint_status_trace_length (request : result response)
    (ep : request_parameters_t) :
  List.length (fst (check_endpoint_status A request ep))
  = if request_fails request then 1%nat else 0%nat.
Proof.
  destruct request as [resp|e]; [reflexivity|]. destruct e; reflexivity.
Qed.

Lemma enumerate_In_lt {T} (l : list T) (i : nat) (x : T) :
  In (i, x) (enumerate l) -> (i < List.length l)%nat.
Proof.
  unfold enumerate. intros H. apply in_combine_l in H. apply in_seq in H. lia.
Qed.

Lemma probe_trace_length (net : nat -> result response) (l : list (nat * endpoint)) :
  List.length
    (List.concat
       (map (fun '(i, ep) => fst (check_endpoint_status A (net i) (request_parameters ep)))
            l))
  = List.length (filter (fun '(i, _) => request_fails (net i)) l).
Proof.
  induction l as [|[i ep] l IH]; [reflexivity|].
  simpl. rewrite length_app, IH, check_endpoint_status_trace_length.
  destruct (request_fails (net i)); reflexivity.
Qed.

(** A domain yields a fraction or, without endpoints, a division by
    zero. *)
Lemma get_domain_availability_result (net : nat -> result response)
    (endpoints : list endpoint) :
  (exists v, snd (get_domain_availability A net endpoints) = Ok v)
  \/ snd (get_domain_availability A net endpoints) = Raise ZeroDivisionError.
Proof.
  destruct endpoints as [|ep eps].
  - right. reflexivity.
  - left. eexists. rewrite get_domain_availability_nonempty by discriminate.
    reflexivity.
Qed.

(** When the tasks can only fail with one exception and one of them does,
    [gather] raises that exception. *)
Lemma gather_raises {T} (tasks : list (M A T)) (E : exn) :
  (forall t, In t tasks -> (exists v, snd t = Ok v) \/ snd t = Raise E) ->
  (exists t, In t tasks /\ snd t = Raise E) ->
  snd (gather tasks) = Raise E.
Proof.
  induction tasks as [|[tr r] tasks IH]; intros Hall [t [Hin Ht]]; [contradiction|].
  destruct r as [v|e].
  - cbn [gather]. rewrite bind_ok. cbn [snd].
    assert (Hrest : snd (gather tasks) = Raise E).
    { apply IH.
      - intros t' Ht'. apply Hall. right; exact Ht'.
      - destruct Hin as [<-|Hin]; [discriminate Ht|]. exists t. split; assumption. }
    destruct (gather tasks) as [tr' r']. simpl in Hrest. subst r'. reflexivity.
  - destruct (Hall (tr, Raise e) (or_introl eq_refl)) as [[v Hv]|He]; [discriminate|].
    simpl in He. injection He as ->. reflexivity.
Qed.

(** The assignment loop raises [KeyError] when it is given a domain that
    has no average. *)
Lemma update_averages_missing_key (c : Z) (items : list (string * pyval A))
    (averages : dict (pyval A)) (k : string) :
  c <> 0%Z -> In k (map fst items) -> ~ In k (keys averages) ->
  exists k', update_averages c averages items = Raise (KeyError k')
             /\ In k' (map fst items) /\ ~ In k' (keys averages).
Proof.
  intros Hc. revert averages.
  induction items as [|[k0 r] items IH]; intros averages Hin Hk; [contradiction|].
  cbn [update_averages update_average].
  destruct (getitem averages k0) as [v|e] eqn:Hget.
  - cbn [bind_result]. unfold py_truediv. cbn [py_is_zero].
    destruct (Z.eqb_spec c 0) as [E|_]; [contradiction|]. cbn [bind_result].
    destruct Hin as [Hin|Hin].
    + simpl in Hin. subst k0. contradiction Hk. apply (getitem_ok_In _ _ Hget).
    + destruct (IH (setitem averages k0
                      (PyFloat (div A (to_float (py_add (py_mul v (PyInt (c - 1))) r))
                                      (to_float (PyInt c))))))
        as [k' [Hr [Hk1 Hk2]]].
      * exact Hin.
      * rewrite keys_setitem_present by apply (getitem_ok_In _ _ Hget). exact Hk.
      * exists k'. split; [exact Hr|]. split; [right; exact Hk1|].
        rewrite keys_setitem_present in Hk2 by apply (getitem_ok_In _ _ Hget).
        exact Hk2.
  - exists k0. unfold getitem in Hget.
    destruct (dict_get averages k0) eqn:Hd; [discriminate|]. injection Hget as <-.
    split; [reflexivity|]. split; [left; reflexivity|].
    intros Hin0. clear - Hd Hin0.
    induction averages as [|[k1 v1] averages IH]; simpl in *; [contradiction|].
    destruct (String.eqb k1 k0) eqn:E; [discriminate|].
    destruct Hin0 as [H|H]; [apply String.eqb_neq in E; contradiction|].
    apply (IH Hd H).
Qed.


(** The probes of a domain depend on the network at its own endpoints
    only. *)
Lemma fraction_ext (net net' : nat -> result response) (endpoints : list endpoint) :
  (forall j, (j < List.length endpoints)%nat -> net j = net' j) ->
  fraction A net endpoints = fraction A net' endpoints.
Proof.
  intros H. unfold fraction, up_count, probe_results. do 5 f_equal.
  apply map_ext_in. intros [j ep] Hin.
  rewrite (H j (enumerate_In_lt _ _ _ Hin)). reflexivity.
Qed.

End ProbingMore.

(** X4: the probes of a domain log one error for each request that ends
    in an exception other than a timeout, and nothing else; when no request
    fails that way (responses and timeouts only) they log nothing. *)
Theorem domain_probes_log_failures_only (A : arith) (net : nat -> result response)
    (endpoints : list endpoint) :
  let tr := fst (get_domain_availability A net endpoints) in
  List.length tr = List.length (failed_requests net endpoints)
  /\ Forall (fun ev => is_error ev = true) tr
  /\ ((forall i, (i < List.length endpoints)%nat -> request_fails (net i) = false) ->
      tr = []).
Proof.
  intros tr. unfold tr. rewrite get_domain_availability_eq. cbn [fst].
  assert (Hlen : List.length (probe_trace A net endpoints)
                 = List.length (failed_requests net endpoints))
    by apply probe_trace_length.
  split; [exact Hlen|]. split.
  - unfold probe_trace. apply Forall_concat_map. intros [i ep].
    pose proof (check_endpoint_status_trace A (net i) (request_parameters ep)) as H.
    eapply Forall_impl; [|exact H]. intros ev [msg ->]. reflexivity.
  - intros Hnone. apply length_zero_iff_nil. rewrite Hlen.
    unfold failed_requests. rewrite filter_none; [reflexivity|].
    intros [i ep] Hin. apply Hnone. apply (enumerate_In_lt _ _ _ Hin).
Qed.

(** X5: an update pass over domains one of which has no endpoint raises
    [ZeroDivisionError], whatever the averages and the cycle are. *)
Theorem update_raises_on_empty_domain (A : arith) (net : nat -> nat -> result response)
    (averages : dict (pyval A)) (c : Z) (md : monitored) (d : string) :
  In (d, []) md ->
  snd (update_domains_availability net averages c md) = Raise ZeroDivisionError.
Proof.
  intros Hin. unfold update_domains_availability.
  assert (Hg : snd (gather
                      (map (fun '(i, endpoints) =>
                              get_domain_availability A (net i) endpoints)
                           (enumerate (values md))))
               = Raise ZeroDivisionError).
  { apply gather_raises.
    - intros t Ht. apply in_map_iff in Ht. destruct Ht as [[i eps] [<- _]].
      apply get_domain_availability_result.
    - assert (Hv : In (@nil endpoint) (values md))
        by (apply (in_map snd) in Hin; exact Hin).
      apply In_nth_error in Hv. destruct Hv as [i Hi].
      exists (get_domain_availability A (net i) []). split; [|reflexivity].
      apply in_map_iff. exists (i, []). split; [reflexivity|].
      apply (nth_error_In _ i). apply enumerate_nth, Hi. }
  destruct (gather _) as [tr r]. simpl in Hg. subst r. reflexivity.
Qed.

(** X6: an update pass over monitored domains one of which has no
    average raises [KeyError], for a monitored domain that has none. *)
Theorem update_raises_on_unknown_domain (A : arith)
    (net : nat -> nat -> result response) (averages : dict (pyval A)) (c : Z)
    (md : monitored) (d : string) :
  domains_ok md -> c <> 0%Z ->
  In d (keys md) -> ~ In d (keys averages) ->
  exists d',
    snd (update_domains_availability net averages c md) = Raise (KeyError d')
    /\ In d' (keys md) /\ ~ In d' (keys averages).
Proof.
  intros [_ Hne] Hc Hin Hmiss.
  rewrite update_domains_availability_eq by exact Hne. cbn [snd].
  assert (Hfst : map fst (combine (keys md) (cycle_fractions A net md)) = keys md)
    by (apply fst_combine_keys, cycle_fractions_length).
  destruct (@update_averages_missing_key A c
              (combine (keys md) (cycle_fractions A net md)) averages d Hc)
    as [d' [Hr [Hd1 Hd2]]].
  - rewrite Hfst. exact Hin.
  - exact Hmiss.
  - exists d'. rewrite Hfst in Hd1. auto.
Qed.

(** X7: with the cycle number 0 the update rule divides by zero: an
    update pass for cycle 0 over at least one domain raises
    [ZeroDivisionError] ([main] increments the counter before the pass, so
    its first pass has the number 1). *)
Theorem update_raises_on_cycle_zero (A : arith) (net : nat -> nat -> result response)
    (averages : dict (pyval A)) (md : monitored) :
  domains_ok md -> keys averages = keys md -> md <> [] ->
  snd (update_domains_availability net averages 0 md) = Raise ZeroDivisionError.
Proof.
  intros [_ Hne] Hkeys Hmd.
  rewrite update_domains_availability_eq by exact Hne. cbn [snd].
  pose proof (cycle_fractions_length A net md) as Hlen.
  destruct md as [|[d eps] md]; [contradiction Hmd; reflexivity|].
  destruct (cycle_fractions A net ((d, eps) :: md)) as [|r rs]; [discriminate|].
  destruct averages as [|[k v] averages]; [discriminate|].
  simpl in Hkeys. injection Hkeys as -> _.
  cbn [keys map fst combine update_averages update_average].
  unfold getitem. cbn [dict_get]. rewrite String.eqb_refl. reflexivity.
Qed.

(** X8: the domains are isolated from each other: the average stored for
    a domain by an update pass depends on the outcomes of the requests to
    its own endpoints only. *)
Theorem update_isolates_domains (A : arith) (net net' : nat -> nat -> result response)
    (averages : dict (pyval A)) (c : Z) (md : monitored) (i : nat) (d : string)
    (eps : list endpoint) :
  domains_ok md -> keys averages = keys md -> c <> 0%Z ->
  nth_error md i = Some (d, eps) ->
  (forall j, (j < List.length eps)%nat -> net i j = net' i j) ->
  exists averages1 averages2 v,
    snd (update_domains_availability net averages c md) = Ok averages1
    /\ snd (update_domains_availability net' averages c md) = Ok averages2
    /\ dict_get averages1 d = Some v
    /\ dict_get averages2 d = Some v.
Proof.
  intros Hok Hkeys Hc Hi Hsame.
  rewrite !update_domains_availability_zip by assumption. cbn [snd].
  destruct (nth_error_same_keys averages md i Hkeys Hi) as [v Hv].
  exists (zip_update c averages (cycle_fractions A net md)),
         (zip_update c averages (cycle_fractions A net' md)),
         (next_average c v (PyFloat (fraction A (net i) eps))).
  assert (Hnd : forall n, NoDup (keys (zip_update c averages (cycle_fractions A n md)))).
  { intros n. rewrite zip_update_keys.
    - rewrite Hkeys. apply Hok.
    - rewrite cycle_fractions_length. symmetry. apply (keys_eq_length _ _ Hkeys). }
  split; [reflexivity|]. split; [reflexivity|]. split.
  - apply dict_get_nth with (i := i); [apply Hnd|].
    apply zip_update_nth; [exact Hv|]. apply (cycle_fractions_nth A net md i Hi).
  - apply dict_get_nth with (i := i); [apply Hnd|].
    rewrite (fraction_ext A (net i) (net' i) eps Hsame).
    apply zip_update_nth; [exact Hv|]. apply (cycle_fractions_nth A net' md i Hi).
Qed.

(** * Further properties of the loop and of [main] *)

Section LoopMore.
Variable A : arith.

Lemma filter_app_nil {T} (p : T -> bool) (l l' : list T) :
  Forall (fun x => p x = false) l -> filter p (l ++ l') = filter p l'.
Proof.
  intros H. rewrite filter_app, filter_none; [reflexivity|].
  apply Forall_forall, H.
Qed.

Lemma cycle_probe_trace_no_sleep (net : nat -> nat -> result response) (md : monitored) :
  Forall (fun ev : event A => is_sleep ev = false) (cycle_probe_trace A net md).
Proof.
  eapply Forall_impl; [|apply cycle_probe_trace_logs]. intros ev [msg ->]. reflexivity.
Qed.

Lemma cycle_probe_trace_no_info (net : nat -> nat -> result response) (md : monitored) :
  Forall (fun ev : event A => is_info ev = false) (cycle_probe_trace A net md).
Proof.
  eapply Forall_impl; [|apply cycle_probe_trace_logs]. intros ev [msg ->]. reflexivity.
Qed.

(** Every completed cycle contributes one report and one sleep to the
    trace. *)
Lemma main_loop_trace (md : monitored) (inputs : list (cycle_input A)) (c : Z)
    (averages : dict (pyval A)) (tr : list (event A)) (st : state A) :
  domains_ok md -> keys averages = keys md -> (0 <= c)%Z ->
  main_loop md {| domain_availability_averages := averages;
                  monitoring_cycle := c |} inputs = (tr, Ok st) ->
  List.length (filter is_sleep tr) = List.length inputs
  /\ List.length (filter is_info tr) = List.length inputs.
Proof.
  intros Hok. revert c averages tr.
  induction inputs as [|input inputs IH]; intros c averages tr Hkeys Hc Hrun.
  - simpl in Hrun. injection Hrun as <- _. split; reflexivity.
  - cbn [main_loop] in Hrun. rewrite cycle_eq in Hrun; [|exact Hok|exact Hkeys|exact Hc].
    cbn [domain_availability_averages monitoring_cycle] in Hrun.
    destruct (report_lines _) as [lines|e]; [|discriminate Hrun].
    rewrite bind_ok in Hrun. injection Hrun as Htr Hst.
    destruct (main_loop md _ inputs) as [tr2 r2] eqn:Hrest.
    cbn [fst snd] in Htr, Hst. subst r2.
    destruct (IH _ _ _ (eq_trans (zip_update_keys _ _ _
                                    (eq_trans (cycle_fractions_length A (net input) md)
                                              (eq_sym (keys_eq_length _ _ Hkeys))))
                                 Hkeys)
                 (Z.le_trans _ _ _ Hc (Z.le_succ_diag_r c)) Hrest) as [Hs Hr].
    subst tr. rewrite <- app_assoc.
    rewrite (filter_app_nil is_sleep) by apply cycle_probe_trace_no_sleep.
    rewrite (filter_app_nil is_info) by apply cycle_probe_trace_no_info.
    simpl. rewrite Hs, Hr. split; reflexivity.
Qed.

Lemma load_config_returns (safe_load : string -> result (list entry))
    (netloc : string -> result string) (read : string -> result string)
    (path config : string) (md : monitored) :
  read path = Ok config -> parse_config safe_load netloc config = Ok md ->
  load_config safe_load netloc A read path = ([], Returns md).
Proof.
  intros Hread Hparse. unfold load_config. rewrite Hread. simpl. rewrite Hparse.
  reflexivity.
Qed.

Lemma parse_config_domains_ok (safe_load : string -> result (list entry))
    (netloc : string -> result string) (config : string) (md : monitored) :
  parse_config safe_load netloc config = Ok md -> domains_ok md.
Proof.
  unfold parse_config. destruct (safe_load config) as [entries|e]; simpl; [|discriminate].
  apply parse_entries_domains_ok.
Qed.

End LoopMore.

(** X9: the loop runs its cycles one after the other: when it has
    completed the cycles it was given inputs for, the counter is the number
    of cycles, and the trace holds exactly one report and exactly one sleep
    per cycle. *)
Theorem loop_reports_and_sleeps_once_per_cycle (A : arith) (md : monitored)
    (inputs : list (cycle_input A)) (tr : list (event A)) (st : state A) :
  domains_ok md ->
  main_loop md (initial_state A md) inputs = (tr, Ok st) ->
  monitoring_cycle st = Z.of_nat (List.length inputs)
  /\ List.length (filter is_sleep tr) = List.length inputs
  /\ List.length (filter is_info tr) = List.length inputs.
Proof.
  intros Hok Hrun. split.
  - pose proof (main_loop_state inputs
                  (domain_availability_averages (initial_state A md))
                  (c := 0%Z) Hok (initial_state_keys A md) (Z.le_refl 0)) as H.
    change {| domain_availability_averages :=
                domain_availability_averages (initial_state A md);
              monitoring_cycle := 0 |} with (initial_state A md) in H.
    rewrite Hrun in H. cbn [snd] in H. subst st. reflexivity.
  - apply (main_loop_trace (md := md) inputs
             (domain_availability_averages (initial_state A md)) (c := 0%Z)
             Hok (initial_state_keys A md) (Z.le_refl 0) Hrun).
Qed.

(** X10: [main] ends the process by itself only at startup and only
    with status 1: it exits exactly when the number of arguments is not two
    or reading and parsing the configuration raises; nothing was slept or
    reported by then. *)
Theorem main_exits_only_at_startup (A : arith)
    (safe_load : string -> result (list entry)) (netloc : string -> result string)
    (format_list : list string -> string) (argv : list string)
    (read : string -> result string)
    (inputs : list (cycle_input A)) (code : Z) :
  (snd (main safe_load netloc format_list A argv read inputs) = Exited code
   <-> code = 1%Z
       /\ (List.length argv <> 2%nat
           \/ exists e,
                (content <-- read (nth 1 argv ""%string) ;;
                 parse_config safe_load netloc content) = Raise e))
  /\ (snd (main safe_load netloc format_list A argv read inputs) = Exited code ->
      let tr := fst (main safe_load netloc format_list A argv read inputs) in
      filter is_sleep tr = []
      /\ List.length (filter is_error tr) = 1%nat
      /\ (filter is_info tr = []
          \/ filter is_info tr
             = [Log INFO ("Using config file: " ++ nth 1 argv "")%string])).
Proof.
  unfold main, load_config.
  destruct (Nat.eqb_spec (List.length argv) 2) as [Hlen|Hlen]; cbn [negb].
  - destruct (content <-- read (nth 1 argv ""%string) ;;
              parse_config safe_load netloc content) as [md|e] eqn:Hload.
    + destruct (main_loop md (initial_state A md) inputs) as [tr [st|e]]; cbn [snd fst].
      * split; [split|]; [discriminate| |discriminate].
        intros [_ [H|[e H]]]; [contradiction|discriminate].
      * split; [split|]; [discriminate| |discriminate].
        intros [_ [H|[e' H]]]; [contradiction|discriminate].
    + cbn [snd fst]. split; [split|].
      * intros H. injection H as <-. split; [reflexivity|]. right. eauto.
      * intros [-> _]. reflexivity.
      * intros _. split; [reflexivity|]. split; [reflexivity|]. right. reflexivity.
  - cbn [snd fst]. split; [split|].
    + intros H. injection H as <-. split; [reflexivity|]. left. exact Hlen.
    + intros [-> _]. reflexivity.
    + intros _. split; [reflexivity|]. split; [reflexivity|]. left. reflexivity.
Qed.

(** X11: once the configuration is loaded, [main] logs the file and the
    list of the domains, as the f-string formats it, and enters the loop,
    which it never leaves by an exit: after the cycles it was given inputs
    for it is still running, with the counter at the number of cycles and
    an average for each domain of the configuration, unless [round] raised
    on an average for the report ([ValueError] on a NaN, [OverflowError]
    on an infinity); in exact arithmetic it is always still running, and
    so it is in binary64 as long as the number of cycles and the numbers
    of endpoints are below [2^53]. *)
Theorem main_runs_on_loaded_config (A : arith)
    (safe_load : string -> result (list entry)) (netloc : string -> result string)
    (format_list : list string -> string)
    (read : string -> result string) (prog path config : string) (md : monitored)
    (inputs : list (cycle_input A)) (inputs' : list (cycle_input exact)) :
  read path = Ok config ->
  parse_config safe_load netloc config = Ok md ->
  (exists tr,
     fst (main safe_load netloc format_list A [prog; path] read inputs)
     = [Log INFO ("Using config file: " ++ path)%string;
        Log INFO ("Monitoring domains: " ++ format_list (keys md))%string] ++ tr)
  /\ match snd (main safe_load netloc format_list A [prog; path] read inputs) with
     | Running st =>
         monitoring_cycle st = Z.of_nat (List.length inputs)
         /\ keys (domain_availability_averages st) = keys md
     | Crashed e => round_error e
     | Exited _ => False
     end
  /\ (exists st,
       snd (main safe_load netloc format_list exact [prog; path] read inputs')
       = Running st
       /\ monitoring_cycle st = Z.of_nat (List.length inputs'))
  /\ (forall inputs'' : list (cycle_input binary64),
        sizes_ok md ->
        (Z.of_nat (List.length inputs'') < exact_int_bound)%Z ->
        exists st,
          snd (main safe_load netloc format_list binary64 [prog; path] read inputs'')
          = Running st
          /\ monitoring_cycle st = Z.of_nat (List.length inputs'')).
Proof.
  intros Hread Hparse.
  pose proof (@parse_config_domains_ok safe_load netloc config md Hparse) as Hok.
  unfold main. cbn [List.length Nat.eqb negb nth].
  rewrite (@load_config_returns A safe_load netloc read path config md Hread Hparse).
  rewrite (@load_config_returns exact safe_load netloc read path config md Hread Hparse).
  rewrite (@load_config_returns binary64 safe_load netloc read path config md
             Hread Hparse).
  split; [|split; [|split]].
  - destruct (main_loop md (initial_state A md) inputs) as [tr [st|e]];
      exists tr; reflexivity.
  - pose proof (main_loop_state inputs
                  (domain_availability_averages (initial_state A md))
                  (c := 0%Z) Hok (initial_state_keys A md) (Z.le_refl 0)) as H.
    change {| domain_availability_averages :=
                domain_availability_averages (initial_state A md);
              monitoring_cycle := 0 |} with (initial_state A md) in H.
    destruct (main_loop md (initial_state A md) inputs) as [tr [st|e]];
      cbn [snd] in *; [|exact H].
    subst st. cbn [monitoring_cycle domain_availability_averages].
    split; [reflexivity|].
    rewrite averages_after_keys.
    + apply initial_state_keys.
    + apply keys_eq_length, initial_state_keys.
  - destruct (exact_main_loop inputs'
                (domain_availability_averages (initial_state exact md))
                (c := 0%Z) Hok (initial_state_keys exact md) (Z.le_refl 0)) as [tr Htr].
    change {| domain_availability_averages :=
                domain_availability_averages (initial_state exact md);
              monitoring_cycle := 0 |} with (initial_state exact md) in Htr.
    rewrite Htr. eexists. split; reflexivity.
  - intros inputs'' Hsize Hlen.
    destruct (binary64_loop_from_start inputs'' Hok Hsize Hlen)
      as [tr [st [Hrun [Hcount _]]]].
    rewrite Hrun. exists st. split; [reflexivity|exact Hcount].
Qed.

(** * Further properties of the fractions and of the averages *)

Lemma probe_up_request_up (A : arith) (request : result response)
    (ep : request_parameters_t) :
  probe_up A request ep = request_up request.
Proof.
  unfold probe_up. destruct request as [resp|e]; [reflexivity|].
  destruct e; reflexivity.
Qed.

Lemma filter_map_length {X Y} (f : X -> Y) (p : Y -> bool) (l : list X) :
  List.length (filter p (map f l)) = List.length (filter (fun x => p (f x)) l).
Proof.
  induction l as [|x l IH]; [reflexivity|]. simpl.
  destruct (p (f x)); simpl; rewrite IH; reflexivity.
Qed.

Lemma filter_ext_length {X} (p q : X -> bool) (l : list X) :
  (forall x, In x l -> p x = q x) ->
  List.length (filter p l) = List.length (filter q l).
Proof.
  intros H. rewrite (filter_ext_in p q l H). reflexivity.
Qed.

Lemma enumerate_fst {T} (l : list T) : map fst (enumerate l) = seq 0 (List.length l).
Proof.
  unfold enumerate. generalize 0%nat.
  induction l as [|x l IH]; intros s; [reflexivity|]. simpl. f_equal. apply IH.
Qed.

(** The number of Up answers of a domain, from the requests alone. *)
Lemma up_count_closed_form (A : arith) (net : nat -> result response)
    (endpoints : list endpoint) :
  up_count A net endpoints
  = List.length (filter (fun i => request_up (net i))
                        (seq 0 (List.length endpoints))).
Proof.
  unfold up_count, probe_results.
  rewrite filter_map_length.
  rewrite <- enumerate_fst, filter_map_length.
  apply filter_ext_length. intros [i ep] _. apply probe_up_request_up.
Qed.


Lemma exact_of_nat_pos (n : nat) :
  n <> 0%nat -> (Q2Qc 0 < of_int exact (Z.of_nat n))%Qc.
Proof.
  intros Hn. unfold Qclt. cbn [of_int exact this Q2Qc].
  rewrite !Qred_correct. unfold Qlt. simpl. lia.
Qed.

Lemma exact_of_nat_le (k n : nat) :
  (k <= n)%nat -> (of_int exact (Z.of_nat k) <= of_int exact (Z.of_nat n))%Qc.
Proof.
  intros H. unfold Qcle. cbn [of_int exact this Q2Qc].
  rewrite !Qred_correct. unfold Qle. simpl. lia.
Qed.

(** A quotient lies between two bounds when its numerator lies between
    their multiples. *)
Lemma exact_div_bounds (x n : Qc) :
  (Q2Qc 0 < n -> Q2Qc 0 <= x -> x <= n ->
   Q2Qc 0 <= x / n /\ x / n <= Q2Qc 1)%Qc.
Proof.
  intros Hn H0 H1.
  assert (Hne : n <> Q2Qc 0) by (intros ->; apply (Qclt_not_eq _ _ Hn); reflexivity).
  assert (Hm : (x / n * n = x)%Qc) by (rewrite Qcmult_comm; apply Qcmult_div_r, Hne).
  split.
  - apply (Qcmult_lt_0_le_reg_r _ _ n Hn). rewrite Hm, Qcmult_0_l. exact H0.
  - apply (Qcmult_lt_0_le_reg_r _ _ n Hn). rewrite Hm, Qcmult_1_l. exact H1.
Qed.

Lemma exact_fraction_bounds (net : nat -> result response) (endpoints : list endpoint) :
  endpoints <> [] ->
  (Q2Qc 0 <= fraction exact net endpoints /\ fraction exact net endpoints <= Q2Qc 1)%Qc.
Proof.
  intros Hne. unfold fraction. change (div exact) with Qcdiv.
  apply exact_div_bounds.
  - apply exact_of_nat_pos. destruct endpoints; [contradiction Hne; reflexivity|].
    discriminate.
  - change (Q2Qc 0) with (of_int exact (Z.of_nat 0)). apply exact_of_nat_le. lia.
  - apply exact_of_nat_le. unfold up_count.
    rewrite <- (probe_results_length exact net endpoints). apply filter_length_le.
Qed.

Lemma sum_Qc_bounds (l : list Qc) :
  Forall (fun f => Q2Qc 0 <= f /\ f <= Q2Qc 1)%Qc l ->
  (Q2Qc 0 <= sum_Qc l /\ sum_Qc l <= of_int exact (Z.of_nat (List.length l)))%Qc.
Proof.
  induction 1 as [|f l [Hf0 Hf1] _ [IH0 IH1]].
  - split; apply Qcle_refl.
  - cbn [sum_Qc fold_right List.length]. fold (sum_Qc l).
    replace (Z.of_nat (S (List.length l))) with (1 + Z.of_nat (List.length l))%Z by lia.
    rewrite exact_of_int_add. change (of_int exact 1) with (Q2Qc 1).
    split.
    + rewrite <- (Qcplus_0_l (Q2Qc 0)). apply Qcplus_le_compat; assumption.
    + apply Qcplus_le_compat; assumption.
Qed.

Lemma mean_bounds (l : list Qc) :
  l <> [] ->
  Forall (fun f => Q2Qc 0 <= f /\ f <= Q2Qc 1)%Qc l ->
  (Q2Qc 0 <= mean l /\ mean l <= Q2Qc 1)%Qc.
Proof.
  intros Hne Hall. destruct (sum_Qc_bounds Hall) as [H0 H1].
  unfold mean. apply exact_div_bounds; [|exact H0|exact H1].
  apply exact_of_nat_pos. destruct l; [contradiction Hne; reflexivity|discriminate].
Qed.

(** Rounding a number between 0 and 100 gives an integer between 0 and
    100. *)
Lemma round_half_even_bounds (q : Q) :
  (0 <= q)%Q -> (q <= 100)%Q -> (0 <= round_half_even q <= 100)%Z.
Proof.
  intros H0 H100. unfold round_half_even.
  assert (Hf0 : (0 <= Qfloor q)%Z).
  { change 0%Z with (Qfloor 0). apply Qfloor_resp_le, H0. }
  assert (Hf100 : (Qfloor q <= 100)%Z).
  { change 100%Z with (Qfloor (inject_Z 100)). apply Qfloor_resp_le, H100. }
  destruct (Z.eq_dec (Qfloor q) 100) as [E|E].
  - assert (Hlt : (q - inject_Z (Qfloor q) < 1 # 2)%Q).
    { rewrite E. apply Qle_lt_trans with (y := 0%Q); [|reflexivity].
      apply (Qplus_le_l _ _ (inject_Z 100)). ring_simplify. exact H100. }
    assert (Hcmp : Qcompare (q - inject_Z (Qfloor q)) (1 # 2) = Lt)
      by (apply Qlt_alt; exact Hlt).
    rewrite Hcmp. lia.
  - destruct (Qcompare (q - inject_Z (Qfloor q)) (1 # 2)); [destruct (Z.even _)| |]; lia.
Qed.

(** X13: in exact arithmetic the fraction of a domain with at least one
    endpoint lies between 0 and 1; it is 1 when every request returns a
    status in [200, 300) and 0 when none does. *)
Theorem exact_fraction_in_unit_interval (net : nat -> result response)
    (endpoints : list endpoint) :
  endpoints <> [] ->
  (Q2Qc 0 <= fraction exact net endpoints /\ fraction exact net endpoints <= Q2Qc 1)%Qc
  /\ ((forall i, (i < List.length endpoints)%nat -> request_up (net i) = true) ->
      snd (get_domain_availability exact net endpoints) = Ok (@PyFloat exact (Q2Qc 1)))
  /\ ((forall i, (i < List.length endpoints)%nat -> request_up (net i) = false) ->
      snd (get_domain_availability exact net endpoints) = Ok (@PyFloat exact (Q2Qc 0))).
Proof.
  intros Hne. split; [apply exact_fraction_bounds, Hne|].
  assert (Hn : List.length endpoints <> 0%nat)
    by (destruct endpoints; [contradiction Hne; reflexivity|discriminate]).
  pose proof (up_count_closed_form exact net endpoints) as Hcount.
  rewrite get_domain_availability_nonempty by exact Hne. cbn [snd].
  split; intros Hall; do 2 f_equal; unfold fraction; rewrite Hcount.
  - rewrite (filter_ext_in _ (fun _ => true)).
    + assert (Hid : forall l : list nat, filter (fun _ => true) l = l)
        by (induction l; simpl; congruence).
      rewrite Hid, length_seq.
      change (div exact) with Qcdiv. unfold Qcdiv. apply Qcmult_inv_r.
      intros H0. apply (Qclt_not_eq _ _ (exact_of_nat_pos Hn)). symmetry. exact H0.
    + intros i Hi. apply Hall. apply in_seq in Hi. lia.
  - rewrite filter_none.
    + change (div exact) with Qcdiv. unfold Qcdiv.
      change (of_int exact (Z.of_nat (List.length (@nil nat)))) with (Q2Qc 0).
      apply Qcmult_0_l.
    + intros i Hi. apply Hall. apply in_seq in Hi. lia.
Qed.

(** X14: in exact arithmetic, from the first cycle on, the average
    stored for every monitored domain lies between 0 and 1 and the
    percentage of its report line is an integer between 0 and 100. *)
Theorem exact_average_in_unit_interval (md : monitored) (st0 : state exact)
    (inputs : list (cycle_input exact)) :
  domains_ok md ->
  keys (domain_availability_averages st0) = keys md ->
  monitoring_cycle st0 = 0%Z ->
  inputs <> [] ->
  exists tr st,
    main_loop md st0 inputs = (tr, Ok st)
    /\ forall d eps,
         In (d, eps) md ->
         exists (a : Qc) (z : Z),
           dict_get (domain_availability_averages st) d = Some (@PyFloat exact a)
           /\ (Q2Qc 0 <= a /\ a <= Q2Qc 1)%Qc
           /\ py_round (py_mul (@PyFloat exact a) (PyInt 100)) = Ok z
           /\ (0 <= z <= 100)%Z.
Proof.
  intros Hok Hkeys Hc Hne.
  destruct (exact_loop_mean st0 Hok Hkeys Hc Hne) as [tr [st [Hrun [_ Hmean]]]].
  exists tr, st. split; [exact Hrun|].
  intros d eps Hin. apply In_nth_error in Hin. destruct Hin as [i Hi].
  assert (Heps : eps <> []).
  { destruct Hok as [_ Hall]. rewrite Forall_forall in Hall. apply Hall.
    apply nth_error_In in Hi. apply (in_map snd) in Hi. exact Hi. }
  assert (Hb : (Q2Qc 0 <= mean (fractions_fed i eps inputs)
                /\ mean (fractions_fed i eps inputs) <= Q2Qc 1)%Qc).
  { apply mean_bounds.
    - unfold fractions_fed. destruct inputs; [contradiction Hne; reflexivity|discriminate].
    - unfold fractions_fed. apply Forall_forall. intros f Hf.
      apply in_map_iff in Hf. destruct Hf as [input [<- _]].
      apply exact_fraction_bounds, Heps. }
  exists (mean (fractions_fed i eps inputs)).
  eexists. split; [apply (Hmean i d eps Hi)|]. split; [exact Hb|].
  split; [reflexivity|].
  destruct Hb as [Hb0 Hb1].
  apply round_half_even_bounds.
  - change (this (Q2Qc 0 * of_int exact 100) <= this (mean (fractions_fed i eps inputs) * of_int exact 100))%Q.
    apply (Qcmult_le_compat_r _ _ (of_int exact 100) Hb0). discriminate.
  - change (this (mean (fractions_fed i eps inputs) * of_int exact 100) <= this (Q2Qc 1 * of_int exact 100))%Q.
    apply (Qcmult_le_compat_r _ _ (of_int exact 100) Hb1). discriminate.
Qed.

(** X15: in binary64, the arithmetic of the program, the first update
    pass of [main] stores for every domain of at most 64 endpoints exactly
    the fraction of that cycle. *)
Theorem binary64_first_pass_stores_fraction (net : nat -> nat -> result response)
    (md : monitored) (i : nat) (d : string) (eps : list endpoint) :
  domains_ok md ->
  nth_error md i = Some (d, eps) ->
  (List.length eps <= 64)%nat ->
  exists averages,
    snd (update_domains_availability net
           (domain_availability_averages (initial_state binary64 md)) 1 md)
    = Ok averages
    /\ dict_get averages d = Some (PyFloat (fraction binary64 (net i) eps)).
Proof.
  intros Hok Hi Hlen.
  pose proof (initial_state_keys binary64 md) as Hkeys.
  rewrite update_domains_availability_zip; [|exact Hok|exact Hkeys|discriminate].
  eexists. split; [reflexivity|].
  assert (Hinit : nth_error (domain_availability_averages (initial_state binary64 md)) i
                  = Some (d, @PyInt binary64 0)).
  { unfold initial_state. cbn [domain_availability_averages].
    rewrite nth_error_map. unfold keys. rewrite nth_error_map, Hi. reflexivity. }
  assert (Heps : eps <> []).
  { destruct Hok as [_ Hall]. rewrite Forall_forall in Hall. apply Hall.
    apply nth_error_In in Hi. apply (in_map snd) in Hi. exact Hi. }
  apply dict_get_nth with (i := i).
  - rewrite zip_update_keys.
    + rewrite Hkeys. apply Hok.
    + rewrite cycle_fractions_length. symmetry. apply (keys_eq_length _ _ Hkeys).
  - rewrite (zip_update_nth 1 _ _ i Hinit (cycle_fractions_nth binary64 net md i Hi)).
    f_equal. f_equal. unfold fraction.
    apply binary64_first_update.
    + destruct eps; [contradiction Heps; reflexivity|]. simpl in *. lia.
    + unfold up_count. rewrite <- (probe_results_length binary64 (net i) eps).
      apply filter_length_le.
Qed.

(** After a cycle every average is a [float]. *)
Lemma zip_update_float (A : arith) (c : Z) (averages : dict (pyval A))
    (rs : list (pyval A)) (v : pyval A) :
  In v (values (zip_update c averages rs)) -> exists x, v = PyFloat x.
Proof.
  unfold values, zip_update. rewrite map_map. intros H.
  apply in_map_iff in H. destruct H as [[[k previous] r] [<- _]].
  eexists. reflexivity.
Qed.

Lemma averages_after_float (A : arith) (md : monitored) (inputs : list (cycle_input A))
    (c : Z) (averages : dict (pyval A)) (v : pyval A) :
  inputs <> [] ->
  In v (values (averages_after md c averages inputs)) -> exists x, v = PyFloat x.
Proof.
  revert c averages; induction inputs as [|input inputs IH]; intros c averages Hne Hin;
    [contradiction Hne; reflexivity|].
  cbn [averages_after] in Hin. destruct inputs as [|input' inputs].
  - cbn [averages_after] in Hin. apply (zip_update_float _ _ _ _ Hin).
  - apply (IH _ _ ltac:(discriminate) Hin).
Qed.

(** The percentage reported for an average of binary64 in the unit
    interval. *)
Lemma unit_average_percentage (x : spec_float) :
  unit_average (@PyFloat binary64 x) ->
  exists (q : Q) (z : Z),
    B64.to_Q x = Some q /\ (0 <= q)%Q /\ (q <= 1)%Q
    /\ py_round (py_mul (@PyFloat binary64 x) (PyInt 100)) = Ok z
    /\ (0 <= z <= 100)%Z.
Proof.
  cbn [unit_average]. intros [qx [Hx Hqx]].
  destruct (nonneg_float_to_Q _ _ Hx) as [q [Hq Eq]].
  destruct (@product_in_unit 100 x qx) as [qp [Hp Hqp]];
    [unfold exact_int_bound; lia|exact Hx|exact Hqx|].
  destruct (nonneg_float_to_Q _ _ Hp) as [q' [Hq' Eq']].
  exists q, (round_half_even q'). split; [exact Hq|].
  split; [rewrite Eq; apply (nonneg_float_value _ _ Hx)|].
  split; [rewrite Eq; exact Hqx|].
  split.
  - change (py_mul (@PyFloat binary64 x) (PyInt 100))
      with (@PyFloat binary64 (SFmul B64.prec B64.emax x (B64.of_int 100))).
    unfold py_round. change (to_Q binary64) with B64.to_Q. rewrite Hq'. reflexivity.
  - apply round_half_even_bounds.
    + rewrite Eq'. apply (nonneg_float_value _ _ Hp).
    + rewrite Eq'. exact Hqp.
Qed.

(** X17: in binary64, the arithmetic of the program, the loop of [main]
    never raises while the number of cycles and the numbers of endpoints
    of the domains are below [2^53]: after the cycles it was given inputs
    for it has counted them, and from the first cycle on the average
    stored for every monitored domain is a finite float between 0 and 1,
    whose report line carries an integer percentage between 0 and 100. *)
Theorem binary64_average_in_unit_interval (md : monitored)
    (inputs : list (cycle_input binary64)) :
  domains_ok md -> sizes_ok md ->
  (Z.of_nat (List.length inputs) < exact_int_bound)%Z ->
  exists tr st,
    main_loop md (initial_state binary64 md) inputs = (tr, Ok st)
    /\ monitoring_cycle st = Z.of_nat (List.length inputs)
    /\ keys (domain_availability_averages st) = keys md
    /\ (inputs <> [] ->
        forall d eps,
          In (d, eps) md ->
          exists (x : spec_float) (q : Q) (z : Z),
            dict_get (domain_availability_averages st) d = Some (@PyFloat binary64 x)
            /\ B64.to_Q x = Some q /\ (0 <= q)%Q /\ (q <= 1)%Q
            /\ py_round (py_mul (@PyFloat binary64 x) (PyInt 100)) = Ok z
            /\ (0 <= z <= 100)%Z).
Proof.
  intros Hok Hsize Hlen.
  destruct (@binary64_main_loop md inputs 0
              (domain_availability_averages (initial_state binary64 md))
              Hok (initial_state_keys binary64 md) Hsize (initial_state_in_unit md)
              (Z.le_refl 0) Hlen) as [tr [Hrun Hunit]].
  assert (Hkeys : keys (averages_after md 0
                          (domain_availability_averages (initial_state binary64 md))
                          inputs) = keys md).
  { rewrite averages_after_keys.
    - apply initial_state_keys.
    - apply keys_eq_length, initial_state_keys. }
  exists tr. eexists. split; [exact Hrun|].
  cbn [monitoring_cycle domain_availability_averages].
  split; [reflexivity|]. split; [exact Hkeys|].
  intros Hne d eps Hin. apply In_nth_error in Hin. destruct Hin as [i Hi].
  destruct (nth_error_same_keys _ md i Hkeys Hi) as [v Hv].
  assert (Hval : In v (values (averages_after md 0
                                 (domain_availability_averages (initial_state binary64 md))
                                 inputs))).
  { apply nth_error_In in Hv. apply (in_map snd) in Hv. exact Hv. }
  destruct (averages_after_float _ _ _ _ Hne Hval) as [x ->].
  rewrite Forall_forall in Hunit. specialize (Hunit _ Hval).
  destruct (unit_average_percentage Hunit) as [q [z [Hq [H0 [H1 [Hr Hz]]]]]].
  exists x, q, z. split; [|repeat split; assumption || apply Hz].
  apply dict_get_nth with (i := i); [|exact Hv].
  rewrite Hkeys. apply Hok.
Qed.

(** * Instances of the further properties *)

Lemma load_config_first_error_witness :
  parse_config (fun _ => Ok Sample.nameless) Url.netloc "" = Raise (KeyError "name")
  /\ load_config (fun _ => Ok Sample.nameless) Url.netloc binary64
                 (fun _ => Ok ""%string) "config.yaml"%string
     = ([Log ERROR ("Failed to load config: " ++ exn_str (KeyError "name"))%string],
        Exits 1%Z).
Proof.
  apply (@load_config_first_error binary64 (fun _ => Ok Sample.nameless) Url.netloc
           (fun _ => Ok ""%string) "config.yaml"%string ""%string
           [Sample.entry_of "https://example.com/" "home"] []
           {| entry_url := Some "https://example.com/health"%string;
              entry_name := None; entry_method := None; entry_headers := None;
              entry_body := None |}
           (KeyError "name")); reflexivity.
Defined.

Lemma parse_config_keeps_every_entry_witness :
  Permutation (all_endpoints both_domains)
              (map endpoint_of_entry (Sample.shop ++ Sample.api))
  /\ List.length (all_endpoints both_domains) = List.length (Sample.shop ++ Sample.api).
Proof.
  apply (@parse_config_keeps_every_entry (fun _ => Ok (Sample.shop ++ Sample.api))
           Url.netloc ""%string (Sample.shop ++ Sample.api) both_domains);
    reflexivity.
Defined.

Lemma parse_config_endpoints_come_from_entries_witness :
  let ep := endpoint_of_entry (Sample.entry_of "https://shop.example.com/cart" "cart") in
  Url.netloc (url (request_parameters ep)) = Ok "shop.example.com"%string
  /\ exists e,
       In e Sample.shop
       /\ entry_url e = Some (url (request_parameters ep))
       /\ entry_name e = Some (name ep)
       /\ method (request_parameters ep) = entry_get (entry_method e) "GET"%string
       /\ headers (request_parameters ep) = entry_headers e
       /\ data (request_parameters ep) = entry_body e.
Proof.
  apply (@parse_config_endpoints_come_from_entries (fun _ => Ok Sample.shop) Url.netloc
           ""%string Sample.shop Sample.shop_domains "shop.example.com"%string
           (map endpoint_of_entry Sample.shop)).
  - reflexivity.
  - reflexivity.
  - left. reflexivity.
  - right. left. reflexivity.
Defined.

Lemma update_raises_on_empty_domain_witness :
  snd (update_domains_availability (Sample.first_up 1)
         (domain_availability_averages (initial_state binary64 empty_domain)) 1
         empty_domain)
  = Raise ZeroDivisionError.
Proof.
  apply (@update_raises_on_empty_domain binary64 (Sample.first_up 1)
           (domain_availability_averages (initial_state binary64 empty_domain)) 1
           empty_domain "empty.example.com"%string).
  left. reflexivity.
Defined.

Lemma update_raises_on_unknown_domain_witness :
  exists d',
    snd (update_domains_availability (A := binary64) (Sample.first_up 1) [] 1
           Sample.shop_domains)
    = Raise (KeyError d')
    /\ In d' (keys Sample.shop_domains) /\ ~ In d' (keys (@nil (string * pyval binary64))).
Proof.
  apply (@update_raises_on_unknown_domain binary64 (Sample.first_up 1) [] 1
           Sample.shop_domains "shop.example.com"%string).
  - exact shop_domains_ok.
  - discriminate.
  - left. reflexivity.
  - intros [].
Defined.

Lemma update_raises_on_cycle_zero_witness :
  snd (update_domains_availability (Sample.first_up 1)
         (domain_availability_averages (initial_state binary64 Sample.shop_domains)) 0
         Sample.shop_domains)
  = Raise ZeroDivisionError.
Proof.
  apply (@update_raises_on_cycle_zero binary64 (Sample.first_up 1)
           (domain_availability_averages (initial_state binary64 Sample.shop_domains))
           Sample.shop_domains).
  - exact shop_domains_ok.
  - reflexivity.
  - discriminate.
Defined.

Lemma both_domains_ok : domains_ok both_domains.
Proof.
  apply (parse_entries_domains_ok Url.netloc (Sample.shop ++ Sample.api)). reflexivity.
Qed.

Lemma update_isolates_domains_witness :
  let averages := domain_availability_averages (initial_state binary64 both_domains) in
  exists averages1 averages2 v,
    snd (update_domains_availability (Sample.first_up 2) averages 1 both_domains)
    = Ok averages1
    /\ snd (update_domains_availability other_domains_time_out averages 1 both_domains)
       = Ok averages2
    /\ dict_get averages1 "shop.example.com" = Some v
    /\ dict_get averages2 "shop.example.com" = Some v.
Proof.
  apply (@update_isolates_domains binary64 (Sample.first_up 2) other_domains_time_out
           (domain_availability_averages (initial_state binary64 both_domains)) 1
           both_domains 0%nat "shop.example.com"%string
           (map endpoint_of_entry Sample.shop)).
  - exact both_domains_ok.
  - reflexivity.
  - discriminate.
  - reflexivity.
  - intros j _. reflexivity.
Defined.

Lemma loop_reports_and_sleeps_once_per_cycle_witness :
  let inputs := [Sample.cycle_with binary64 2; Sample.cycle_with binary64 3] in
  let run := main_loop Sample.shop_domains
               (initial_state binary64 Sample.shop_domains) inputs in
  let st := {| domain_availability_averages :=
                 [("shop.example.com"%string,
                   @PyFloat binary64 (S754_finite false 7505999378950826 (-53)))];
               monitoring_cycle := 2 |} in
  monitoring_cycle st = Z.of_nat (List.length inputs)
  /\ List.length (filter is_sleep (fst run)) = List.length inputs
  /\ List.length (filter is_info (fst run)) = List.length inputs.
Proof.
  apply (@loop_reports_and_sleeps_once_per_cycle binary64 Sample.shop_domains
           [Sample.cycle_with binary64 2; Sample.cycle_with binary64 3]).
  - exact shop_domains_ok.
  - reflexivity.
Defined.

Lemma main_runs_on_loaded_config_witness :
  let argv := ["health_check.py"; "config.yaml"]%string in
  let safe_load := fun _ : string => Ok Sample.shop in
  let read := fun _ : string => Ok ""%string in
  let inputs := [Sample.cycle_with binary64 2] in
  (exists tr,
     fst (main safe_load Url.netloc Repr.list_repr binary64 argv read inputs)
     = [Log INFO ("Using config file: " ++ "config.yaml")%string;
        Log INFO ("Monitoring domains: "
                  ++ Repr.list_repr (keys Sample.shop_domains))%string]
       ++ tr)
  /\ match snd (main safe_load Url.netloc Repr.list_repr binary64 argv read inputs) with
     | Running st =>
         monitoring_cycle st = Z.of_nat (List.length inputs)
         /\ keys (domain_availability_averages st) = keys Sample.shop_domains
     | Crashed e => round_error e
     | Exited _ => False
     end
  /\ exists st,
       snd (main safe_load Url.netloc Repr.list_repr exact argv read
              [Sample.cycle_with exact 2])
       = Running st
       /\ monitoring_cycle st = Z.of_nat (List.length [Sample.cycle_with exact 2]).
Proof.
  destruct (@main_runs_on_loaded_config binary64 (fun _ : string => Ok Sample.shop)
              Url.netloc Repr.list_repr (fun _ : string => Ok ""%string)
              "health_check.py"%string "config.yaml"%string ""%string
              Sample.shop_domains
              [Sample.cycle_with binary64 2] [Sample.cycle_with exact 2]
              eq_refl eq_refl)
    as [Hlog [Hrun [Hexact _]]].
  split; [exact Hlog|]. split; [exact Hrun|exact Hexact].
Defined.

Lemma exact_fraction_in_unit_interval_witness :
  let endpoints := map endpoint_of_entry Sample.shop in
  let net := Sample.first_up 2 0%nat in
  (Q2Qc 0 <= fraction exact net endpoints /\ fraction exact net endpoints <= Q2Qc 1)%Qc
  /\ ((forall i, (i < List.length endpoints)%nat -> request_up (net i) = true) ->
      snd (get_domain_availability exact net endpoints) = Ok (@PyFloat exact (Q2Qc 1)))
  /\ ((forall i, (i < List.length endpoints)%nat -> request_up (net i) = false) ->
      snd (get_domain_availability exact net endpoints) = Ok (@PyFloat exact (Q2Qc 0))).
Proof.
  apply (@exact_fraction_in_unit_interval (Sample.first_up 2 0%nat)
           (map endpoint_of_entry Sample.shop)).
  discriminate.
Defined.

Lemma exact_average_in_unit_interval_witness :
  let md := Sample.shop_domains in
  let inputs := map (Sample.cycle_with exact) [2; 3]%nat in
  exists tr st,
    main_loop md (initial_state exact md) inputs = (tr, Ok st)
    /\ forall d eps,
         In (d, eps) md ->
         exists (a : Qc) (z : Z),
           dict_get (domain_availability_averages st) d = Some (@PyFloat exact a)
           /\ (Q2Qc 0 <= a /\ a <= Q2Qc 1)%Qc
           /\ py_round (py_mul (@PyFloat exact a) (PyInt 100)) = Ok z
           /\ (0 <= z <= 100)%Z.
Proof.
  apply (@exact_average_in_unit_interval Sample.shop_domains
           (initial_state exact Sample.shop_domains)
           (map (Sample.cycle_with exact) [2; 3]%nat)).
  - exact shop_domains_ok.
  - reflexivity.
  - reflexivity.
  - discriminate.
Defined.

Lemma binary64_first_pass_stores_fraction_witness :
  let eps := map endpoint_of_entry Sample.api in
  exists averages,
    snd (update_domains_availability (Sample.first_up 4)
           (domain_availability_averages (initial_state binary64 both_domains)) 1
           both_domains)
    = Ok averages
    /\ dict_get averages "api.example.com"
       = Some (PyFloat (fraction binary64 (Sample.first_up 4 1%nat) eps)).
Proof.
  apply (@binary64_first_pass_stores_fraction (Sample.first_up 4) both_domains 1%nat
           "api.example.com"%string (map endpoint_of_entry Sample.api)).
  - exact both_domains_ok.
  - reflexivity.
  - simpl. lia.
Defined.

Lemma binary64_average_in_unit_interval_witness :
  let md := Sample.shop_domains in
  let inputs := map (Sample.cycle_with binary64) [2; 3]%nat in
  exists tr st,
    main_loop md (initial_state binary64 md) inputs = (tr, Ok st)
    /\ monitoring_cycle st = Z.of_nat (List.length inputs)
    /\ keys (domain_availability_averages st) = keys md
    /\ (inputs <> [] ->
        forall d eps,
          In (d, eps) md ->
          exists (x : spec_float) (q : Q) (z : Z),
            dict_get (domain_availability_averages st) d = Some (@PyFloat binary64 x)
            /\ B64.to_Q x = Some q /\ (0 <= q)%Q /\ (q <= 1)%Q
            /\ py_round (py_mul (@PyFloat binary64 x) (PyInt 100)) = Ok z
            /\ (0 <= z <= 100)%Z).
Proof.
  apply (@binary64_average_in_unit_interval Sample.shop_domains
           (map (Sample.cycle_with binary64) [2; 3]%nat)).
  - exact shop_domains_ok.
  - repeat constructor.
  - reflexivity.
Defined.
